(** * ev-server: billing factory, JSON WebSocket connection, async-task storage

    Shallow embedding of
      - class [BillingFactory] of [src/integration/billing/BillingFactory.ts]
        (module [BillingFactory]),
      - class [JsonWSConnection], which follows it in the same file
        (module [JsonWSConnection]),
      - class [AsyncTaskStorage] of [src/storage/mongodb/AsyncTaskStorage.ts]
        (module [AsyncTaskStorage]).

    Asynchronous methods are functions in a small promise monad [Async]: a
    call either returns, throws, or never completes.  The logging
    collaborator is a parameter: every call hands it an audit record and gets
    back a promise that is resolved, rejected or never settled.  [await]
    inspects that promise, [void] discards it, as in the source. *)

From Stdlib Require Import ZArith Lia.
From stdpp Require Import base option strings list gmap.

Local Open Scope Z_scope.
Local Open Scope string_scope.
Local Open Scope list_scope.

(** JavaScript helpers on strings. *)
Module JS.

(** Truthiness of a string: only the empty one is falsy. *)
Definition truthy (s : string) : bool := negb (bool_decide (s = "")).

(** Truthiness of a string that may be undefined. *)
Definition truthy_opt (s : option string) : bool :=
  match s with
  | Some s => truthy s
  | None => false
  end.

(** [s.startsWith(p)] *)
Definition startsWith (p s : string) : bool := String.prefix p s.

(** [s.replace(pat, rep)] with a string pattern: the first occurrence only. *)
Definition replace (pat rep s : string) : string :=
  match String.index 0 pat s with
  | Some n =>
      String.substring 0 n s +:+ rep +:+
      String.substring (n + String.length pat) (String.length s - (n + String.length pat)) s
  | None => s
  end.

(** [s] without the prefix [p], when it has it. *)
Fixpoint strip_prefix (p s : string) : option string :=
  match p, s with
  | EmptyString, _ => Some s
  | String a p', String b s' => if bool_decide (a = b) then strip_prefix p' s' else None
  | String _ _, EmptyString => None
  end.

End JS.

(** ** Promises and exceptions *)

(** Error codes of [OCPPErrorType]; only [NOT_IMPLEMENTED] is named by the
    source, the others stand for whatever a handler supplies. *)
Inductive OCPPErrorType :=
| NOT_IMPLEMENTED
| GENERIC_ERROR
| INTERNAL_ERROR.

Inductive Exn :=
| BackendError (source module_ method message : string)
| OCPPError (source module_ method : string) (code : OCPPErrorType) (message : string)
| TypeError (message : string)
| HandlerFailure (code : OCPPErrorType) (message : string)
| LoggingFailure (reason : string).

(** How a promise ends. *)
Inductive Settle :=
| Resolved
| Rejected (reason : string)
| NeverSettles.

(** How a call of an [async] method ends. *)
Inductive Outcome (A : Type) :=
| Return (a : A)
| Throw (e : Exn)
| Blocked.
Arguments Return {A} a.
Arguments Throw {A} e.
Arguments Blocked {A}.

(** The value of a call that returned. *)
Definition returned {A} (o : Outcome A) : option A :=
  match o with
  | Return a => Some a
  | _ => None
  end.

Definition Async (S A : Type) : Type := S → Outcome A * S.

Definition ret {S A} (a : A) : Async S A := λ s, (Return a, s).
Definition throw {S A} (e : Exn) : Async S A := λ s, (Throw e, s).
Definition blocked {S A} : Async S A := λ s, (Blocked, s).
Definition bind {S A B} (m : Async S A) (k : A → Async S B) : Async S B :=
  λ s, match m s with
       | (Return a, s') => k a s'
       | (Throw e, s') => (Throw e, s')
       | (Blocked, s') => (Blocked, s')
       end.
Definition gets {S A} (f : S → A) : Async S A := λ s, (Return (f s), s).
Definition modify {S} (f : S → S) : Async S unit := λ s, (Return tt, f s).
(** [try m catch h]: a call that never completes is not caught. *)
Definition try_catch {S A} (m : Async S A) (h : Exn → Async S A) : Async S A :=
  λ s, match m s with
       | (Throw e, s') => h e s'
       | r => r
       end.

Lemma bind_ret {S A B} (a : A) (k : A → Async S B) (s : S) : bind (ret a) k s = k a s.
Proof. reflexivity. Qed.

Lemma bind_throw {S A B} (e : Exn) (k : A → Async S B) (s : S) :
  bind (throw e) k s = (Throw e, s).
Proof. reflexivity. Qed.

Lemma bind_blocked {S A B} (k : A → Async S B) (s : S) : bind blocked k s = (Blocked, s).
Proof. reflexivity. Qed.

Lemma bind_gets {S A B} (f : S → A) (k : A → Async S B) (s : S) :
  bind (gets f) k s = k (f s) s.
Proof. reflexivity. Qed.

Lemma bind_modify {S B} (f : S → S) (k : unit → Async S B) (s : S) :
  bind (modify f) k s = k tt (f s).
Proof. reflexivity. Qed.

Lemma bind_assoc {S A B C} (m : Async S A) (k : A → Async S B) (h : B → Async S C) (s : S) :
  bind (bind m k) h s = bind m (λ a, bind (k a) h) s.
Proof. unfold bind. by destruct (m s) as [[a|e|] s']. Qed.

Create Rewrite HintDb async.
#[global] Hint Rewrite @bind_ret @bind_throw @bind_blocked @bind_gets @bind_modify : async.

Declare Scope async_scope.
Delimit Scope async_scope with async.
Notation "x <- m ;; k" := (bind m (λ x, k))
  (at level 100, m at next level, right associativity) : async_scope.
Notation "m ;; k" := (bind m (λ _, k))
  (at level 100, right associativity) : async_scope.
Local Open Scope async_scope.

(** ** The logging collaborator ([utils/Logging], not part of these files) *)

Inductive LogLevel := LOG_DEBUG | LOG_INFO | LOG_ERROR.

(** The [ServerAction] members used as the [action] of a log entry. *)
Module ServerAction.
Inductive t :=
| BILLING
| WS_JSON_CONNECTION_OPENED
| WS_JSON_CONNECTION_ERROR
| WS_JSON_CONNECTION_CLOSED
| WS_CONNECTION.
End ServerAction.

(** The events the [ws] library hands to [onError] and [onClose]. *)
Record ErrorEvent := {
  error : string;
  message : string;
}.

Record CloseEvent := {
  code : Z;
  reason : string;
}.

Inductive Detail :=
| DetailError (errorEvent : option ErrorEvent)
| DetailClose (closeEvent : CloseEvent).

Record LogEntry := {
  log_tenantID : string;
  log_source : option string;
  log_action : ServerAction.t;
  log_module : string;
  log_method : string;
  log_message : string;
  log_detailedMessages : option Detail;
}.

Inductive Audit :=
| Log (level : LogLevel) (entry : LogEntry)
| ReceiveAction (module_ tenantID chargeBoxID action payload : string)
| RespondAction (module_ tenantID chargeBoxID action result : string)
| TraceEnd (tenantID module_ method timerID : string).

(** What the collaborator keeps is its own business. *)
Definition Sink : Type := list Audit.

Record Logging := {
  (** [logDebug], [logInfo], [logError], [logChargingStationServer...Action],
      [traceEnd]: take a record, return a promise. *)
  emit : Audit → Sink → Settle * Sink;
  (** [traceStart] is synchronous and returns a timer id. *)
  traceStart : string → string → string → string;
}.

(** A logging collaborator all of whose promises resolve. *)
Definition resolves (logging : Logging) : Prop :=
  ∀ a k, (emit logging a k).1 = Resolved.

Class HasSink (S : Type) := {
  sink : S → Sink;
  with_sink : Sink → S → S;
}.

#[global] Instance Sink_HasSink : HasSink Sink := {| sink := λ k, k; with_sink := λ k _, k |}.

Section Promise.
Context {S : Type} `{HasSink S}.

(** Calling a [Logging] method starts it and yields its promise. *)
Definition call (logging : Logging) (a : Audit) : Async S Settle :=
  λ s, let '(p, k) := emit logging a (sink s) in (Return p, with_sink k s).

(** [await p] *)
Definition await (p : Settle) : Async S unit :=
  match p with
  | Resolved => ret tt
  | Rejected r => throw (LoggingFailure r)
  | NeverSettles => blocked
  end.

(** [void p] *)
Definition void (p : Settle) : Async S unit := ret tt.

(** [await Logging.f(...)] followed by [m], when the promise resolves. *)
Lemma await_call_resolves {A} (logging : Logging) (a : Audit) (m : Async S A) (s : S) :
  resolves logging →
  (p <- call logging a;; await p;; m) s = m (with_sink (emit logging a (sink s)).2 s).
Proof.
  intros Hlog. unfold bind, call. specialize (Hlog a (sink s)).
  destruct (emit logging a (sink s)) as [p k']. cbn in *. by subst p.
Qed.

(** [void Logging.f(...)] followed by [m], whatever the promise does. *)
Lemma void_call {A} (logging : Logging) (a : Audit) (m : Async S A) (s : S) :
  (p <- call logging a;; void p;; m) s = m (with_sink (emit logging a (sink s)).2 s).
Proof.
  unfold bind, call, void, ret.
  by destruct (emit logging a (sink s)) as [p k'].
Qed.
End Promise.

(** ** [BillingFactory] *)

Module TenantComponents.
Inductive t :=
| PRICING
| BILLING
| OTHER (name : string).
End TenantComponents.

Module BillingSettingsType.
Inductive t :=
| STRIPE
| OTHER (name : string).
End BillingSettingsType.

Module BillingFactory.

Definition MODULE_NAME : string := "BillingFactory".

Record Tenant := {
  id : string;
  name : string;
  subdomain : string;
}.

Record BillingSettings := {
  identifier : string;
  type : BillingSettingsType.t;
}.

Section Factory.
Context (logging : Logging).
(** [BillingIntegration], and [StripeBillingIntegration.getInstance] which
    builds one. *)
Context {BillingIntegration : Type}.
Context (getInstance : string → BillingSettings → BillingIntegration).
(** The tenants and the billing settings kept by [TenantStorage] and
    [SettingStorage], by tenant id. *)
Context (tenants : gmap string Tenant) (billingSettings : gmap string BillingSettings).
(** [Utils.isTenantComponentActive] *)
Context (isTenantComponentActive : option Tenant → TenantComponents.t → bool).

Definition getTenant (tenantID : string) : option Tenant := tenants !! tenantID.

Definition getBillingSetting (tenantID : string) : option BillingSettings :=
  billingSettings !! tenantID.

Definition getBillingImpl (tenantID : string) : Async Sink (option BillingIntegration) :=
  let tenant := getTenant tenantID in
  if isTenantComponentActive tenant TenantComponents.PRICING &&
     isTenantComponentActive tenant TenantComponents.BILLING
  then
    match getBillingSetting tenantID with
    | Some settings =>
        let billingIntegrationImpl : option BillingIntegration := None in
        let billingIntegrationImpl :=
          match type settings with
          | BillingSettingsType.STRIPE => Some (getInstance tenantID settings)
          | _ => billingIntegrationImpl
          end in
        ret billingIntegrationImpl
    | None =>
        tenant_id <- match tenant with
                     | Some t => ret (id t)
                     | None => throw (TypeError "Cannot read properties of null (reading 'id')")
                     end;;
        p <- call logging
               (Log LOG_DEBUG
                  {| log_tenantID := tenant_id;
                     log_source := None;
                     log_action := ServerAction.BILLING;
                     log_module := MODULE_NAME;
                     log_method := "getBillingImpl";
                     log_message := "Billing settings are not configured";
                     log_detailedMessages := None |});;
        await p;;
        ret None
    end
  else ret None.

(** Both components the factory asks for are active. *)
Definition billing_active (tenantID : string) : bool :=
  isTenantComponentActive (getTenant tenantID) TenantComponents.PRICING &&
  isTenantComponentActive (getTenant tenantID) TenantComponents.BILLING.

End Factory.

(** A tenant with Stripe billing configured, and one without settings. *)
Definition acme : Tenant := {| id := "t1"; name := "Acme"; subdomain := "acme" |}.
Definition bolt : Tenant := {| id := "t2"; name := "Bolt"; subdomain := "bolt" |}.

Definition two_tenants : gmap string Tenant := <["t1" := acme]> (<["t2" := bolt]> ∅).

Definition stripe_settings : gmap string BillingSettings :=
  <["t1" := {| identifier := "billing"; type := BillingSettingsType.STRIPE |}]> ∅.

Definition stored_is_active (tenant : option Tenant) (c : TenantComponents.t) : bool :=
  match tenant, c with
  | Some _, (TenantComponents.PRICING | TenantComponents.BILLING) => true
  | _, _ => false
  end.

Definition quiet : Logging :=
  {| emit := λ a k, (Resolved, a :: k); traceStart := λ _ _ _, "" |}.

Definition factory (tenantID : string) : Outcome (option string) * Sink :=
  getBillingImpl quiet (λ tenantID _, "stripe:" +:+ tenantID) two_tenants stripe_settings
    stored_is_active tenantID [].

Example getBillingImpl_stripe : returned (factory "t1").1 = Some (Some "stripe:t1").
Proof. vm_compute. reflexivity. Qed.

Example getBillingImpl_no_settings : returned (factory "t2").1 = Some None.
Proof. vm_compute. reflexivity. Qed.

Example getBillingImpl_unknown_tenant : returned (factory "t3").1 = Some None.
Proof. vm_compute. reflexivity. Qed.


(** *** When the factory logs *)

Section FactoryLogging.
Context (logging : Logging).
Context {BillingIntegration : Type}.
Context (getInstance : string → BillingSettings → BillingIntegration).
Context (tenants : gmap string Tenant) (billingSettings : gmap string BillingSettings).
Context (isTenantComponentActive : option Tenant → TenantComponents.t → bool).

(** The record written when billing is active and not configured. *)
Definition not_configured_record (tenant : Tenant) : Audit :=
  Log LOG_DEBUG
    {| log_tenantID := id tenant;
       log_source := None;
       log_action := ServerAction.BILLING;
       log_module := MODULE_NAME;
       log_method := "getBillingImpl";
       log_message := "Billing settings are not configured";
       log_detailedMessages := None |}.

(** [getBillingImpl] calls the logging collaborator in one case only: both
    components active and no billing setting stored.  Then it hands over
    one debug record carrying the id of the tenant and ends as the promise
    of that record does (null when it resolves).  In every other case it
    returns without a call to the collaborator, whatever that would do. *)
Theorem getBillingImpl_logs_only_when_not_configured (tenantID : string) (k : Sink) :
  let run := getBillingImpl logging getInstance tenants billingSettings
               isTenantComponentActive tenantID k in
  let active := billing_active tenants isTenantComponentActive tenantID in
  (active = false → run = (Return None, k)) ∧
  (∀ settings, active = true → billingSettings !! tenantID = Some settings →
     run = (Return (match type settings with
                    | BillingSettingsType.STRIPE => Some (getInstance tenantID settings)
                    | BillingSettingsType.OTHER _ => None
                    end), k)) ∧
  (∀ tenant, active = true → billingSettings !! tenantID = None →
     tenants !! tenantID = Some tenant →
     run = (match (emit logging (not_configured_record tenant) k).1 with
            | Resolved => Return None
            | Rejected r => Throw (LoggingFailure r)
            | NeverSettles => Blocked
            end, (emit logging (not_configured_record tenant) k).2)).
Proof.
  intros run active. subst run active. unfold getBillingImpl, billing_active.
  split_and!.
  - by intros ->.
  - intros settings -> Hset. unfold getBillingSetting. rewrite Hset.
    by destruct (type settings).
  - intros tenant -> Hset Htenant. unfold getBillingSetting, getTenant.
    rewrite Hset, Htenant. rewrite bind_ret.
    unfold bind, call, await, not_configured_record, ret, throw, blocked. cbn.
    by destruct (emit logging _ k) as [[|r|] k'].
Qed.
(** C8, as the code has it: whenever [getBillingImpl] returns, what it
    returns is a billing integration exactly when the tenant has both the
    PRICING and the BILLING component active, a billing setting is stored
    and its type is STRIPE, and it is then the Stripe instance; with these
    conditions it does return one.  It returns null without throwing when
    a component is inactive and when the stored setting has another type.
    With both components active and no setting stored it awaits a debug
    record first: it returns null when the promise of that record
    resolves, throws when it rejects and does not return while it is
    pending; and reading the id of a tenant that is not stored throws. *)
Theorem getBillingImpl_integration_iff_configured (tenantID : string) (k : Sink) :
  let run := getBillingImpl logging getInstance tenants billingSettings
               isTenantComponentActive tenantID k in
  let active := billing_active tenants isTenantComponentActive tenantID in
  let stripe := ∃ settings, billingSettings !! tenantID = Some settings ∧
                            type settings = BillingSettingsType.STRIPE in
  (∀ r k', run = (Return r, k') →
     (is_Some r ↔ active = true ∧ stripe) ∧
     (∀ settings, billingSettings !! tenantID = Some settings →
                  is_Some r → r = Some (getInstance tenantID settings))) ∧
  (∀ settings, active = true → billingSettings !! tenantID = Some settings →
     type settings = BillingSettingsType.STRIPE →
     run = (Return (Some (getInstance tenantID settings)), k)) ∧
  (active = false → run = (Return None, k)) ∧
  (∀ settings, active = true → billingSettings !! tenantID = Some settings →
     type settings ≠ BillingSettingsType.STRIPE → run = (Return None, k)) ∧
  (active = true → billingSettings !! tenantID = None →
     match tenants !! tenantID with
     | Some tenant =>
         run = (match (emit logging (not_configured_record tenant) k).1 with
                | Resolved => Return None
                | Rejected r => Throw (LoggingFailure r)
                | NeverSettles => Blocked
                end, (emit logging (not_configured_record tenant) k).2)
     | None => run = (Throw (TypeError "Cannot read properties of null (reading 'id')"), k)
     end).
Proof.
  intros run active stripe. subst run active stripe.
  unfold getBillingImpl, billing_active, getBillingSetting, getTenant.
  destruct (isTenantComponentActive _ TenantComponents.PRICING &&
            isTenantComponentActive _ TenantComponents.BILLING) eqn:Hactive.
  - destruct (billingSettings !! tenantID) as [settings|] eqn:Hsettings.
    + split_and!.
      * intros r k' [= <- <-]. destruct (type settings) eqn:Htype; split.
        -- split; [intros _; split; [done|]; by exists settings | by eexists].
        -- by intros ? [= <-] _.
        -- split; [by intros [? [=]] | intros [_ (? & [= <-] & ?)]; congruence].
        -- by intros ? _ [? [=]].
      * by intros ? _ [= <-] ->.
      * done.
      * intros ? _ [= <-] Htype. by destruct (type settings).
      * done.
    + split_and!; [|done..|].
      * intros r k' Hrun. destruct (tenants !! tenantID) as [tenant|]; [|done].
        rewrite bind_ret in Hrun. unfold bind, call, await, ret, throw, blocked in Hrun.
        cbn in Hrun. destruct (emit logging _ k) as [[|reason|] k1]; [|done..].
        injection Hrun as <- <-. split.
        -- split; [by intros [? [=]] | by intros [_ (? & [=] & _)]].
        -- by intros ? [=].
      * intros _ _. destruct (tenants !! tenantID) as [tenant|]; [|done].
        rewrite bind_ret. unfold bind, call, await, not_configured_record, ret, throw, blocked.
        cbn. by destruct (emit logging _ k) as [[|reason|] k1].
  - split_and!; [|done..].
    intros r k' [= <- <-]. split.
    + split; [by intros [? [=]] | by intros [[=] _]].
    + by intros ? _ [? [=]].
Qed.
End FactoryLogging.

Definition rejecting : Logging :=
  {| emit := λ a k, (Rejected "log store unavailable", k); traceStart := λ _ _ _, "" |}.

Lemma getBillingImpl_logs_only_when_not_configured_witness :
  getBillingImpl rejecting (λ tenantID _, "stripe:" +:+ tenantID) two_tenants stripe_settings
    stored_is_active "t1" [] = (Return (Some "stripe:t1"), []) ∧
  getBillingImpl rejecting (λ tenantID _, "stripe:" +:+ tenantID) two_tenants stripe_settings
    stored_is_active "t2" [] = (Throw (LoggingFailure "log store unavailable"), []).
Proof.
  destruct (getBillingImpl_logs_only_when_not_configured rejecting
              (λ tenantID _, "stripe:" +:+ tenantID) two_tenants stripe_settings
              stored_is_active "t1" []) as (_ & Hset & _).
  destruct (getBillingImpl_logs_only_when_not_configured rejecting
              (λ tenantID _, "stripe:" +:+ tenantID) two_tenants stripe_settings
              stored_is_active "t2" []) as (_ & _ & Hnone).
  split.
  - apply (Hset {| identifier := "billing"; type := BillingSettingsType.STRIPE |});
      vm_compute; reflexivity.
  - apply (Hnone bolt); vm_compute; reflexivity.
Defined.

Lemma getBillingImpl_integration_iff_configured_witness :
  getBillingImpl quiet (λ tenantID _, "stripe:" +:+ tenantID) two_tenants stripe_settings
    stored_is_active "t1" [] = (Return (Some "stripe:t1"), []) ∧
  getBillingImpl quiet (λ tenantID _, "stripe:" +:+ tenantID) two_tenants stripe_settings
    stored_is_active "t3" [] = (Return None, []).
Proof.
  destruct (getBillingImpl_integration_iff_configured quiet
              (λ tenantID _, "stripe:" +:+ tenantID) two_tenants stripe_settings
              stored_is_active "t1" []) as (_ & Hstripe & _).
  destruct (getBillingImpl_integration_iff_configured quiet
              (λ tenantID _, "stripe:" +:+ tenantID) two_tenants stripe_settings
              stored_is_active "t3" []) as (_ & _ & Hinactive & _).
  split.
  - apply (Hstripe {| identifier := "billing"; type := BillingSettingsType.STRIPE |});
      vm_compute; reflexivity.
  - apply Hinactive. vm_compute. reflexivity.
Defined.

(** C8 fails: the tenant [t2] has both components active and no billing
    setting; the claim has [getBillingImpl] return null without throwing,
    and with a logging collaborator whose promise rejects it throws. *)
Lemma getBillingImpl_throws_when_record_rejected :
  billing_active two_tenants stored_is_active "t2" = true ∧
  stripe_settings !! "t2" = None ∧
  getBillingImpl rejecting (λ tenantID _, "stripe:" +:+ tenantID) two_tenants stripe_settings
    stored_is_active "t2" [] = (Throw (LoggingFailure "log store unavailable"), []).
Proof. split_and!; vm_compute; reflexivity. Qed.

End BillingFactory.

(** ** [AsyncTaskStorage] *)

Module AsyncTaskStorage.

Definition MODULE_NAME : string := "AsyncTaskStorage".

Record AsyncTask := {
  id : string;
  name : string;
  status : string;
  createdOn : Z;
}.

(** [params] of [getAsyncTasks]; an absent member is [None]. *)
Record Params := {
  p_status : option string;
  asyncTaskIDs : option (list string);
}.

Definition SortSpec : Type := list (string * Z).

Record DbParams := {
  limit : option Z;
  skip : option Z;
  onlyRecordCount : bool;
  sort : option SortSpec;
}.

(** [FilterParams] as this file fills it: [_id: { $in }] and [status]. *)
Record FilterParams := {
  _id_in : option (list string);
  f_status : option string;
}.

(** Documents flowing through a pipeline: the collection's own, or the one
    produced by [$count]. *)
Inductive Doc :=
| Task (t : AsyncTask)
| Counted (field : string) (n : Z).

Inductive Stage :=
| SMatch (filters : FilterParams)
| SLimit (n : Z)
| SSkip (n : Z)
| SSort (s : SortSpec)
| SCount (field : string)
| SOther (f : list Doc → list Doc).

Record DataResult := {
  count : Z;
  result : list Doc;
}.

Definition matches (filters : FilterParams) (t : AsyncTask) : bool :=
  match _id_in filters with
  | Some ids => bool_decide (id t ∈ ids)
  | None => true
  end &&
  match f_status filters with
  | Some s => bool_decide (status t = s)
  | None => true
  end.

Definition matchesDoc (filters : FilterParams) (d : Doc) : bool :=
  match d with
  | Task t => matches filters t
  | Counted _ _ => false
  end.

Section Mongo.
(** The database's ordering of documents under a sort specification. *)
Context (mongoSort : SortSpec → list Doc → list Doc).

(** The stages of MongoDB's [aggregate] that this file builds.  [$limit]
    is only ever given a positive number here (the server rejects
    others). *)
Definition stage (st : Stage) (docs : list Doc) : list Doc :=
  match st with
  | SMatch filters => List.filter (matchesDoc filters) docs
  | SLimit n => take (Z.to_nat n) docs
  | SSkip n => drop (Z.to_nat n) docs
  | SSort s => mongoSort s docs
  | SCount field =>
      match docs with
      | [] => []
      | _ => [Counted field (Z.of_nat (length docs))]
      end
  | SOther f => f docs
  end.

Definition aggregate (pipeline : list Stage) (docs : list Doc) : list Doc :=
  foldl (λ ds st, stage st ds) docs pipeline.
End Mongo.

(** [asyncTasksCountMDB[0].count] *)
Definition count_of (d : Doc) : Z :=
  match d with
  | Counted _ n => n
  | Task _ => 0
  end.

(** [Array.prototype.pop] *)
Definition pop {A} (l : list A) : list A := removelast l.

Section Storage.
Context (logging : Logging).
(** [Constants.DB_RECORD_COUNT_CEIL], [Constants.DEFAULT_TENANT] *)
Context (DB_RECORD_COUNT_CEIL : Z) (DEFAULT_TENANT : string).
(** [Utils.checkRecordLimit], [Utils.checkRecordSkip], [Utils.isEmptyArray] *)
Context (checkRecordLimit checkRecordSkip : option Z → Z).
Context (isEmptyArray : option (list string) → bool).
(** [DatabaseUtils.pushRenameDatabaseID],
    [DatabaseUtils.pushCreatedLastChangedInAggregation],
    [DatabaseUtils.projectFields]: each extends the pipeline it is given. *)
Context (pushRenameDatabaseID : list Stage → list Stage).
Context (pushCreatedLastChangedInAggregation : string → list Stage → list Stage).
Context (projectFields_ : list Stage → option (list string) → list Stage).
Context (mongoSort : SortSpec → list Doc → list Doc).
(** The [asynctasks] collection. *)
Context (asynctasks : list AsyncTask).

(** The filters of the [$match] stage. *)
Definition filters_of (params : Params) : FilterParams :=
  {| _id_in := if negb (isEmptyArray (asyncTaskIDs params))
               then asyncTaskIDs params else None;
     f_status := if JS.truthy_opt (p_status params) then p_status params else None |}.

(** [dbParams] is cloned before its [limit] and [skip] are overwritten; here
    the checked values get names of their own. *)
Definition getAsyncTasks (params : Params) (dbParams : DbParams)
    (projectFields : option (list string)) : Async Sink DataResult :=
  let uniqueTimerID := traceStart logging DEFAULT_TENANT MODULE_NAME "getAsyncTasks" in
  let limit' := checkRecordLimit (limit dbParams) in
  let skip' := checkRecordSkip (skip dbParams) in
  let aggregation : list Stage := [] in
  let filters := filters_of params in
  let aggregation := aggregation ++ [SMatch filters] in
  let aggregation :=
    if negb (onlyRecordCount dbParams)
    then aggregation ++ [SLimit DB_RECORD_COUNT_CEIL]
    else aggregation in
  let asyncTasksCountMDB :=
    aggregate mongoSort (aggregation ++ [SCount "count"]) (Task <$> asynctasks) in
  if onlyRecordCount dbParams then
    p <- call logging (TraceEnd DEFAULT_TENANT MODULE_NAME "getAsyncTasks" uniqueTimerID);;
    await p;;
    ret {| count := match asyncTasksCountMDB with
                    | d :: _ => count_of d
                    | [] => 0
                    end;
           result := [] |}
  else
    let aggregation := pop aggregation in
    let sort' := match sort dbParams with
                 | Some s => s
                 | None => [("createdOn", -1)]
                 end in
    let aggregation := aggregation ++ [SSort sort'] in
    let aggregation :=
      if bool_decide (skip' > 0) then aggregation ++ [SSkip skip'] else aggregation in
    let aggregation :=
      aggregation ++
      [SLimit (if bool_decide (limit' > 0) && bool_decide (limit' < DB_RECORD_COUNT_CEIL)
               then limit' else DB_RECORD_COUNT_CEIL)] in
    let aggregation := pushRenameDatabaseID aggregation in
    let aggregation := pushCreatedLastChangedInAggregation DEFAULT_TENANT aggregation in
    let aggregation := projectFields_ aggregation projectFields in
    let asyncTasksMDB := aggregate mongoSort aggregation (Task <$> asynctasks) in
    p <- call logging (TraceEnd DEFAULT_TENANT MODULE_NAME "getAsyncTasks" uniqueTimerID);;
    await p;;
    ret {| count := match asyncTasksCountMDB with
                    | d :: _ =>
                        if bool_decide (count_of d = DB_RECORD_COUNT_CEIL)
                        then -1 else count_of d
                    | [] => 0
                    end;
           result := asyncTasksMDB |}.

(** Number of records of the collection that the query selects. *)
Definition matching (params : Params) : Z :=
  Z.of_nat (length (List.filter (matches (filters_of params)) asynctasks)).

Lemma match_stage_length filters (ts : list AsyncTask) :
  length (List.filter (matchesDoc filters) (Task <$> ts)) =
  length (List.filter (matches filters) ts).
Proof.
  induction ts as [|t ts IH]; [reflexivity|].
  rewrite fmap_cons. cbn [List.filter matchesDoc].
  destruct (matches filters t); cbn [length]; congruence.
Qed.

Lemma count_stage_head field (docs : list Doc) :
  match stage mongoSort (SCount field) docs with
  | d :: _ => count_of d
  | [] => 0
  end = Z.of_nat (length docs).
Proof. destruct docs; reflexivity. Qed.

(** The [$count] pipeline run with the ceiling in place. *)
Lemma counted_with_ceiling filters :
  0 < DB_RECORD_COUNT_CEIL →
  match aggregate mongoSort [SMatch filters; SLimit DB_RECORD_COUNT_CEIL; SCount "count"]
          (Task <$> asynctasks) with
  | d :: _ => count_of d
  | [] => 0
  end = Z.min DB_RECORD_COUNT_CEIL
          (Z.of_nat (length (List.filter (matches filters) asynctasks))).
Proof.
  intros Hceil. unfold aggregate. cbn [foldl].
  rewrite count_stage_head. cbn [stage].
  rewrite length_take, match_stage_length. lia.
Qed.

(** The [$count] pipeline run without it. *)
Lemma counted_raw filters :
  match aggregate mongoSort [SMatch filters; SCount "count"] (Task <$> asynctasks) with
  | d :: _ => count_of d
  | [] => 0
  end = Z.of_nat (length (List.filter (matches filters) asynctasks)).
Proof.
  unfold aggregate. cbn [foldl].
  rewrite count_stage_head. cbn [stage]. by rewrite match_stage_length.
Qed.

(** C10: with [onlyRecordCount] unset, [getAsyncTasks] returns count [-1]
    when the number of matching records equals [DB_RECORD_COUNT_CEIL] (or
    exceeds it), the exact number of matches below the ceiling, and [0]
    when nothing matches; with [onlyRecordCount] set it returns the raw
    number of matches and an empty result list.  The ceiling is positive,
    and the trace record written before returning is awaited, so the
    logging collaborator is taken to resolve. *)
Theorem getAsyncTasks_count params dbParams projectFields (k : Sink) :
  0 < DB_RECORD_COUNT_CEIL →
  resolves logging →
  ∃ r k',
    getAsyncTasks params dbParams projectFields k = (Return r, k') ∧
    let n := matching params in
    if onlyRecordCount dbParams
    then count r = n ∧ result r = []
    else (n = DB_RECORD_COUNT_CEIL → count r = -1) ∧
         (n < DB_RECORD_COUNT_CEIL → count r = n) ∧
         (n = 0 → count r = 0) ∧
         (DB_RECORD_COUNT_CEIL < n → count r = -1).
Proof.
  intros Hceil Hlog. unfold getAsyncTasks, matching.
  destruct (onlyRecordCount dbParams) eqn:Honly; cbn [negb app].
  - eexists _, _. split.
    + rewrite await_call_resolves by done. reflexivity.
    + cbn [count result]. split; [apply counted_raw | reflexivity].
  - eexists _, _. split.
    + rewrite await_call_resolves by done. reflexivity.
    + cbn [count result].
      pose proof (counted_with_ceiling (filters_of params) Hceil) as Hc.
      cbn [app] in Hc.
      destruct (aggregate mongoSort _ _) as [|d ?] eqn:Hagg.
      * repeat split; intros; lia.
      * rewrite Hc. case_bool_decide; repeat split; intros; lia.
Qed.
End Storage.

(** A small collection and a collaborator that stores what it is given. *)
Definition recorder : Logging :=
  {| emit := λ a k, (Resolved, k ++ [a]); traceStart := λ _ _ _, "t0" |}.

Definition three_tasks : list AsyncTask :=
  [ {| id := "a"; name := "sync"; status := "Pending"; createdOn := 3 |};
    {| id := "b"; name := "bill"; status := "Running"; createdOn := 2 |};
    {| id := "c"; name := "sync"; status := "Pending"; createdOn := 1 |} ].

Definition is_empty_array (ids : option (list string)) : bool :=
  match ids with
  | Some (_ :: _) => false
  | _ => true
  end.

Definition run_three (ceil : Z) (params : Params) (dbParams : DbParams) : Outcome DataResult * Sink :=
  getAsyncTasks recorder ceil "default" (default 50) (default 0) is_empty_array
    (λ a, a) (λ _ a, a) (λ a _, a) (λ _ ds, ds) three_tasks params dbParams None [].

Example getAsyncTasks_at_ceiling :
  count <$> returned
    (run_three 2 {| p_status := Some "Pending"; asyncTaskIDs := None |}
       {| limit := None; skip := None; onlyRecordCount := false; sort := None |}).1
  = Some (-1).
Proof. reflexivity. Qed.

Lemma getAsyncTasks_count_witness :
  ∃ r k',
    run_three 2 {| p_status := Some "Running"; asyncTaskIDs := None |}
      {| limit := None; skip := None; onlyRecordCount := false; sort := None |}
    = (Return r, k') ∧ count r = 1.
Proof.
  destruct (getAsyncTasks_count recorder 2 "default" (default 50) (default 0)
              is_empty_array (λ a, a) (λ _ a, a) (λ a _, a) (λ _ ds, ds) three_tasks
              {| p_status := Some "Running"; asyncTaskIDs := None |}
              {| limit := None; skip := None; onlyRecordCount := false; sort := None |}
              None [])
    as (r & k' & Hrun & _ & Hbelow & _).
  - lia.
  - intros a k. reflexivity.
  - exists r, k'. split; [exact Hrun|]. apply Hbelow. vm_compute. reflexivity.
Defined.

(** *** The other operations of the storage *)

(** The [asynctasks] collection together with what the logging
    collaborator holds. *)
Record Db := {
  recorded : Sink;
  collection : list AsyncTask;
}.

#[global] Instance Db_HasSink : HasSink Db :=
  {| sink := recorded;
     with_sink := λ k d, {| recorded := k; collection := collection d |} |}.

Definition set_status (to : string) (t : AsyncTask) : AsyncTask :=
  {| id := id t; name := name t; status := to; createdOn := createdOn t |}.

(** MongoDB's [updateMany] with the filter [{status: from}] and the update
    [{$set: {status: to}}]; its [modifiedCount] counts the documents the
    update has changed. *)
Definition updateMany_status (from to : string) : Async Db Z :=
  λ d,
    (Return (Z.of_nat (length (List.filter
               (λ t, bool_decide (status t = from) && negb (bool_decide (status t = to)))
               (collection d)))),
     {| recorded := recorded d;
        collection :=
          (λ t, if bool_decide (status t = from) then set_status to t else t)
            <$> collection d |}).

(** MongoDB's [findOneAndDelete] with the filter [{_id: id}]: the first
    document with that id goes. *)
Fixpoint delete_first (id' : string) (docs : list AsyncTask) : list AsyncTask :=
  match docs with
  | [] => []
  | t :: ts => if bool_decide (id t = id') then ts else t :: delete_first id' ts
  end.

Definition findOneAndDelete (id' : string) : Async Db unit :=
  modify (λ d, {| recorded := recorded d; collection := delete_first id' (collection d) |}).

(** How many documents have the status, and how many the id. *)
Definition with_status (s : string) (docs : list AsyncTask) : Z :=
  Z.of_nat (length (List.filter (λ t, bool_decide (status t = s)) docs)).

Definition with_id (id' : string) (docs : list AsyncTask) : Z :=
  Z.of_nat (length (List.filter (λ t, bool_decide (id t = id')) docs)).

Section Tasks.
Context (logging : Logging).
Context (DB_RECORD_COUNT_CEIL : Z) (DEFAULT_TENANT : string).
Context (checkRecordLimit checkRecordSkip : option Z → Z).
Context (isEmptyArray : option (list string) → bool).
Context (pushRenameDatabaseID : list Stage → list Stage).
Context (pushCreatedLastChangedInAggregation : string → list Stage → list Stage).
Context (projectFields_ : list Stage → option (list string) → list Stage).
Context (mongoSort : SortSpec → list Doc → list Doc).
(** [Constants.UNKNOWN_OBJECT_ID], [Constants.DB_PARAMS_SINGLE_RECORD] *)
Context (UNKNOWN_OBJECT_ID : string) (DB_PARAMS_SINGLE_RECORD : DbParams).
(** [AsyncTaskStatus.RUNNING], [AsyncTaskStatus.PENDING] *)
Context (RUNNING PENDING : string).

(** [getAsyncTasks] with the collaborators of this section. *)
Definition query (asynctasks : list AsyncTask) (params : Params) (dbParams : DbParams)
    (projectFields : option (list string)) : Async Sink DataResult :=
  getAsyncTasks logging DB_RECORD_COUNT_CEIL DEFAULT_TENANT checkRecordLimit checkRecordSkip
    isEmptyArray pushRenameDatabaseID pushCreatedLastChangedInAggregation projectFields_
    mongoSort asynctasks params dbParams projectFields.

(** [getAsyncTask]: [id] is [None] when the caller passes none; the second
    parameter of the source, [params], is not used by it.  An element
    missing from [result] and the [null] of the other branch are both
    [None]. *)
Definition getAsyncTask (asynctasks : list AsyncTask) (id' : option string)
    (projectFields : option (list string)) : Async Sink (option Doc) :=
  let id' := default UNKNOWN_OBJECT_ID id' in
  asyncTasksMDB <- query asynctasks {| p_status := None; asyncTaskIDs := Some [id'] |}
                     DB_PARAMS_SINGLE_RECORD projectFields;;
  ret (if bool_decide (count asyncTasksMDB = 1) then head (result asyncTasksMDB) else None).

Definition updateRunningAsyncTaskToPending : Async Db Z :=
  let uniqueTimerID :=
    traceStart logging DEFAULT_TENANT MODULE_NAME "updateRunningAsyncTaskToPending" in
  modifiedCount <- updateMany_status RUNNING PENDING;;
  p <- call logging (TraceEnd DEFAULT_TENANT MODULE_NAME "updateRunningAsyncTaskToPending"
                       uniqueTimerID);;
  await p;;
  ret modifiedCount.

Definition deleteAsyncTask (id' : string) : Async Db unit :=
  let uniqueTimerID := traceStart logging DEFAULT_TENANT MODULE_NAME "deleteAsyncTask" in
  findOneAndDelete id';;
  p <- call logging (TraceEnd DEFAULT_TENANT MODULE_NAME "deleteAsyncTask" uniqueTimerID);;
  await p.

(** The count [getAsyncTasks] reports for [n] matching records. *)
Definition reported (onlyCount : bool) (n : Z) : Z :=
  if onlyCount then n
  else if bool_decide (n = 0) then 0
  else if bool_decide (DB_RECORD_COUNT_CEIL ≤ n)%Z then -1 else n.

Lemma query_count asynctasks params dbParams projectFields (k : Sink) :
  0 < DB_RECORD_COUNT_CEIL →
  resolves logging →
  ∃ r k',
    query asynctasks params dbParams projectFields k = (Return r, k') ∧
    count r = reported (onlyRecordCount dbParams) (matching isEmptyArray asynctasks params) ∧
    (onlyRecordCount dbParams = true → result r = []).
Proof.
  intros Hceil Hlog. unfold query, getAsyncTasks, matching, reported.
  destruct (onlyRecordCount dbParams) eqn:Honly; cbn [negb app].
  - eexists _, _. split; [rewrite await_call_resolves by done; reflexivity|].
    cbn [count result]. split; [apply counted_raw|done].
  - eexists _, _. split; [rewrite await_call_resolves by done; reflexivity|].
    cbn [count result]. split; [|done].
    pose proof (counted_with_ceiling DB_RECORD_COUNT_CEIL mongoSort asynctasks
                  (filters_of isEmptyArray params)
                  Hceil) as Hc.
    cbn [app] in Hc.
    destruct (aggregate mongoSort _ _) as [|d ?] eqn:Hagg.
    + repeat case_bool_decide; lia.
    + rewrite Hc. repeat case_bool_decide; lia.
Qed.

Lemma matching_by_id asynctasks (id' : string) :
  isEmptyArray (Some [id']) = false →
  matching isEmptyArray asynctasks {| p_status := None; asyncTaskIDs := Some [id'] |}
  = with_id id' asynctasks.
Proof.
  intros Harr. unfold matching, with_id, filters_of. cbn. rewrite Harr. cbn.
  f_equal. f_equal. induction asynctasks as [|t ts IH]; [done|].
  cbn. unfold matches at 1 3. cbn. rewrite IH.
  destruct (decide (id t = id')) as [Heq|Hne].
  - rewrite !bool_decide_eq_true_2; [done|done|]. rewrite Heq. by apply list_elem_of_singleton.
  - rewrite !bool_decide_eq_false_2; [done|done|]. by intros ?%list_elem_of_singleton.
Qed.

(** [getAsyncTask] returns, and it hands out a record only when exactly one
    record of the collection has the id, the ceiling is above one and the
    single-record parameters ask for records; with no record of that id,
    or with several, it returns null. *)
Theorem getAsyncTask_needs_exactly_one asynctasks (id' : option string)
    (projectFields : option (list string)) (k : Sink) :
  0 < DB_RECORD_COUNT_CEIL →
  resolves logging →
  isEmptyArray (Some [default UNKNOWN_OBJECT_ID id']) = false →
  ∃ r k',
    getAsyncTask asynctasks id' projectFields k = (Return r, k') ∧
    (with_id (default UNKNOWN_OBJECT_ID id') asynctasks ≠ 1 → r = None) ∧
    (is_Some r →
     with_id (default UNKNOWN_OBJECT_ID id') asynctasks = 1 ∧
     DB_RECORD_COUNT_CEIL ≠ 1 ∧
     onlyRecordCount DB_PARAMS_SINGLE_RECORD = false).
Proof.
  intros Hceil Hlog Harr. unfold getAsyncTask.
  destruct (query_count asynctasks
              {| p_status := None; asyncTaskIDs := Some [default UNKNOWN_OBJECT_ID id'] |}
              DB_PARAMS_SINGLE_RECORD projectFields k Hceil Hlog)
    as (r & k' & Hrun & Hcount & Hempty).
  rewrite matching_by_id in Hcount by done.
  eexists _, k'. split; [unfold bind; rewrite Hrun; reflexivity|].
  unfold reported in Hcount.
  destruct (decide (count r = 1)) as [Hone|Hone].
  2:{ rewrite bool_decide_eq_false_2 by done. split; [done|by intros [? [=]]]. }
  rewrite bool_decide_eq_true_2 by done.
  destruct (onlyRecordCount DB_PARAMS_SINGLE_RECORD) eqn:Honly.
  - rewrite (Hempty eq_refl). split; [done|by intros [? [=]]].
  - rewrite Hone in Hcount.
    split; [intros Hn; repeat case_bool_decide; lia|].
    intros _. split_and!; [repeat case_bool_decide; lia..|done].
Qed.
(** The collection after [updateMany_status]. *)
Definition moved (from to : string) (docs : list AsyncTask) : list AsyncTask :=
  (λ t, if bool_decide (status t = from) then set_status to t else t) <$> docs.

Lemma moved_none_left (from to : string) (docs : list AsyncTask) :
  from ≠ to → with_status from (moved from to docs) = 0.
Proof.
  intros Hne. unfold with_status, moved. induction docs as [|t ts IH]; [done|].
  rewrite fmap_cons. cbn [List.filter].
  destruct (decide (status t = from)) as [Heq|Hneq].
  - rewrite (bool_decide_eq_true_2 (status t = from)) by done. cbn [set_status status].
    by rewrite bool_decide_eq_false_2 by done.
  - rewrite (bool_decide_eq_false_2 (status t = from)) by done.
    by rewrite bool_decide_eq_false_2 by done.
Qed.

Lemma moved_arrive (from to : string) (docs : list AsyncTask) :
  from ≠ to →
  with_status to (moved from to docs) = with_status to docs + with_status from docs.
Proof.
  intros Hne. unfold with_status, moved. induction docs as [|t ts IH]; [done|].
  rewrite fmap_cons. cbn [List.filter].
  destruct (decide (status t = from)) as [Heq|Hneq].
  - rewrite !(bool_decide_eq_true_2 (status t = from)) by done. cbn [set_status status].
    rewrite (bool_decide_eq_true_2 (to = to)) by done.
    rewrite (bool_decide_eq_false_2 (status t = to)) by congruence.
    cbn [length]. lia.
  - rewrite !(bool_decide_eq_false_2 (status t = from)) by done.
    destruct (bool_decide (status t = to)); cbn [length]; lia.
Qed.

Lemma moved_others (from to s : string) (docs : list AsyncTask) :
  s ≠ from → s ≠ to → with_status s (moved from to docs) = with_status s docs.
Proof.
  intros Hfrom Hto. unfold with_status, moved. induction docs as [|t ts IH]; [done|].
  rewrite fmap_cons. cbn [List.filter].
  destruct (decide (status t = from)) as [Heq|Hneq].
  - rewrite (bool_decide_eq_true_2 (status t = from)) by done. cbn [set_status status].
    rewrite (bool_decide_eq_false_2 (to = s)) by done.
    by rewrite (bool_decide_eq_false_2 (status t = s)) by congruence.
  - rewrite (bool_decide_eq_false_2 (status t = from)) by done.
    destruct (bool_decide (status t = s)); cbn [length]; lia.
Qed.

Lemma moved_ids (from to : string) (docs : list AsyncTask) :
  id <$> moved from to docs = id <$> docs.
Proof.
  unfold moved. rewrite <- list_fmap_compose. apply list_fmap_ext.
  intros i t _. cbn. by destruct (bool_decide (status t = from)).
Qed.

Lemma moved_again (from to : string) (docs : list AsyncTask) :
  from ≠ to → moved from to (moved from to docs) = moved from to docs.
Proof.
  intros Hne. unfold moved. rewrite <- list_fmap_compose. apply list_fmap_ext.
  intros i t _. cbn. destruct (decide (status t = from)) as [Heq|Hneq].
  - rewrite (bool_decide_eq_true_2 (status t = from)) by done. cbn [set_status status].
    by rewrite bool_decide_eq_false_2 by done.
  - rewrite (bool_decide_eq_false_2 (status t = from)) by done.
    by rewrite bool_decide_eq_false_2 by done.
Qed.

Lemma modified_count (from to : string) (docs : list AsyncTask) :
  from ≠ to →
  Z.of_nat (length (List.filter
     (λ t, bool_decide (status t = from) && negb (bool_decide (status t = to))) docs))
  = with_status from docs.
Proof.
  intros Hne. unfold with_status. f_equal. f_equal. induction docs as [|t ts IH]; [done|].
  cbn [List.filter]. rewrite IH.
  destruct (decide (status t = from)) as [Heq|Hneq].
  - rewrite (bool_decide_eq_true_2 (status t = from)) by done.
    by rewrite (bool_decide_eq_false_2 (status t = to)) by congruence.
  - by rewrite (bool_decide_eq_false_2 (status t = from)) by done.
Qed.

Lemma bind_returned {S A B} (m : Async S A) (k : A → Async S B) (s s' : S) (a : A) :
  m s = (Return a, s') → bind m k s = k a s'.
Proof. intros Hm. unfold bind. by rewrite Hm. Qed.

Lemma updateRunningAsyncTaskToPending_run (d : Db) :
  collection (updateRunningAsyncTaskToPending d).2 = moved RUNNING PENDING (collection d) ∧
  (resolves logging → RUNNING ≠ PENDING →
   (updateRunningAsyncTaskToPending d).1 = Return (with_status RUNNING (collection d))).
Proof.
  unfold updateRunningAsyncTaskToPending.
  erewrite bind_returned by reflexivity. split.
  - unfold bind, call, await. cbn. by destruct (emit logging _ _) as [[|r|] k].
  - intros Hlog Hne. rewrite await_call_resolves by done. cbn. by rewrite modified_count.
Qed.


Lemma delete_first_count (id' : string) (docs : list AsyncTask) :
  with_id id' (delete_first id' docs) = Z.max 0 (with_id id' docs - 1).
Proof.
  unfold with_id. induction docs as [|t ts IH]; [done|].
  cbn [delete_first List.filter]. destruct (decide (id t = id')) as [Heq|Hneq].
  - rewrite !(bool_decide_eq_true_2 (id t = id')) by done. cbn [length]. lia.
  - rewrite !(bool_decide_eq_false_2 (id t = id')) by done. cbn [List.filter].
    by rewrite (bool_decide_eq_false_2 (id t = id')) by done.
Qed.

Lemma delete_first_others (id' : string) (docs : list AsyncTask) :
  List.filter (λ t, negb (bool_decide (id t = id'))) (delete_first id' docs) =
  List.filter (λ t, negb (bool_decide (id t = id'))) docs.
Proof.
  induction docs as [|t ts IH]; [done|].
  cbn [delete_first List.filter]. destruct (decide (id t = id')) as [Heq|Hneq].
  - by rewrite !(bool_decide_eq_true_2 (id t = id')) by done.
  - rewrite !(bool_decide_eq_false_2 (id t = id')) by done. cbn [List.filter negb].
    rewrite (bool_decide_eq_false_2 (id t = id')) by done. cbn [negb]. by rewrite IH.
Qed.

Lemma delete_first_absent (id' : string) (docs : list AsyncTask) :
  with_id id' docs = 0 → delete_first id' docs = docs.
Proof.
  unfold with_id. induction docs as [|t ts IH]; [done|].
  cbn [delete_first List.filter]. destruct (decide (id t = id')) as [Heq|Hneq].
  - rewrite !(bool_decide_eq_true_2 (id t = id')) by done. cbn [length]. lia.
  - rewrite !(bool_decide_eq_false_2 (id t = id')) by done. intros Hn. by rewrite IH.
Qed.

Lemma deleteAsyncTask_run (id' : string) (d : Db) :
  collection (deleteAsyncTask id' d).2 = delete_first id' (collection d) ∧
  (resolves logging → (deleteAsyncTask id' d).1 = Return tt).
Proof.
  unfold deleteAsyncTask, findOneAndDelete. rewrite bind_modify. split.
  - unfold bind, call, await. cbn. by destruct (emit logging _ _) as [[|r|] k].
  - intros Hlog. unfold bind, call, await. cbn.
    pose proof (Hlog (TraceEnd DEFAULT_TENANT MODULE_NAME "deleteAsyncTask"
                        (traceStart logging DEFAULT_TENANT MODULE_NAME "deleteAsyncTask"))
                  (recorded d)) as Hp.
    destruct (emit logging _ _) as [p k]. cbn in Hp. by subst p.
Qed.

(** [deleteAsyncTask] removes one record of the given id when there is one
    and nothing otherwise: the number of records of that id drops by one
    (not below zero), the records of every other id stay, in their order,
    and a collection without the id is left as it is.  The removal is in
    the collection whatever the logging collaborator does afterwards. *)
Theorem deleteAsyncTask_removes_one (id' : string) (d : Db) :
  let run := deleteAsyncTask id' d in
  with_id id' (collection run.2) = Z.max 0 (with_id id' (collection d) - 1) ∧
  List.filter (λ t, negb (bool_decide (id t = id'))) (collection run.2) =
    List.filter (λ t, negb (bool_decide (id t = id'))) (collection d) ∧
  (with_id id' (collection d) = 0 → collection run.2 = collection d) ∧
  (resolves logging → run.1 = Return tt).
Proof.
  intros run. subst run. destruct (deleteAsyncTask_run id' d) as [-> Hret].
  split_and!; [apply delete_first_count|apply delete_first_others| |exact Hret].
  apply delete_first_absent.
Qed.

(** After [deleteAsyncTask] on a collection that held the id at most once,
    [getAsyncTask] for that id returns null. *)
Theorem deleted_task_is_not_found (id' : string) (d : Db)
    (projectFields : option (list string)) (k : Sink) :
  0 < DB_RECORD_COUNT_CEIL →
  resolves logging →
  isEmptyArray (Some [id']) = false →
  (with_id id' (collection d) ≤ 1)%Z →
  (getAsyncTask (collection (deleteAsyncTask id' d).2) (Some id') projectFields k).1
    = Return None.
Proof.
  intros Hceil Hlog Harr Honce. destruct (deleteAsyncTask_run id' d) as [-> _].
  unfold getAsyncTask. change (default UNKNOWN_OBJECT_ID (Some id')) with id'.
  destruct (query_count (delete_first id' (collection d))
              {| p_status := None; asyncTaskIDs := Some [id'] |}
              DB_PARAMS_SINGLE_RECORD projectFields k Hceil Hlog)
    as (r & k' & Hrun & Hcount & _).
  rewrite matching_by_id, delete_first_count in Hcount by done.
  unfold bind. rewrite Hrun. cbn.
  rewrite bool_decide_eq_false_2; [done|].
  rewrite Hcount. unfold reported.
  assert (0 ≤ with_id id' (collection d))%Z by (unfold with_id; lia).
  destruct (onlyRecordCount DB_PARAMS_SINGLE_RECORD); repeat case_bool_decide; lia.
Qed.

(** After [updateRunningAsyncTaskToPending], [getAsyncTasks] asked for the
    running tasks reports none. *)
Theorem no_running_task_is_reported (d : Db) (dbParams : DbParams)
    (projectFields : option (list string)) (k : Sink) :
  0 < DB_RECORD_COUNT_CEIL →
  resolves logging →
  RUNNING ≠ PENDING →
  RUNNING ≠ "" →
  isEmptyArray None = true →
  ∃ r k',
    query (collection (updateRunningAsyncTaskToPending d).2)
      {| p_status := Some RUNNING; asyncTaskIDs := None |} dbParams projectFields k
      = (Return r, k') ∧
    count r = 0.
Proof.
  intros Hceil Hlog Hne Htruthy Harr.
  destruct (updateRunningAsyncTaskToPending_run d) as [-> _].
  destruct (query_count (moved RUNNING PENDING (collection d))
              {| p_status := Some RUNNING; asyncTaskIDs := None |}
              dbParams projectFields k Hceil Hlog)
    as (r & k' & Hrun & Hcount & _).
  exists r, k'. split; [exact Hrun|]. rewrite Hcount.
  assert (matching isEmptyArray (moved RUNNING PENDING (collection d))
            {| p_status := Some RUNNING; asyncTaskIDs := None |}
          = with_status RUNNING (moved RUNNING PENDING (collection d))) as ->.
  { unfold matching, with_status, filters_of. cbn. rewrite Harr. cbn.
    unfold JS.truthy. rewrite (bool_decide_eq_false_2 (RUNNING = "")) by done. cbn.
    reflexivity. }
  rewrite moved_none_left by done. unfold reported.
  by destruct (onlyRecordCount dbParams).
Qed.

Lemma aggregate_app (a b : list Stage) (docs : list Doc) :
  aggregate mongoSort (a ++ b) docs = aggregate mongoSort b (aggregate mongoSort a docs).
Proof. unfold aggregate. apply foldl_app. Qed.

(** With [onlyRecordCount] unset, [getAsyncTasks] returns at most
    [DB_RECORD_COUNT_CEIL] records, and at most the checked limit when that
    is positive and below the ceiling.  Assumed of the three helpers of
    [DatabaseUtils] that extend the pipeline: the stages they add produce
    no more documents than they are given. *)
Theorem getAsyncTasks_result_is_limited asynctasks params dbParams projectFields (k : Sink) :
  0 < DB_RECORD_COUNT_CEIL →
  resolves logging →
  onlyRecordCount dbParams = false →
  (∀ a docs, length (aggregate mongoSort (pushRenameDatabaseID a) docs)
             ≤ length (aggregate mongoSort a docs))%nat →
  (∀ tenant a docs,
     length (aggregate mongoSort (pushCreatedLastChangedInAggregation tenant a) docs)
     ≤ length (aggregate mongoSort a docs))%nat →
  (∀ a fields docs, length (aggregate mongoSort (projectFields_ a fields) docs)
                    ≤ length (aggregate mongoSort a docs))%nat →
  ∃ r k',
    query asynctasks params dbParams projectFields k = (Return r, k') ∧
    (Z.of_nat (length (result r)) ≤ DB_RECORD_COUNT_CEIL)%Z ∧
    (0 < checkRecordLimit (limit dbParams) < DB_RECORD_COUNT_CEIL →
     (Z.of_nat (length (result r)) ≤ checkRecordLimit (limit dbParams))%Z).
Proof.
  intros Hceil Hlog Honly Hrename Hcreated Hproject.
  unfold query, getAsyncTasks. rewrite Honly. cbn [negb app pop removelast].
  eexists _, _. split; [rewrite await_call_resolves by done; reflexivity|].
  cbn [result].
  match goal with
  | |- context [aggregate mongoSort (projectFields_ (pushCreatedLastChangedInAggregation _
                  (pushRenameDatabaseID ?a)) _) ?docs] =>
      assert (length (aggregate mongoSort (projectFields_
                (pushCreatedLastChangedInAggregation DEFAULT_TENANT
                   (pushRenameDatabaseID a)) projectFields) docs)
              ≤ length (aggregate mongoSort a docs))%nat as Hle
        by (etrans; [apply Hproject|]; etrans; [apply Hcreated|]; apply Hrename);
      revert Hle; generalize (length (aggregate mongoSort (projectFields_
                (pushCreatedLastChangedInAggregation DEFAULT_TENANT
                   (pushRenameDatabaseID a)) projectFields) docs));
      intros n Hle
  end.
  rewrite aggregate_app in Hle. unfold aggregate at 1 in Hle. cbn [foldl stage] in Hle.
  rewrite length_take in Hle.
  split; [|intros [Hpos Hbelow]];
    repeat case_bool_decide; cbn [andb] in Hle; lia.
Qed.
End Tasks.

(** *** These operations on the collection of the examples *)

Definition single_record : DbParams :=
  {| limit := Some 1; skip := Some 0; onlyRecordCount := false; sort := None |}.

Definition find_three (id' : option string) : Outcome (option Doc) * Sink :=
  getAsyncTask recorder 500 "default" (default 50) (default 0) is_empty_array
    (λ a, a) (λ _ a, a) (λ a _, a) (λ _ ds, ds) "000000000000000000000000" single_record
    three_tasks id' None [].

Definition three : Db := {| recorded := []; collection := three_tasks |}.

Example getAsyncTask_found :
  returned (find_three (Some "b")).1 =
  Some (Some (Task {| id := "b"; name := "bill"; status := "Running"; createdOn := 2 |})).
Proof. vm_compute. reflexivity. Qed.

Example updateRunning_three :
  returned (updateRunningAsyncTaskToPending recorder "default" "Running" "Pending" three).1
  = Some 1.
Proof. vm_compute. reflexivity. Qed.

Lemma getAsyncTask_needs_exactly_one_witness :
  ∃ r k', find_three None = (Return r, k') ∧ r = None.
Proof.
  destruct (getAsyncTask_needs_exactly_one recorder 500 "default" (default 50) (default 0)
              is_empty_array (λ a, a) (λ _ a, a) (λ a _, a) (λ _ ds, ds)
              "000000000000000000000000" single_record three_tasks None None [])
    as (r & k' & Hrun & Hnull & _).
  - lia.
  - intros a k. reflexivity.
  - reflexivity.
  - exists r, k'. split; [exact Hrun|]. apply Hnull. vm_compute. discriminate.
Defined.


Lemma deleteAsyncTask_removes_one_witness :
  collection (deleteAsyncTask recorder "default" "z" three).2 = three_tasks ∧
  (deleteAsyncTask recorder "default" "z" three).1 = Return tt.
Proof.
  destruct (deleteAsyncTask_removes_one recorder "default" "z" three)
    as (_ & _ & Habsent & Hret).
  split.
  - apply Habsent. vm_compute. reflexivity.
  - apply Hret. intros a k. reflexivity.
Defined.

Lemma deleted_task_is_not_found_witness :
  (getAsyncTask recorder 500 "default" (default 50) (default 0) is_empty_array
     (λ a, a) (λ _ a, a) (λ a _, a) (λ _ ds, ds) "000000000000000000000000" single_record
     (collection (deleteAsyncTask recorder "default" "b" three).2) (Some "b") None []).1
  = Return None.
Proof.
  apply (deleted_task_is_not_found recorder 500 "default" (default 50) (default 0)
           is_empty_array (λ a, a) (λ _ a, a) (λ a _, a) (λ _ ds, ds)
           "000000000000000000000000" single_record "b" three None []).
  - lia.
  - intros a k. reflexivity.
  - reflexivity.
  - vm_compute. discriminate.
Defined.

Lemma no_running_task_is_reported_witness :
  ∃ r k',
    getAsyncTasks recorder 500 "default" (default 50) (default 0) is_empty_array
      (λ a, a) (λ _ a, a) (λ a _, a) (λ _ ds, ds)
      (collection (updateRunningAsyncTaskToPending recorder "default" "Running" "Pending"
                     three).2)
      {| p_status := Some "Running"; asyncTaskIDs := None |} single_record None []
    = (Return r, k') ∧ count r = 0.
Proof.
  apply (no_running_task_is_reported recorder 500 "default" (default 50) (default 0)
           is_empty_array (λ a, a) (λ _ a, a) (λ a _, a) (λ _ ds, ds)
           "Running" "Pending" three single_record None []).
  - lia.
  - intros a k. reflexivity.
  - discriminate.
  - discriminate.
  - reflexivity.
Defined.

Lemma getAsyncTasks_result_is_limited_witness :
  ∃ r k',
    getAsyncTasks recorder 500 "default" (default 50) (default 0) is_empty_array
      (λ a, a) (λ _ a, a) (λ a _, a) (λ _ ds, ds) three_tasks
      {| p_status := Some "Pending"; asyncTaskIDs := None |} single_record None []
    = (Return r, k') ∧
    (Z.of_nat (length (result r)) ≤ 1)%Z.
Proof.
  destruct (getAsyncTasks_result_is_limited recorder 500 "default" (default 50) (default 0)
              is_empty_array (λ a, a) (λ _ a, a) (λ a _, a) (λ _ ds, ds) three_tasks
              {| p_status := Some "Pending"; asyncTaskIDs := None |} single_record None [])
    as (r & k' & Hrun & _ & Hlimit).
  - lia.
  - intros a k. reflexivity.
  - reflexivity.
  - intros a docs. lia.
  - intros tenant a docs. lia.
  - intros a fields docs. lia.
  - exists r, k'. split; [exact Hrun|]. apply Hlimit. cbn. lia.
Defined.

End AsyncTaskStorage.

(** ** [JsonWSConnection] *)

(** The [ws] socket as the connection uses it. *)
Module WebSocket.
Inductive ReadyState := CONNECTING | OPEN | CLOSING | CLOSED.

#[global] Instance ReadyState_eq_dec : EqDecision ReadyState.
Proof. solve_decision. Defined.

Inductive Event := ping | pong.

(** Modelled from the spec: the frames of the wire protocol (section 3,
    Frame); the encoding to text is not in these files. *)
Inductive Frame :=
| Request (correlationID action payload : string)
| Result (correlationID payload : string)
| Error (correlationID : string) (errorCode : OCPPErrorType) (errorDescription details : string).

Record t := {
  protocol : string;
  readyState : ReadyState;
  (** events the connection has subscribed to with [on] *)
  listeners : list Event;
  (** frames written to the socket, oldest first *)
  sent : list Frame;
}.
End WebSocket.

(** Modelled from the spec: the state that [WSConnection], the superclass
    of [JsonWSConnection], keeps (section 3, Connection and PendingCall):
    the transport, the identity taken from the handshake, the initialized
    flag and the outstanding outbound calls by correlation id. *)
Module WSConnection.
Record PendingCall := {
  issuedAt : Z;
  deadline : Z;
}.

Record t := {
  (** which object this is *)
  objectID : nat;
  wsConnection : WebSocket.t;
  tenantID : string;
  chargingStationID : string;
  token : string;
  clientIP : string;
  url : string;
  initialized : bool;
  requests : gmap string PendingCall;
}.

Definition set_initialized (b : bool) (c : t) : t :=
  {| objectID := objectID c; wsConnection := wsConnection c; tenantID := tenantID c;
     chargingStationID := chargingStationID c; token := token c; clientIP := clientIP c;
     url := url c; initialized := b; requests := requests c |}.

Definition set_wsConnection (ws : WebSocket.t) (c : t) : t :=
  {| objectID := objectID c; wsConnection := ws; tenantID := tenantID c;
     chargingStationID := chargingStationID c; token := token c; clientIP := clientIP c;
     url := url c; initialized := initialized c; requests := requests c |}.

Definition set_requests (r : gmap string PendingCall) (c : t) : t :=
  {| objectID := objectID c; wsConnection := wsConnection c; tenantID := tenantID c;
     chargingStationID := chargingStationID c; token := token c; clientIP := clientIP c;
     url := url c; initialized := initialized c; requests := r |}.
End WSConnection.

Module OCPPProtocol.
Inductive t := JSON | SOAP.
End OCPPProtocol.

Module OCPPMessageType.
Inductive t :=
| CALL_MESSAGE
| CALL_RESULT_MESSAGE
| CALL_ERROR_MESSAGE.
End OCPPMessageType.

Module OCPPHeader.
Record t := {
  chargeBoxIdentity : string;
  ocppVersion : string;
  ocppProtocol : OCPPProtocol.t;
  chargingStationURL : option string;
  tenantID : string;
  token : string;
  From_Address : string;
  currentIPAddress : option string;
}.

Definition set_currentIPAddress (ip : string) (h : t) : t :=
  {| chargeBoxIdentity := chargeBoxIdentity h; ocppVersion := ocppVersion h;
     ocppProtocol := ocppProtocol h; chargingStationURL := chargingStationURL h;
     tenantID := tenantID h; token := token h; From_Address := From_Address h;
     currentIPAddress := Some ip |}.
End OCPPHeader.

Module JsonWSConnection.

Definition MODULE_NAME : string := "JsonWSConnection".

(** A charging station document, as far as this file reads and writes it. *)
Record ChargingStation := {
  issuer : bool;
  lastSeen : Z;
}.

(** Stations by (tenant id, station id). *)
Abbreviation Stations := (gmap (string * string) ChargingStation).

(** A method of the station service: it gets the headers and the payload,
    may read and write the stations, and returns a result or throws. *)
Inductive Completion :=
| Responded (result : string)
| Failed (e : Exn).

Definition Handler : Type := option OCPPHeader.t → string → Stations → Completion * Stations.

(** A property of a JavaScript object: [typeof] tells functions from the
    rest. *)
Inductive JSValue :=
| JSFunction (f : Handler)
| JSData (v : string).

(** An object as the table of its properties, inherited ones included. *)
Abbreviation JSObject := (gmap string JSValue).

Record JsonChargingStationClient := {
  client_connection : nat;
  client_tenantID : string;
  client_chargingStationID : string;
}.

Record t := {
  base : WSConnection.t;
  isConnectionAlive : bool;
  chargingStationClient : JsonChargingStationClient;
  chargingStationService : JSObject;
  headers : option OCPPHeader.t;
}.

Definition set_base (b : WSConnection.t) (c : t) : t :=
  {| base := b; isConnectionAlive := isConnectionAlive c;
     chargingStationClient := chargingStationClient c;
     chargingStationService := chargingStationService c; headers := headers c |}.

Definition set_isConnectionAlive (b : bool) (c : t) : t :=
  {| base := base c; isConnectionAlive := b;
     chargingStationClient := chargingStationClient c;
     chargingStationService := chargingStationService c; headers := headers c |}.

Definition set_headers (h : option OCPPHeader.t) (c : t) : t :=
  {| base := base c; isConnectionAlive := isConnectionAlive c;
     chargingStationClient := chargingStationClient c;
     chargingStationService := chargingStationService c; headers := h |}.

(** The getters inherited from [WSConnection]. *)
Definition getWSConnection (c : t) : WebSocket.t := WSConnection.wsConnection (base c).
Definition getTenantID (c : t) : string := WSConnection.tenantID (base c).
Definition getChargingStationID (c : t) : string := WSConnection.chargingStationID (base c).
Definition getToken (c : t) : string := WSConnection.token (base c).
Definition getClientIP (c : t) : string := WSConnection.clientIP (base c).
Definition getURL (c : t) : string := WSConnection.url (base c).

(** What lies outside the connection object. *)
Record World := {
  (** what the logging collaborator holds *)
  audit : Sink;
  (** [ChargingStationStorage] *)
  stations : Stations;
  (** the clock read by [new Date()] *)
  now : Z;
  (** the table of [JsonCentralSystemServer]: which connection object is
      current for a (tenant id, station id) *)
  jsonConnections : gmap (string * string) nat;
}.

Definition set_audit (k : Sink) (w : World) : World :=
  {| audit := k; stations := stations w; now := now w; jsonConnections := jsonConnections w |}.
Definition set_stations (st : Stations) (w : World) : World :=
  {| audit := audit w; stations := st; now := now w; jsonConnections := jsonConnections w |}.
Definition set_jsonConnections (tb : gmap (string * string) nat) (w : World) : World :=
  {| audit := audit w; stations := stations w; now := now w; jsonConnections := tb |}.

Record State := {
  this : t;
  world : World;
}.

Definition on_this (f : t → t) (s : State) : State := {| this := f (this s); world := world s |}.
Definition on_world (f : World → World) (s : State) : State :=
  {| this := this s; world := f (world s) |}.

#[global] Instance State_HasSink : HasSink State :=
  {| sink := λ s, audit (world s); with_sink := λ k, on_world (set_audit k) |}.

(** Modelled from the spec: [ChargingStationStorage] is not in these files.
    Section 6, the persistence collaborator: a call is answered with ok or
    with an Error, and like any promise the answer may stay pending.  How a
    given call is answered is the collaborator's business. *)
Inductive StorageCall :=
| GetChargingStation (tenantID id : string) (withIssuer : bool)
| SaveChargingStationLastSeen (tenantID id : string) (lastSeen : Z).

(** Modelled from the spec: how the persistence collaborator answers a call
    (section 6, ok | Error), or that it has not answered. *)
Inductive Answer :=
| StorageOk
| StorageError (e : Exn)
| StoragePending.

(** Modelled from the spec: the persistence collaborator as the connection
    meets it (section 6): for each call, given what is stored, its answer. *)
Record Storage := {
  answer : StorageCall → Stations → Answer;
}.

(** [Configuration.getJsonEndpointConfig()] *)
Record JsonEndpointConfig := {
  baseSecureUrl : option string;
  baseUrl : option string;
}.

Section Connection.
(** [WSServerProtocol.OCPP16] *)
Context (OCPP16 : string).
(** The object that [new JsonChargingStationService()] yields. *)
Context (new_JsonChargingStationService : JSObject).
Context (jsonEndpointConfig : JsonEndpointConfig).
(** [WSConnection.getConnectionStatusString] *)
Context (getConnectionStatusString : t → string).
(** [Utils.getWebSocketCloseEventStatusString(Utils.convertToInt(closeEvent))]
    and [closeEvent.toString()] *)
Context (getWebSocketCloseEventStatusString closeEvent_toString : CloseEvent → string).
(** [WSConnection.initialize], called as [super.initialize()] *)
Context (super_initialize : Async State unit).
(** [ChargingStationStorage] *)
Context (storage : Storage).

Section Logged.
Context (logging : Logging).

(** [constructor]: [super] is the object as the call of the superclass
    constructor leaves it.  A constructor that throws yields no object. *)
Definition constructor (super : WSConnection.t) : Exn + t :=
  let wsConnection := WSConnection.wsConnection super in
  if bool_decide (WebSocket.protocol wsConnection = OCPP16) then
    let chargingStationClient :=
      {| client_connection := WSConnection.objectID super;
         client_tenantID := WSConnection.tenantID super;
         client_chargingStationID := WSConnection.chargingStationID super |} in
    let chargingStationService := new_JsonChargingStationService in
    let isConnectionAlive := true in
    let wsConnection :=
      {| WebSocket.protocol := WebSocket.protocol wsConnection;
         WebSocket.readyState := WebSocket.readyState wsConnection;
         WebSocket.listeners :=
           WebSocket.listeners wsConnection ++ [WebSocket.ping; WebSocket.pong];
         WebSocket.sent := WebSocket.sent wsConnection |} in
    inr {| base := WSConnection.set_wsConnection wsConnection super;
           isConnectionAlive := isConnectionAlive;
           chargingStationClient := chargingStationClient;
           chargingStationService := chargingStationService;
           headers := None |}
  else
    inl (BackendError (WSConnection.chargingStationID super) MODULE_NAME "constructor"
           ("Protocol " +:+ WebSocket.protocol wsConnection +:+ " not supported")).

Definition initialize : Async State unit :=
  initialized <- gets (λ s, WSConnection.initialized (base (this s)));;
  if negb initialized then
    super_initialize;;
    c <- gets this;;
    let protocol := WebSocket.protocol (getWSConnection c) in
    modify (on_this (set_headers (Some
      {| OCPPHeader.chargeBoxIdentity := getChargingStationID c;
         OCPPHeader.ocppVersion :=
           if JS.startsWith "ocpp" protocol then JS.replace "ocpp" "" protocol else protocol;
         OCPPHeader.ocppProtocol := OCPPProtocol.JSON;
         OCPPHeader.chargingStationURL :=
           if JS.truthy_opt (baseSecureUrl jsonEndpointConfig)
           then baseSecureUrl jsonEndpointConfig
           else baseUrl jsonEndpointConfig;
         OCPPHeader.tenantID := getTenantID c;
         OCPPHeader.token := getToken c;
         OCPPHeader.From_Address := getClientIP c;
         OCPPHeader.currentIPAddress := None |})));;
    modify (on_this (λ c, set_base (WSConnection.set_initialized true (base c)) c));;
    p <- call logging
           (Log LOG_INFO
              {| log_tenantID := getTenantID c;
                 log_source := Some (getChargingStationID c);
                 log_action := ServerAction.WS_JSON_CONNECTION_OPENED;
                 log_module := MODULE_NAME;
                 log_method := "initialize";
                 log_message :=
                   "New Json connection from '" +:+ getClientIP c +:+ "', Protocol '" +:+
                   protocol +:+ "', URL '" +:+ getURL c +:+ "'";
                 log_detailedMessages := None |});;
    await p
  else ret tt.

Definition onError (errorEvent : option ErrorEvent) : Async State unit :=
  c <- gets this;;
  p <- call logging
         (Log LOG_ERROR
            {| log_tenantID := getTenantID c;
               log_source :=
                 Some (if JS.truthy (getChargingStationID c)
                       then getChargingStationID c else "");
               log_action := ServerAction.WS_JSON_CONNECTION_ERROR;
               log_module := MODULE_NAME;
               log_method := "onError";
               log_message :=
                 "Error " +:+ from_option error "undefined" errorEvent +:+ " " +:+
                 from_option message "undefined" errorEvent;
               log_detailedMessages := Some (DetailError errorEvent) |});;
  void p.

(** Modelled from the spec: [JsonCentralSystemServer.removeJsonConnection]
    is not in these files.  Section 4.5, remove: the table entry is removed
    only if it still points at that exact connection instance. *)
Definition removeJsonConnection (c : t) : Async State unit :=
  modify (on_world (λ w,
    let key := (getTenantID c, getChargingStationID c) in
    match jsonConnections w !! key with
    | Some o =>
        if bool_decide (o = WSConnection.objectID (base c))
        then set_jsonConnections (delete key (jsonConnections w)) w
        else w
    | None => w
    end)).

Definition onClose (closeEvent : CloseEvent) : Async State unit :=
  c <- gets this;;
  p <- call logging
         (Log LOG_INFO
            {| log_tenantID := getTenantID c;
               log_source :=
                 Some (if JS.truthy (getChargingStationID c)
                       then getChargingStationID c else "");
               log_action := ServerAction.WS_JSON_CONNECTION_CLOSED;
               log_module := MODULE_NAME;
               log_method := "onClose";
               log_message :=
                 "Connection has been closed, Reason: '" +:+
                 (if JS.truthy (reason closeEvent) then reason closeEvent
                  else "No reason given") +:+
                 "', Message: '" +:+ getWebSocketCloseEventStatusString closeEvent +:+
                 "', Code: '" +:+ closeEvent_toString closeEvent +:+ "'";
               log_detailedMessages := Some (DetailClose closeEvent) |});;
  void p;;
  removeJsonConnection c.

(** Modelled from the spec: awaiting a call of the persistence collaborator
    (section 6): it goes on when the answer is ok, throws the Error, and
    does not return while the answer is pending. *)
Definition storage_call (c : StorageCall) : Async State unit :=
  λ s, match answer storage c (stations (world s)) with
       | StorageOk => (Return tt, s)
       | StorageError e => (Throw e, s)
       | StoragePending => (Blocked, s)
       end.

(** Modelled from the spec: [ChargingStationStorage.getChargingStation]
    (section 6): when the call is answered, the station is looked up by
    tenant and id, here with the [issuer] filter the caller passes. *)
Definition getChargingStation (tenantID id : string) (withIssuer : bool)
    : Async State (option ChargingStation) :=
  storage_call (GetChargingStation tenantID id withIssuer);;
  gets (λ s, match stations (world s) !! (tenantID, id) with
             | Some cs => if bool_decide (issuer cs = withIssuer) then Some cs else None
             | None => None
             end).

(** Modelled from the spec: [ChargingStationStorage.saveChargingStationLastSeen]
    (section 6, updateLastSeen): when the call is answered with ok, the
    last-seen timestamp of the station is overwritten. *)
Definition saveChargingStationLastSeen (tenantID id : string) (lastSeen' : Z)
    : Async State unit :=
  storage_call (SaveChargingStationLastSeen tenantID id lastSeen');;
  modify (on_world (λ w,
    set_stations
      (alter (λ cs, {| issuer := issuer cs; lastSeen := lastSeen' |}) (tenantID, id)
         (stations w)) w)).

Definition updateChargingStationLastSeen : Async State unit :=
  c <- gets this;;
  chargingStation <- getChargingStation (getTenantID c) (getChargingStationID c) true;;
  match chargingStation with
  | Some _ =>
      date <- gets (λ s, now (world s));;
      saveChargingStationLastSeen (getTenantID c) (getChargingStationID c) date
  | None => ret tt
  end.

Definition onPing : Async State unit :=
  updateChargingStationLastSeen.

Definition onPong : Async State unit :=
  modify (on_this (set_isConnectionAlive true));;
  updateChargingStationLastSeen.

(** [typeof service[methodName] === 'function'], and the function then. *)
Definition method_of (service : JSObject) (methodName : string) : option Handler :=
  match service !! methodName with
  | Some (JSFunction f) => Some f
  | _ => None
  end.

(** Calling a method of the service and awaiting it. *)
Definition invoke (f : Handler) (h : option OCPPHeader.t) (payload : string)
    : Async State string :=
  λ s, let '(r, st) := f h payload (stations (world s)) in
       (match r with
        | Responded v => Return v
        | Failed e => Throw e
        end, on_world (set_stations st) s).

(** Modelled from the spec: writing a frame to the socket, the last step of
    the superclass's [sendMessage] (section 4.2). *)
Definition send (f : WebSocket.Frame) : Async State unit :=
  modify (on_this (λ c,
    let ws := getWSConnection c in
    set_base (WSConnection.set_wsConnection
                {| WebSocket.protocol := WebSocket.protocol ws;
                   WebSocket.readyState := WebSocket.readyState ws;
                   WebSocket.listeners := WebSocket.listeners ws;
                   WebSocket.sent := WebSocket.sent ws ++ [f] |} (base c)) c)).

(** Modelled from the spec: [WSConnection.sendMessage] is not in these
    files.  Sections 4.1 and 6: a request goes out as
    [[2, correlationID, action, payload]], a result as
    [[3, correlationID, payload]], an error as
    [[4, correlationID, errorCode, errorDescription, details]]. *)
Definition sendMessage (messageId data : string) (messageType : OCPPMessageType.t)
    (commandName : string) : Async State unit :=
  match messageType with
  | OCPPMessageType.CALL_MESSAGE => send (WebSocket.Request messageId commandName data)
  | OCPPMessageType.CALL_RESULT_MESSAGE => send (WebSocket.Result messageId data)
  | OCPPMessageType.CALL_ERROR_MESSAGE =>
      send (WebSocket.Error messageId GENERIC_ERROR data "{}")
  end.

Definition handleRequest (messageId commandName commandPayload : string)
    : Async State unit :=
  c <- gets this;;
  p <- call logging
         (ReceiveAction MODULE_NAME (getTenantID c) (getChargingStationID c)
            commandName commandPayload);;
  await p;;
  let methodName := "handle" +:+ commandName in
  match method_of (chargingStationService c) methodName with
  | Some method =>
      (if bool_decide (commandName = "BootNotification") ||
          bool_decide (commandName = "Heartbeat")
       then
         match headers c with
         | Some h =>
             modify (on_this (set_headers
                       (Some (OCPPHeader.set_currentIPAddress (getClientIP c) h))))
         | None =>
             throw (TypeError
                      "Cannot set properties of undefined (setting 'currentIPAddress')")
         end
       else ret tt);;
      h <- gets (λ s, headers (this s));;
      result <- invoke method h commandPayload;;
      p <- call logging
             (RespondAction MODULE_NAME (getTenantID c) (getChargingStationID c)
                commandName result);;
      await p;;
      sendMessage messageId result OCPPMessageType.CALL_RESULT_MESSAGE commandName
  | None =>
      throw (OCPPError (getChargingStationID c) MODULE_NAME "handleRequest"
               NOT_IMPLEMENTED
               ("The OCPP method 'handle" +:+ commandName +:+ "' has not been implemented"))
  end.

(** Modelled from the spec: [WSConnection.isWSConnectionOpen] is not in
    these files; the connection is open when its transport is. *)
Definition isWSConnectionOpen (c : t) : bool :=
  bool_decide (WebSocket.readyState (getWSConnection c) = WebSocket.OPEN).

Definition getChargingStationClient : Async State (option JsonChargingStationClient) :=
  c <- gets this;;
  if isWSConnectionOpen c then ret (Some (chargingStationClient c))
  else
    p <- call logging
           (Log LOG_ERROR
              {| log_tenantID := getTenantID c;
                 log_source := Some (getChargingStationID c);
                 log_action := ServerAction.WS_CONNECTION;
                 log_module := MODULE_NAME;
                 log_method := "getChargingStationClient";
                 log_message :=
                   "Cannot retrieve WS client from WS connection with status '" +:+
                   getConnectionStatusString c +:+ "'";
                 log_detailedMessages := None |});;
    void p;;
    ret None.

(** Modelled from the spec: the superclass's [onMessage] and the sending of
    errors are not in these files.  Section 4.2, onFrameReceived: a request
    is forwarded to the dispatcher and the result or error it produces is
    sent back with the same correlation id; a result or error settles the
    pending call of that id.  Section 7: a failure goes out as an error
    frame, with the code of the failure when it has one. *)
Definition error_code (e : Exn) : OCPPErrorType :=
  match e with
  | OCPPError _ _ _ code _ => code
  | HandlerFailure code _ => code
  | _ => INTERNAL_ERROR
  end.

(** Modelled from the spec: the description an error frame carries
    (section 7). *)
Definition error_description (e : Exn) : string :=
  match e with
  | BackendError _ _ _ message => message
  | OCPPError _ _ _ _ message => message
  | TypeError message => message
  | HandlerFailure _ message => message
  | LoggingFailure reason => reason
  end.

(** Modelled from the spec: a failure is sent as an error frame with the
    correlation id of the request (sections 4.3 and 7). *)
Definition sendError (messageId : string) (e : Exn) : Async State unit :=
  send (WebSocket.Error messageId (error_code e) (error_description e) "{}").

(** Modelled from the spec: a result or error frame removes the pending
    call of its correlation id (section 4.4). *)
Definition settle (correlationID : string) : Async State unit :=
  modify (on_this (λ c,
    set_base (WSConnection.set_requests
                (delete correlationID (WSConnection.requests (base c))) (base c)) c)).

(** Modelled from the spec: [WSConnection.onMessage] on a decoded frame
    (section 4.2, onFrameReceived). *)
Definition onMessage (frame : WebSocket.Frame) : Async State unit :=
  match frame with
  | WebSocket.Request correlationID action payload =>
      try_catch (handleRequest correlationID action payload) (sendError correlationID)
  | WebSocket.Result correlationID _ => settle correlationID
  | WebSocket.Error correlationID _ _ _ => settle correlationID
  end.

(** Modelled from the spec: the acceptance of a new link by
    [JsonCentralSystemServer] is not in these files.  Section 4.5, accept:
    a link whose connection cannot be built is refused, its transport
    closed, and it never enters the table; otherwise the connection becomes
    the current one of its (tenant, station). *)
Inductive Acceptance :=
| Accepted (c : t)
| Refused (e : Exn) (transport : WebSocket.t).

(** Modelled from the spec: closing a transport (section 4.5). *)
Definition close (ws : WebSocket.t) : WebSocket.t :=
  {| WebSocket.protocol := WebSocket.protocol ws;
     WebSocket.readyState := WebSocket.CLOSED;
     WebSocket.listeners := WebSocket.listeners ws;
     WebSocket.sent := WebSocket.sent ws |}.

(** Modelled from the spec: [accept] of section 4.5, with the constructor
    of the source as the building of the connection. *)
Definition accept (super : WSConnection.t) (w : World) : Acceptance * World :=
  match constructor super with
  | inl e => (Refused e (close (WSConnection.wsConnection super)), w)
  | inr c =>
      (Accepted c,
       set_jsonConnections
         (<[(getTenantID c, getChargingStationID c) := WSConnection.objectID (base c)]>
            (jsonConnections w)) w)
  end.

End Logged.

(** *** The methods a request can reach

    The station service is an object; [handleRequest] takes as the handler
    of an action the function-valued property named ["handle"] followed by
    the action.  [reachable] is the table of those properties, by action. *)
Definition handler_entry (entry : string * JSValue) : option (string * Handler) :=
  match entry with
  | (methodName, JSFunction f) =>
      match JS.strip_prefix "handle" methodName with
      | Some action => Some (action, f)
      | None => None
      end
  | (_, JSData _) => None
  end.

Definition reachable (service : JSObject) : gmap string Handler :=
  list_to_map (omap handler_entry (map_to_list service)).

(** As the spec words it (sections 4.3 and 9): the handlers are registered
    at startup in a mapping from action identifiers to handler functions,
    and the handler of an action is found by a presence check in that
    mapping; a miss is NotImplemented. *)
Definition resolve_registered (handlers : gmap string Handler) (action : string)
    : option Handler :=
  handlers !! action.

(** *** Properties *)

Lemma strip_prefix_app (p a : string) : JS.strip_prefix p (p +:+ a) = Some a.
Proof.
  induction p as [|ch p IH]; [reflexivity|].
  change (String ch p +:+ a) with (String ch (p +:+ a)).
  cbn [JS.strip_prefix]. by rewrite bool_decide_eq_true_2.
Qed.

Lemma strip_prefix_Some (p s a : string) : JS.strip_prefix p s = Some a → s = p +:+ a.
Proof.
  revert s. induction p as [|ch p IH]; intros s; cbn [JS.strip_prefix].
  - by intros [= ->].
  - destruct s as [|ch' s]; [done|].
    case_bool_decide; [|done]. intros ->%IH. by subst.
Qed.

Lemma handler_entry_Some (methodName : string) (v : JSValue) (action : string) (f : Handler) :
  handler_entry (methodName, v) = Some (action, f) ↔
  methodName = "handle" +:+ action ∧ v = JSFunction f.
Proof.
  unfold handler_entry. split.
  - destruct v as [g|]; [|done].
    destruct (JS.strip_prefix "handle" methodName) as [a|] eqn:Hs; [|done].
    intros [= -> ->]. by apply strip_prefix_Some in Hs.
  - intros [-> ->]. by rewrite strip_prefix_app.
Qed.

(** The property access with its [typeof] test finds what [reachable]
    holds. *)
Lemma method_of_reachable (service : JSObject) (action : string) :
  method_of service ("handle" +:+ action) = reachable service !! action.
Proof.
  unfold method_of, reachable.
  destruct (list_to_map _ !! action) as [g|] eqn:Hreg.
  - apply elem_of_list_to_map_2, list_elem_of_omap in Hreg as ([k v] & Hin & Hk).
    apply handler_entry_Some in Hk as [-> ->].
    apply elem_of_map_to_list in Hin. by rewrite Hin.
  - apply not_elem_of_list_to_map_2 in Hreg.
    destruct (service !! _) as [[f|]|] eqn:Hprop; [|done..].
    exfalso. apply Hreg. apply list_elem_of_fmap. exists (action, f). split; [done|].
    apply list_elem_of_omap. exists ("handle" +:+ action, JSFunction f). split.
    + by apply elem_of_map_to_list.
    + by apply handler_entry_Some.
Qed.

Definition not_implemented (c : t) (commandName : string) : Exn :=
  OCPPError (getChargingStationID c) MODULE_NAME "handleRequest" NOT_IMPLEMENTED
    ("The OCPP method 'handle" +:+ commandName +:+ "' has not been implemented").

(** The state once the logging collaborator has been handed [a]. *)
Definition logged (logging : Logging) (a : Audit) (s : State) : State :=
  with_sink (emit logging a (sink s)).2 s.

Definition received (s : State) (commandName commandPayload : string) : Audit :=
  ReceiveAction MODULE_NAME (getTenantID (this s)) (getChargingStationID (this s))
    commandName commandPayload.

(** How [await] on a promise ends when [o] is what follows it. *)
Definition after {A} (p : Settle) (o : Outcome A) : Outcome A :=
  match p with
  | Resolved => o
  | Rejected reason => Throw (LoggingFailure reason)
  | NeverSettles => Blocked
  end.

Lemma handleRequest_miss_run logging (s : State)
    (messageId commandName commandPayload : string) :
  method_of (chargingStationService (this s)) ("handle" +:+ commandName) = None →
  handleRequest logging messageId commandName commandPayload s =
  (after (emit logging (received s commandName commandPayload) (sink s)).1
     (Throw (not_implemented (this s) commandName)),
   logged logging (received s commandName commandPayload) s).
Proof.
  intros Hmiss. unfold handleRequest, received, logged. rewrite bind_gets.
  unfold bind at 1, call at 1.
  destruct (emit logging _ _) as [[|reason|] k]; cbn; [|done..].
  by rewrite Hmiss.
Qed.

Lemma handleRequest_miss logging (s : State) (messageId commandName commandPayload : string) :
  resolves logging →
  method_of (chargingStationService (this s)) ("handle" +:+ commandName) = None →
  handleRequest logging messageId commandName commandPayload s =
  (Throw (not_implemented (this s) commandName),
   logged logging (received s commandName commandPayload) s).
Proof.
  intros Hlog Hmiss. rewrite handleRequest_miss_run by done. by rewrite Hlog.
Qed.

(** C1, as the code has it: a request whose action has no handler in the
    station service makes [handleRequest] fail with the error code
    [NOT_IMPLEMENTED], the same for every action and state, once the
    awaited record of the received action has resolved; the failure then
    goes to the station as an error frame with the correlation id of the
    request, the only frame written.  The record is awaited before the
    handler is looked up: when its promise rejects, [handleRequest] fails
    with that rejection instead, and while it is pending the handling does
    not return and no frame is written. *)
Theorem unhandled_request_answered_once_logged logging (s : State)
    (messageId commandName commandPayload : string) :
  method_of (chargingStationService (this s)) ("handle" +:+ commandName) = None →
  let e := not_implemented (this s) commandName in
  let s1 := logged logging (received s commandName commandPayload) s in
  let request := WebSocket.Request messageId commandName commandPayload in
  error_code e = NOT_IMPLEMENTED ∧
  match (emit logging (received s commandName commandPayload) (sink s)).1 with
  | Resolved =>
      handleRequest logging messageId commandName commandPayload s = (Throw e, s1) ∧
      ∃ s2, onMessage logging request s = (Return tt, s2) ∧
            WebSocket.sent (getWSConnection (this s2)) =
              WebSocket.sent (getWSConnection (this s)) ++
              [WebSocket.Error messageId NOT_IMPLEMENTED (error_description e) "{}"]
  | Rejected reason =>
      handleRequest logging messageId commandName commandPayload s =
        (Throw (LoggingFailure reason), s1)
  | NeverSettles =>
      handleRequest logging messageId commandName commandPayload s = (Blocked, s1) ∧
      onMessage logging request s = (Blocked, s1) ∧
      WebSocket.sent (getWSConnection (this s1)) = WebSocket.sent (getWSConnection (this s))
  end.
Proof.
  intros Hmiss e s1 request. split; [reflexivity|].
  pose proof (handleRequest_miss_run logging s messageId commandName commandPayload Hmiss)
    as Hrun.
  subst request. unfold onMessage, try_catch. rewrite Hrun. fold s1.
  destruct (emit logging _ _).1 as [|reason|]; cbn [after].
  - split; [done|]. eexists. split; [reflexivity|]. reflexivity.
  - done.
  - by split_and!.
Qed.

(** What the protocol sees of a state: all of it but what the logging
    collaborator holds. *)
Definition view (s : State) : t * Stations * Z * gmap (string * string) nat :=
  (this s, stations (world s), now (world s), jsonConnections (world s)).

Definition observe {A} (r : Outcome A * State)
    : Outcome A * (t * Stations * Z * gmap (string * string) nat) :=
  (r.1, view r.2).

Lemma view_logged logging (a : Audit) (s : State) : view (logged logging a s) = view s.
Proof. reflexivity. Qed.

(** C2: a link whose negotiated subprotocol is not the recognized one
    cannot be built into a connection: the constructor throws the
    "protocol not supported" error and yields no object, so the link is
    refused with its transport closed, the table of connections is as it
    was, and nothing has been written to or subscribed on the socket. *)
Theorem unsupported_protocol_is_refused (super : WSConnection.t) (w : World) :
  WebSocket.protocol (WSConnection.wsConnection super) ≠ OCPP16 →
  ∃ e ws,
    e = BackendError (WSConnection.chargingStationID super) MODULE_NAME "constructor"
          ("Protocol " +:+ WebSocket.protocol (WSConnection.wsConnection super) +:+
           " not supported") ∧
    constructor super = inl e ∧
    accept super w = (Refused e ws, w) ∧
    WebSocket.readyState ws = WebSocket.CLOSED ∧
    WebSocket.sent ws = WebSocket.sent (WSConnection.wsConnection super) ∧
    WebSocket.listeners ws = WebSocket.listeners (WSConnection.wsConnection super).
Proof.
  intros Hproto. eexists _, _. split; [reflexivity|].
  assert (constructor super = inl (BackendError (WSConnection.chargingStationID super)
            MODULE_NAME "constructor"
            ("Protocol " +:+ WebSocket.protocol (WSConnection.wsConnection super) +:+
             " not supported"))) as Hthrow.
  { unfold constructor. by rewrite bool_decide_eq_false_2. }
  split; [exact Hthrow|]. unfold accept. rewrite Hthrow. by repeat split.
Qed.

Definition no_client_record (getConnectionStatusString : t → string) (c : t) : Audit :=
  Log LOG_ERROR
    {| log_tenantID := getTenantID c;
       log_source := Some (getChargingStationID c);
       log_action := ServerAction.WS_CONNECTION;
       log_module := MODULE_NAME;
       log_method := "getChargingStationClient";
       log_message :=
         "Cannot retrieve WS client from WS connection with status '" +:+
         getConnectionStatusString c +:+ "'";
       log_detailedMessages := None |}.

Lemma getChargingStationClient_run logging (s : State) :
  getChargingStationClient logging s =
  if isWSConnectionOpen (this s)
  then (Return (Some (chargingStationClient (this s))), s)
  else (Return None, logged logging (no_client_record getConnectionStatusString (this s)) s).
Proof.
  unfold getChargingStationClient. unfold bind at 1, gets at 1.
  destruct (isWSConnectionOpen (this s)); [reflexivity|]. by rewrite void_call.
Qed.

(** C4, as the code has it: the client is handed out exactly when the
    socket is open, and then nothing else happens.  With the socket not
    open the call returns null at once, whatever becomes of the promise of
    the error record it hands to the logging collaborator, the one call it
    makes to it; the connection is as it was and nothing is written to the
    socket.  The [isConnectionAlive] flag plays no part. *)
Theorem client_only_when_socket_open logging (s : State) :
  let record := no_client_record getConnectionStatusString (this s) in
  getChargingStationClient logging s =
    (if isWSConnectionOpen (this s)
     then (Return (Some (chargingStationClient (this s))), s)
     else (Return None, with_sink (emit logging record (sink s)).2 s)) ∧
  view (getChargingStationClient logging s).2 = view s ∧
  ∀ alive, (getChargingStationClient logging (on_this (set_isConnectionAlive alive) s)).1
           = (getChargingStationClient logging s).1.
Proof.
  intros record. subst record. split_and!.
  - apply getChargingStationClient_run.
  - rewrite getChargingStationClient_run. by destruct (isWSConnectionOpen (this s)).
  - intros alive. rewrite !getChargingStationClient_run.
    change (isWSConnectionOpen (this (on_this (set_isConnectionAlive alive) s)))
      with (isWSConnectionOpen (this s)).
    by destruct (isWSConnectionOpen (this s)).
Qed.

(** The record that [onClose] hands to the logging collaborator. *)
Definition closed_record (closeEvent : CloseEvent) (c : t) : Audit :=
  Log LOG_INFO
    {| log_tenantID := getTenantID c;
       log_source :=
         Some (if JS.truthy (getChargingStationID c) then getChargingStationID c else "");
       log_action := ServerAction.WS_JSON_CONNECTION_CLOSED;
       log_module := MODULE_NAME;
       log_method := "onClose";
       log_message :=
         "Connection has been closed, Reason: '" +:+
         (if JS.truthy (reason closeEvent) then reason closeEvent else "No reason given") +:+
         "', Message: '" +:+ getWebSocketCloseEventStatusString closeEvent +:+
         "', Code: '" +:+ closeEvent_toString closeEvent +:+ "'";
       log_detailedMessages := Some (DetailClose closeEvent) |}.

Lemma onClose_run logging (closeEvent : CloseEvent) (s : State) :
  onClose logging closeEvent s =
  removeJsonConnection (this s) (logged logging (closed_record closeEvent (this s)) s).
Proof.
  unfold onClose. unfold bind at 1, gets at 1. by rewrite void_call.
Qed.

(** C5, as the code has it: when the close event fires the connection hands
    the connection-closed record to the logging collaborator, the one call
    it makes to it, and goes on whatever becomes of the promise; then it
    notifies the server, which drops the table entry of the connection's
    (tenant, station) if it still points at this connection and touches no
    other entry.  The connection object itself is left as it was. *)
Theorem onClose_notifies_registry logging (closeEvent : CloseEvent) (s : State) :
  let key := (getTenantID (this s), getChargingStationID (this s)) in
  let object := WSConnection.objectID (base (this s)) in
  let record := closed_record closeEvent (this s) in
  ∃ s',
    onClose logging closeEvent s = (Return tt, s') ∧
    onClose logging closeEvent s =
      removeJsonConnection (this s) (with_sink (emit logging record (sink s)).2 s) ∧
    sink s' = (emit logging record (sink s)).2 ∧
    this s' = this s ∧
    stations (world s') = stations (world s) ∧
    jsonConnections (world s') !! key ≠ Some object ∧
    (∀ k, k ≠ key → jsonConnections (world s') !! k = jsonConnections (world s) !! k) ∧
    (jsonConnections (world s) !! key ≠ Some object →
     jsonConnections (world s') = jsonConnections (world s)).
Proof.
  intros key object record. subst record.
  rewrite (onClose_run logging closeEvent s).
  unfold removeJsonConnection, modify, logged. eexists. split; [reflexivity|].
  split; [reflexivity|].
  cbn. fold key object.
  destruct (jsonConnections (world s) !! key) as [o|] eqn:Hentry.
  - case_bool_decide as Ho; cbn.
    + subst o. split_and!; [done|done|done| |intros k Hk|congruence].
      * by rewrite lookup_delete_eq.
      * by rewrite lookup_delete_ne.
    + split_and!; [done|done|done| |done|done]. intros Heq. apply Ho.
      rewrite Heq in Hentry. by injection Hentry.
  - cbn. split_and!; [done|done|done| |done|done]. intros Heq. by rewrite Heq in Hentry.
Qed.

(** The two identity-bearing actions. *)
Definition identity_bearing (commandName : string) : bool :=
  bool_decide (commandName = "BootNotification") || bool_decide (commandName = "Heartbeat").

Definition responded (s : State) (commandName result : string) : Audit :=
  RespondAction MODULE_NAME (getTenantID (this s)) (getChargingStationID (this s))
    commandName result.

(** The headers the handler of [commandName] is given. *)
Definition headers_for (commandName : string) (c : t) (h : OCPPHeader.t) : OCPPHeader.t :=
  if identity_bearing commandName
  then OCPPHeader.set_currentIPAddress (getClientIP c) h else h.

Lemma handleRequest_hit logging (s : State) (messageId commandName commandPayload : string)
    (method : Handler) (h0 : OCPPHeader.t) :
  resolves logging →
  method_of (chargingStationService (this s)) ("handle" +:+ commandName) = Some method →
  headers (this s) = Some h0 →
  let h := headers_for commandName (this s) h0 in
  let ran := method (Some h) commandPayload (stations (world s)) in
  ∃ s',
    handleRequest logging messageId commandName commandPayload s =
      (match ran.1 with
       | Responded _ => Return tt
       | Failed e => Throw e
       end, s') ∧
    headers (this s') = Some h ∧
    stations (world s') = ran.2 ∧
    now (world s') = now (world s) ∧
    jsonConnections (world s') = jsonConnections (world s) ∧
    WebSocket.sent (getWSConnection (this s')) =
      WebSocket.sent (getWSConnection (this s)) ++
      match ran.1 with
      | Responded result => [WebSocket.Result messageId result]
      | Failed _ => []
      end.
Proof.
  intros Hlog Hhit Hh h ran. unfold handleRequest.
  unfold bind at 1, gets at 1. rewrite await_call_resolves by done.
  rewrite Hhit, Hh. fold (identity_bearing commandName).
  subst ran h. unfold headers_for.
  destruct (identity_bearing commandName).
  - unfold bind at 1, modify at 1. unfold bind at 1, gets at 1.
    unfold bind at 1, invoke at 1. cbn.
    destruct (method _ _ _) as [[result|e] st]; cbn.
    + rewrite await_call_resolves by done. eexists. split; [reflexivity|].
      cbn. by split_and!.
    + eexists. split; [reflexivity|]. cbn. split_and!; try done. by rewrite app_nil_r.
  - unfold bind at 1, ret at 1. unfold bind at 1, gets at 1.
    unfold bind at 1, invoke at 1. cbn. rewrite Hh.
    destruct (method _ _ _) as [[result|e] st]; cbn.
    + rewrite await_call_resolves by done. eexists. split; [reflexivity|].
      cbn. by split_and!.
    + eexists. split; [reflexivity|]. cbn. split_and!; try done. by rewrite app_nil_r.
Qed.

Lemma bind_invoke {B} (f : Handler) (h : option OCPPHeader.t) (payload : string)
    (k : string → Async State B) (s : State) :
  bind (invoke f h payload) k s =
  match (f h payload (stations (world s))).1 with
  | Responded v => k v (on_world (set_stations (f h payload (stations (world s))).2) s)
  | Failed e => (Throw e, on_world (set_stations (f h payload (stations (world s))).2) s)
  end.
Proof.
  unfold bind, invoke. by destruct (f h payload (stations (world s))) as [[v|e] st].
Qed.

(** A function-valued property named after the action is called once the
    first record has resolved. *)
Lemma handleRequest_calls_property logging (s : State)
    (messageId commandName commandPayload : string) (f : Handler) (h0 : OCPPHeader.t) :
  chargingStationService (this s) !! ("handle" +:+ commandName) = Some (JSFunction f) →
  headers (this s) = Some h0 →
  (emit logging (received s commandName commandPayload) (sink s)).1 = Resolved →
  let ran := f (Some (headers_for commandName (this s) h0)) commandPayload
               (stations (world s)) in
  ∃ o s',
    handleRequest logging messageId commandName commandPayload s = (o, s') ∧
    stations (world s') = ran.2 ∧
    ∀ e, ran.1 = Failed e → o = Throw e.
Proof.
  intros Hproperty Hh Hfirst ran. subst ran.
  unfold handleRequest. rewrite bind_gets.
  unfold bind at 1, call at 1. unfold received in Hfirst.
  destruct (emit logging _ _) as [p k]. cbn in Hfirst. subst p.
  unfold bind at 1, await at 1, ret at 1.
  unfold method_of. rewrite Hproperty, Hh.
  fold (identity_bearing commandName). unfold headers_for.
  destruct (identity_bearing commandName).
  - rewrite bind_modify, bind_gets, bind_invoke. cbn.
    destruct (f _ _ _) as [[result|e] st]; cbn.
    + unfold bind, call, await, sendMessage, send, modify, ret, throw, blocked. cbn.
      destruct (emit logging _ _) as [[|reason|] k']; by eexists _, _.
    + eexists _, _. split_and!; [done..|]. by intros ? [= <-].
  - rewrite bind_ret, bind_gets, bind_invoke. cbn. rewrite Hh.
    destruct (f _ _ _) as [[result|e] st]; cbn.
    + unfold bind, call, await, sendMessage, send, modify, ret, throw, blocked. cbn.
      destruct (emit logging _ _) as [[|reason|] k']; by eexists _, _.
    + eexists _, _. split_and!; [done..|]. by intros ? [= <-].
Qed.


(** C3, as the code has it: for the two identity-bearing actions the
    dispatch puts the client's address into the headers before the handler
    is called, and for every other action it passes the headers as they
    are.  For no action does the dispatch itself update the last-seen
    timestamp: the stations after it are as the handler left them. *)
Theorem dispatch_refreshes_address_not_last_seen logging (s : State)
    (messageId commandName commandPayload : string) (method : Handler) (h0 : OCPPHeader.t) :
  resolves logging →
  method_of (chargingStationService (this s)) ("handle" +:+ commandName) = Some method →
  headers (this s) = Some h0 →
  let h := headers_for commandName (this s) h0 in
  let s' := (handleRequest logging messageId commandName commandPayload s).2 in
  (identity_bearing commandName = true →
   h = OCPPHeader.set_currentIPAddress (getClientIP (this s)) h0) ∧
  (identity_bearing commandName = false → h = h0) ∧
  headers (this s') = Some h ∧
  stations (world s') = (method (Some h) commandPayload (stations (world s))).2.
Proof.
  intros Hlog Hhit Hh h s'.
  destruct (handleRequest_hit logging s messageId commandName commandPayload method h0
              Hlog Hhit Hh) as (s1 & Hrun & Hheaders & Hstations & _).
  subst s' h. rewrite Hrun. unfold headers_for.
  split_and!; [by intros ->|by intros ->|done|done].
Qed.

Lemma bind_storage_call {B} (c : StorageCall) (k : unit → Async State B) (s : State) :
  bind (storage_call c) k s =
  match answer storage c (stations (world s)) with
  | StorageOk => k tt s
  | StorageError e => (Throw e, s)
  | StoragePending => (Blocked, s)
  end.
Proof. unfold bind, storage_call. by destruct (answer storage c _). Qed.

(** Where the last-seen timestamp is written: on ping and pong, when the
    persistence collaborator answers both calls with ok. *)
Lemma updateChargingStationLastSeen_run (s : State) (cs : ChargingStation) :
  let tenantID := getTenantID (this s) in
  let id := getChargingStationID (this s) in
  answer storage (GetChargingStation tenantID id true) (stations (world s)) = StorageOk →
  answer storage (SaveChargingStationLastSeen tenantID id (now (world s)))
    (stations (world s)) = StorageOk →
  stations (world s) !! (tenantID, id) = Some cs →
  issuer cs = true →
  ∃ s',
    updateChargingStationLastSeen s = (Return tt, s') ∧
    this s' = this s ∧
    stations (world s') !! (tenantID, id)
      = Some {| issuer := true; lastSeen := now (world s) |}.
Proof.
  intros tenantID id Hget Hsave Hcs Hissuer.
  unfold updateChargingStationLastSeen, getChargingStation, saveChargingStationLastSeen.
  rewrite bind_gets. fold tenantID id.
  rewrite bind_assoc, bind_storage_call, Hget, bind_gets, Hcs, Hissuer.
  rewrite bool_decide_eq_true_2 by done.
  rewrite bind_gets, bind_storage_call, Hsave. unfold modify.
  eexists. split; [reflexivity|]. split; [reflexivity|].
  cbn. rewrite lookup_alter_eq, Hcs. cbn. by rewrite Hissuer.
Qed.

Lemma initialize_sets_flag logging (s s' : State) :
  initialize logging s = (Return tt, s') →
  WSConnection.initialized (base (this s')) = true.
Proof.
  unfold initialize. rewrite bind_gets.
  destruct (WSConnection.initialized (base (this s))) eqn:Hinit; cbn [negb].
  - by intros [= <-].
  - unfold bind at 1. destruct (super_initialize s) as [[[]|e|] s1]; [|done..].
    autorewrite with async. unfold bind, call, await.
    destruct (emit logging _ _) as [[|r|] k]; cbn; [|done..]. by intros [= <-].
Qed.

(** C9: once [initialize] has completed on a connection, a further call
    returns at once and leaves the whole state, headers and initialized
    flag among it, as it is; so two calls in a row are one call. *)
Theorem initialize_idempotent logging (s s' : State) :
  initialize logging s = (Return tt, s') →
  initialize logging s' = (Return tt, s') ∧
  (initialize logging;; initialize logging) s = initialize logging s.
Proof.
  intros Hrun. pose proof (initialize_sets_flag _ _ _ Hrun) as Hflag.
  assert (initialize logging s' = (Return tt, s')) as Hagain.
  { unfold initialize. rewrite bind_gets, Hflag. reflexivity. }
  split; [exact Hagain|]. unfold bind. by rewrite Hrun.
Qed.

(** Two states the protocol cannot tell apart differ in what the logging
    collaborator holds only. *)
Lemma view_eq (s1 s2 : State) :
  view s1 = view s2 →
  ∃ c st n tb k1 k2,
    s1 = {| this := c;
            world := {| audit := k1; stations := st; now := n; jsonConnections := tb |} |} ∧
    s2 = {| this := c;
            world := {| audit := k2; stations := st; now := n; jsonConnections := tb |} |}.
Proof.
  destruct s1 as [c1 [k1 st1 n1 tb1]], s2 as [c2 [k2 st2 n2 tb2]].
  unfold view. cbn. intros [= -> -> -> ->]. by eexists _, _, _, _, _, _.
Qed.

Lemma handleRequest_resolving logging1 logging2 (s1 s2 : State)
    (messageId commandName commandPayload : string) :
  view s1 = view s2 →
  resolves logging1 →
  resolves logging2 →
  observe (handleRequest logging1 messageId commandName commandPayload s1) =
  observe (handleRequest logging2 messageId commandName commandPayload s2).
Proof.
  intros (c & st & n & tb & k1 & k2 & -> & ->)%view_eq Hlog1 Hlog2.
  unfold handleRequest. rewrite !bind_gets. rewrite !await_call_resolves by done.
  cbn [this]. destruct (method_of _ _) as [method|]; [|reflexivity].
  destruct (bool_decide _ || bool_decide _).
  - destruct (headers c) as [h|]; [|reflexivity].
    rewrite !bind_modify, !bind_gets, !bind_invoke. cbn.
    destruct (method _ _ _) as [[result|e] st']; cbn; [|reflexivity].
    by rewrite !await_call_resolves.
  - rewrite !bind_ret, !bind_gets, !bind_invoke. cbn.
    destruct (method _ _ _) as [[result|e] st']; cbn; [|reflexivity].
    by rewrite !await_call_resolves.
Qed.

(** In the handling of a request the first record is awaited: unless its
    promise resolves, the handling does not return and nothing the protocol
    sees has changed; in particular no response is sent. *)
Lemma handleRequest_unresolved logging (s : State)
    (messageId commandName commandPayload : string) :
  (emit logging (received s commandName commandPayload) (sink s)).1 ≠ Resolved →
  (handleRequest logging messageId commandName commandPayload s).1 ≠ Return tt ∧
  view (handleRequest logging messageId commandName commandPayload s).2 = view s.
Proof.
  unfold handleRequest, received. rewrite bind_gets. unfold bind, call, await.
  by destruct (emit logging _ _) as [[|r|] k].
Qed.

(** The record that [onError] hands to the logging collaborator. *)
Definition error_record (errorEvent : option ErrorEvent) (c : t) : Audit :=
  Log LOG_ERROR
    {| log_tenantID := getTenantID c;
       log_source :=
         Some (if JS.truthy (getChargingStationID c) then getChargingStationID c else "");
       log_action := ServerAction.WS_JSON_CONNECTION_ERROR;
       log_module := MODULE_NAME;
       log_method := "onError";
       log_message :=
         "Error " +:+ from_option error "undefined" errorEvent +:+ " " +:+
         from_option message "undefined" errorEvent;
       log_detailedMessages := Some (DetailError errorEvent) |}.

Lemma onError_run logging (errorEvent : option ErrorEvent) (s : State) :
  onError logging errorEvent s =
  (Return tt, logged logging (error_record errorEvent (this s)) s).
Proof.
  unfold onError. rewrite bind_gets. unfold bind, call, void, ret, logged, error_record.
  by destruct (emit logging _ _).
Qed.

(** Ping and pong leave what the logging collaborator holds as it is. *)
Lemma updateChargingStationLastSeen_sink (s : State) :
  sink (updateChargingStationLastSeen s).2 = sink s.
Proof.
  unfold updateChargingStationLastSeen, getChargingStation, saveChargingStationLastSeen.
  rewrite bind_gets, bind_assoc, bind_storage_call.
  destruct (answer storage _ _); [|done..]. rewrite bind_gets.
  destruct (stations (world s) !! _) as [cs|]; [case_bool_decide|]; [|done..].
  rewrite bind_gets, bind_storage_call. by destruct (answer storage _ _).
Qed.

Lemma updateChargingStationLastSeen_view (s1 s2 : State) :
  view s1 = view s2 →
  observe (updateChargingStationLastSeen s1) = observe (updateChargingStationLastSeen s2).
Proof.
  intros (c & st & n & tb & k1 & k2 & -> & ->)%view_eq.
  unfold updateChargingStationLastSeen, getChargingStation, saveChargingStationLastSeen.
  rewrite !bind_gets, !bind_assoc, !bind_storage_call. cbn.
  destruct (answer storage _ _); [|done..].
  destruct (st !! _) as [cs|]; [case_bool_decide|]; [|done..].
  rewrite !bind_gets, !bind_storage_call. cbn. by destruct (answer storage _ _).
Qed.

(** C6, as the code has it: the records of error and close events and of a
    refused request for the client are handed over and forgotten: each is
    the one call made to the logging collaborator, the call returns
    whatever becomes of the promise, and the outcome and everything the
    protocol sees are the same whatever the logging collaborator does.
    Ping and pong hand over no record: what the logging collaborator holds
    is the same before and after, and what they do does not depend on it.
    In the handling of a request the records are awaited: the response and
    the state are the same in two runs whose logging collaborators
    resolve, and a first record whose promise does not resolve stops the
    handling before any response. *)
Theorem audit_is_fire_and_forget_outside_requests logging1 logging2 (s1 s2 : State) :
  view s1 = view s2 →
  (∀ errorEvent,
     observe (onError logging1 errorEvent s1) = observe (onError logging2 errorEvent s2) ∧
     (onError logging1 errorEvent s1).1 = Return tt ∧
     sink (onError logging1 errorEvent s1).2 =
       (emit logging1 (error_record errorEvent (this s1)) (sink s1)).2) ∧
  (∀ closeEvent,
     observe (onClose logging1 closeEvent s1) = observe (onClose logging2 closeEvent s2) ∧
     (onClose logging1 closeEvent s1).1 = Return tt ∧
     sink (onClose logging1 closeEvent s1).2 =
       (emit logging1 (closed_record closeEvent (this s1)) (sink s1)).2) ∧
  (observe (getChargingStationClient logging1 s1) =
     observe (getChargingStationClient logging2 s2) ∧
   sink (getChargingStationClient logging1 s1).2 =
     if isWSConnectionOpen (this s1) then sink s1
     else (emit logging1 (no_client_record getConnectionStatusString (this s1))
             (sink s1)).2) ∧
  (observe (onPing s1) = observe (onPing s2) ∧ sink (onPing s1).2 = sink s1) ∧
  (observe (onPong s1) = observe (onPong s2) ∧ sink (onPong s1).2 = sink s1) ∧
  (resolves logging1 → resolves logging2 →
   ∀ messageId commandName commandPayload,
     observe (handleRequest logging1 messageId commandName commandPayload s1) =
     observe (handleRequest logging2 messageId commandName commandPayload s2)) ∧
  (∀ messageId commandName commandPayload,
     (emit logging1 (received s1 commandName commandPayload) (sink s1)).1 ≠ Resolved →
     (handleRequest logging1 messageId commandName commandPayload s1).1 ≠ Return tt ∧
     view (handleRequest logging1 messageId commandName commandPayload s1).2 = view s1).
Proof.
  intros Hview.
  refine (conj _ (conj _ (conj _ (conj _ (conj _ (conj _ _))))));
    [| | | | | |intros; by apply handleRequest_unresolved].
  - intros errorEvent. rewrite !onError_run. split_and!; [|done..].
    apply view_eq in Hview as (c & st & n & tb & k1 & k2 & -> & ->). reflexivity.
  - intros closeEvent. rewrite !onClose_run. split_and!.
    + apply view_eq in Hview as (c & st & n & tb & k1 & k2 & -> & ->).
      unfold removeJsonConnection, modify, observe, view. cbn.
      by destruct (tb !! _) as [o|]; [case_bool_decide|].
    + reflexivity.
    + unfold removeJsonConnection, modify. cbn.
      by destruct (jsonConnections (world s1) !! _) as [o|]; [case_bool_decide|].
  - rewrite !getChargingStationClient_run. split.
    + apply view_eq in Hview as (c & st & n & tb & k1 & k2 & -> & ->).
      cbn. by destruct (isWSConnectionOpen c).
    + by destruct (isWSConnectionOpen (this s1)).
  - unfold onPing. split; [by apply updateChargingStationLastSeen_view|].
    apply updateChargingStationLastSeen_sink.
  - unfold onPong. rewrite !bind_modify. split.
    + apply updateChargingStationLastSeen_view.
      apply view_eq in Hview as (c & st & n & tb & k1 & k2 & -> & ->). reflexivity.
    + by rewrite updateChargingStationLastSeen_sink.
  - intros Hlog1 Hlog2 messageId commandName commandPayload.
    by apply handleRequest_resolving.
Qed.

End Connection.

(** *** A station, its service and three logging collaborators *)

Definition handleHeartbeat : Handler := λ _ _ st, (Responded "{currentTime}", st).
Definition handleBootNotification : Handler := λ _ _ st, (Responded "{Accepted}", st).

Definition service : JSObject :=
  <["handleHeartbeat" := JSFunction handleHeartbeat]>
    (<["handleBootNotification" := JSFunction handleBootNotification]>
       (<["chargingStationService" := JSData "OCPPService"]> ∅)).

Definition link (protocol : string) : WSConnection.t :=
  {| WSConnection.objectID := 1%nat;
     WSConnection.wsConnection :=
       {| WebSocket.protocol := protocol; WebSocket.readyState := WebSocket.OPEN;
          WebSocket.listeners := []; WebSocket.sent := [] |};
     WSConnection.tenantID := "t1";
     WSConnection.chargingStationID := "cs1";
     WSConnection.token := "tok";
     WSConnection.clientIP := "10.0.0.7";
     WSConnection.url := "/OCPP16/t1/tok/cs1";
     WSConnection.initialized := false;
     WSConnection.requests :=
       {["42" := {| WSConnection.issuedAt := 90; WSConnection.deadline := 95 |}]} |}.

Definition connected : t :=
  {| base :=
       WSConnection.set_wsConnection
         {| WebSocket.protocol := "ocpp1.6"; WebSocket.readyState := WebSocket.OPEN;
            WebSocket.listeners := [WebSocket.ping; WebSocket.pong];
            WebSocket.sent := [] |} (link "ocpp1.6");
     isConnectionAlive := true;
     chargingStationClient :=
       {| client_connection := 1%nat; client_tenantID := "t1";
          client_chargingStationID := "cs1" |};
     chargingStationService := service;
     headers := None |}.

Example constructor_ocpp16 : constructor "ocpp1.6" service (link "ocpp1.6") = inr connected.
Proof. reflexivity. Qed.

Definition quiet : Logging :=
  {| emit := λ a k, (Resolved, k ++ [a]); traceStart := λ _ _ _, "" |}.
Definition stuck : Logging :=
  {| emit := λ a k, (NeverSettles, k); traceStart := λ _ _ _, "" |}.
Definition failing : Logging :=
  {| emit := λ a k, (Rejected "log store unavailable", k); traceStart := λ _ _ _, "" |}.

Lemma quiet_resolves : resolves quiet.
Proof. intros a k. reflexivity. Qed.

(** A persistence collaborator that answers every call with ok, and one
    that answers every call with an Error. *)
Definition available : Storage := {| answer := λ _ _, StorageOk |}.
Definition unavailable : Storage :=
  {| answer := λ _ _, StorageError (BackendError "cs1" "ChargingStationStorage"
                                      "getChargingStation" "database unavailable") |}.

Definition endpoint : JsonEndpointConfig :=
  {| baseSecureUrl := Some "wss://ev.example"; baseUrl := Some "ws://ev.example" |}.

Definition fresh : State :=
  {| this := connected;
     world :=
       {| audit := [];
          stations := {[("t1", "cs1") := {| issuer := true; lastSeen := 0 |}]};
          now := 100;
          jsonConnections := {[("t1", "cs1") := 1%nat]} |} |}.

(** The state after [initialize]. *)
Definition live : State := (initialize endpoint (ret tt) quiet fresh).2.

Example initialize_headers :
  headers (this live) =
  Some {| OCPPHeader.chargeBoxIdentity := "cs1";
          OCPPHeader.ocppVersion := "1.6";
          OCPPHeader.ocppProtocol := OCPPProtocol.JSON;
          OCPPHeader.chargingStationURL := Some "wss://ev.example";
          OCPPHeader.tenantID := "t1";
          OCPPHeader.token := "tok";
          OCPPHeader.From_Address := "10.0.0.7";
          OCPPHeader.currentIPAddress := None |}.
Proof. reflexivity. Qed.

(** The scenario of the spec: no handler for [Ping]. *)
Example ping_not_implemented :
  WebSocket.sent (getWSConnection (this
    (onMessage quiet (WebSocket.Request "1" "Ping" "{}") live).2)) =
  [WebSocket.Error "1" NOT_IMPLEMENTED
     "The OCPP method 'handlePing' has not been implemented" "{}"].
Proof. vm_compute. reflexivity. Qed.

Example heartbeat_answered :
  WebSocket.sent (getWSConnection (this (handleRequest quiet "7" "Heartbeat" "{}" live).2)) =
  [WebSocket.Result "7" "{currentTime}"].
Proof. vm_compute. reflexivity. Qed.

Example pong_refreshes_last_seen :
  stations (world (onPong available live).2) !! ("t1", "cs1") =
  Some {| issuer := true; lastSeen := 100 |}.
Proof. vm_compute. reflexivity. Qed.

Lemma unhandled_request_answered_once_logged_witness :
  handleRequest quiet "1" "Ping" "{}" live =
    (Throw (not_implemented (this live) "Ping"),
     logged quiet (received live "Ping" "{}") live) ∧
  ∃ s2,
    onMessage quiet (WebSocket.Request "1" "Ping" "{}") live = (Return tt, s2) ∧
    WebSocket.sent (getWSConnection (this s2)) =
      [WebSocket.Error "1" NOT_IMPLEMENTED
         "The OCPP method 'handlePing' has not been implemented" "{}"].
Proof.
  destruct (unhandled_request_answered_once_logged quiet live "1" "Ping" "{}")
    as [_ Hanswered].
  - vm_compute. reflexivity.
  - exact Hanswered.
Defined.

(** A service object one of whose methods is not the handler of an action
    of the protocol. *)
Definition handleShutdown : Handler := λ _ _ st, (Responded "{stopping}", st).

Definition service_with_method : JSObject :=
  <["handleShutdown" := JSFunction handleShutdown]> service.

Definition exposed : State :=
  on_this (λ c,
    {| base := base c; isConnectionAlive := isConnectionAlive c;
       chargingStationClient := chargingStationClient c;
       chargingStationService := service_with_method;
       headers := headers c |}) live.


Lemma unsupported_protocol_is_refused_witness :
  ∃ e ws,
    e = BackendError "cs1" MODULE_NAME "constructor" "Protocol ocpp2.0 not supported" ∧
    constructor "ocpp1.6" service (link "ocpp2.0") = inl e ∧
    accept "ocpp1.6" service (link "ocpp2.0") (world fresh) = (Refused e ws, world fresh) ∧
    WebSocket.readyState ws = WebSocket.CLOSED ∧
    WebSocket.sent ws = [] ∧
    WebSocket.listeners ws = [].
Proof.
  apply (unsupported_protocol_is_refused "ocpp1.6" service (link "ocpp2.0") (world fresh)).
  vm_compute. discriminate.
Defined.

Lemma dispatch_refreshes_address_not_last_seen_witness :
  ∃ h0,
    headers (this live) = Some h0 ∧
    headers (this (handleRequest quiet "7" "Heartbeat" "{}" live).2) =
      Some (OCPPHeader.set_currentIPAddress "10.0.0.7" h0) ∧
    stations (world (handleRequest quiet "7" "Heartbeat" "{}" live).2) =
      stations (world live).
Proof.
  destruct (headers (this live)) as [h0|] eqn:Hh; [|vm_compute in Hh; discriminate Hh].
  exists h0. split; [reflexivity|].
  destruct (dispatch_refreshes_address_not_last_seen quiet live "7" "Heartbeat" "{}"
              handleHeartbeat h0) as (Hib & _ & Hheaders & Hstations).
  - intros a k. reflexivity.
  - vm_compute. reflexivity.
  - exact Hh.
  - split; [|exact Hstations]. rewrite Hheaders, Hib; reflexivity.
Defined.

Lemma initialize_idempotent_witness :
  initialize endpoint (ret tt) quiet live = (Return tt, live) ∧
  (initialize endpoint (ret tt) quiet;; initialize endpoint (ret tt) quiet) fresh
    = initialize endpoint (ret tt) quiet fresh.
Proof.
  apply (initialize_idempotent endpoint (ret tt) quiet fresh live).
  vm_compute. reflexivity.
Defined.

(** The same state with other contents in the logging collaborator. *)
Definition live_unlogged : State := on_world (set_audit []) live.

Lemma audit_is_fire_and_forget_outside_requests_witness :
  observe (onError quiet None live) = observe (onError stuck None live_unlogged) ∧
  observe (onError quiet None live) = observe (onError failing None live_unlogged).
Proof.
  split.
  - apply (audit_is_fire_and_forget_outside_requests (λ _, "") (λ _, "") (λ _, "")
             available quiet stuck live live_unlogged).
    reflexivity.
  - apply (audit_is_fire_and_forget_outside_requests (λ _, "") (λ _, "") (λ _, "")
             available quiet failing live live_unlogged).
    reflexivity.
Defined.

(** *** Where the code departs from the claims *)

(** The station's last-seen timestamp is the current time. *)
Definition last_seen_is_now (s : State) : Prop :=
  ∃ cs, stations (world s) !! (getTenantID (this s), getChargingStationID (this s)) = Some cs ∧
        lastSeen cs = now (world s).

(** C3 fails: a Heartbeat is dispatched and answered, and the station's
    last-seen timestamp is still the old one. *)
Lemma heartbeat_dispatch_leaves_last_seen :
  (handleRequest quiet "7" "Heartbeat" "{}" live).1 = Return tt ∧
  ¬ last_seen_is_now (handleRequest quiet "7" "Heartbeat" "{}" live).2.
Proof.
  split; [vm_compute; reflexivity|].
  intros (cs & Hcs & Hnow). vm_compute in Hcs. injection Hcs as <-.
  vm_compute in Hnow. discriminate Hnow.
Qed.

(** C1 fails: no handler for [Ping], and with a logging collaborator whose
    promise stays pending the handling never completes: no error frame
    goes to the station, the request is dropped; with one whose promise
    rejects the failure is that rejection, not NotImplemented. *)
Lemma unhandled_request_dropped_while_record_pending :
  method_of (chargingStationService (this live)) "handlePing" = None ∧
  handleRequest stuck "1" "Ping" "{}" live = (Blocked, live) ∧
  onMessage stuck (WebSocket.Request "1" "Ping" "{}") live = (Blocked, live) ∧
  WebSocket.sent (getWSConnection (this live)) = [] ∧
  handleRequest failing "1" "Ping" "{}" live =
    (Throw (LoggingFailure "log store unavailable"), live).
Proof. split_and!; vm_compute; reflexivity. Qed.

(** The handlers registered at startup. *)
Definition startup : gmap string Handler :=
  {["Heartbeat" := handleHeartbeat; "BootNotification" := handleBootNotification]}.


(** A connection whose liveness flag is down while its socket is open. *)
Definition unacknowledged : State := on_this (set_isConnectionAlive false) live.

(** C4 fails: the connection is not alive, and the client is handed out. *)
Lemma client_handed_out_when_not_alive :
  isConnectionAlive (this unacknowledged) = false ∧
  (getChargingStationClient (λ _, "OPEN") quiet unacknowledged).1 =
    Return (Some {| client_connection := 1%nat; client_tenantID := "t1";
                    client_chargingStationID := "cs1" |}).
Proof. split; vm_compute; reflexivity. Qed.

(** The state when the close event fires: the library has closed the
    socket; one outbound call is outstanding. *)
Definition closing : State :=
  on_this (λ c, set_base (WSConnection.set_wsConnection (close (getWSConnection c)) (base c)) c)
    live.

(** C5 fails: after [onClose] the outbound call is still outstanding and
    the liveness flag still up. *)
Lemma onClose_leaves_calls_pending :
  let s' := (onClose (λ _, "Normal closure") (λ _, "1000") quiet
               {| code := 1000; reason := "" |} closing).2 in
  WSConnection.requests (base (this s')) !! "42" =
    Some {| WSConnection.issuedAt := 90; WSConnection.deadline := 95 |} ∧
  isConnectionAlive (this s') = true ∧
  jsonConnections (world s') !! ("t1", "cs1") = None.
Proof. vm_compute. by split_and!. Qed.

(** C6 fails: the same request in the same state, with a logging
    collaborator that resolves and with one that never settles (or
    rejects): a response is sent in the first run and none in the others. *)
Lemma awaited_audit_decides_response :
  observe (handleRequest quiet "7" "Heartbeat" "{}" live) ≠
    observe (handleRequest stuck "7" "Heartbeat" "{}" live) ∧
  WebSocket.sent (getWSConnection (this (handleRequest quiet "7" "Heartbeat" "{}" live).2))
    = [WebSocket.Result "7" "{currentTime}"] ∧
  (handleRequest stuck "7" "Heartbeat" "{}" live) = (Blocked, live) ∧
  (handleRequest failing "7" "Heartbeat" "{}" live)
    = (Throw (LoggingFailure "log store unavailable"), live).
Proof.
  split_and!; [|vm_compute; reflexivity..].
  intros Heq. apply (f_equal fst) in Heq. vm_compute in Heq. discriminate Heq.
Qed.

(** *** Further properties of the connection *)

Lemma string_prefix_app (p v : string) : String.prefix p (p +:+ v) = true.
Proof.
  induction p as [|ch p IH]; [by destruct v|].
  change (String ch p +:+ v) with (String ch (p +:+ v)). cbn [String.prefix].
  destruct (Ascii.ascii_dec ch ch); [exact IH|done].
Qed.

Lemma substring_all (v : string) : String.substring 0 (String.length v) v = v.
Proof. induction v as [|ch v IH]; [done|]. cbn. by rewrite IH. Qed.

Lemma substring_after (p v : string) :
  String.substring (String.length p) (String.length (p +:+ v) - String.length p) (p +:+ v) = v.
Proof.
  induction p as [|ch p IH].
  - cbn [String.length String.append]. rewrite Nat.sub_0_r. apply substring_all.
  - change (String ch p +:+ v) with (String ch (p +:+ v)). cbn [String.length String.substring].
    exact IH.
Qed.

(** Replacing a non-empty pattern at the head of a string removes it there. *)
Lemma replace_leading (p v : string) : p ≠ "" → JS.replace p "" (p +:+ v) = v.
Proof.
  intros Hp. unfold JS.replace. destruct p as [|ch p]; [done|].
  assert (String.index 0 (String ch p) (String ch p +:+ v) = Some 0%nat) as ->.
  { change (String ch p +:+ v) with (String ch (p +:+ v)). cbn [String.index].
    change (String ch (p +:+ v)) with (String ch p +:+ v). by rewrite string_prefix_app. }
  rewrite Nat.add_0_l, substring_after.
  by destruct (String ch p +:+ v).
Qed.

Section Lifecycle.
Context (jsonEndpointConfig : JsonEndpointConfig).
Context (super_initialize : Async State unit).

(** The record [initialize] hands to the logging collaborator. *)
Definition opened_record (c : t) : Audit :=
  Log LOG_INFO
    {| log_tenantID := getTenantID c;
       log_source := Some (getChargingStationID c);
       log_action := ServerAction.WS_JSON_CONNECTION_OPENED;
       log_module := MODULE_NAME;
       log_method := "initialize";
       log_message :=
         "New Json connection from '" +:+ getClientIP c +:+ "', Protocol '" +:+
         WebSocket.protocol (getWSConnection c) +:+ "', URL '" +:+ getURL c +:+ "'";
       log_detailedMessages := None |}.

(** How a call ends whose last step awaits a promise. *)
Definition awaited (p : Settle) : Outcome unit :=
  match p with
  | Resolved => Return tt
  | Rejected r => Throw (LoggingFailure r)
  | NeverSettles => Blocked
  end.

(** The headers [initialize] builds for a connection. *)
Definition initial_headers (c : t) : OCPPHeader.t :=
  let protocol := WebSocket.protocol (getWSConnection c) in
  {| OCPPHeader.chargeBoxIdentity := getChargingStationID c;
     OCPPHeader.ocppVersion :=
       if JS.startsWith "ocpp" protocol then JS.replace "ocpp" "" protocol else protocol;
     OCPPHeader.ocppProtocol := OCPPProtocol.JSON;
     OCPPHeader.chargingStationURL :=
       if JS.truthy_opt (baseSecureUrl jsonEndpointConfig)
       then baseSecureUrl jsonEndpointConfig
       else baseUrl jsonEndpointConfig;
     OCPPHeader.tenantID := getTenantID c;
     OCPPHeader.token := getToken c;
     OCPPHeader.From_Address := getClientIP c;
     OCPPHeader.currentIPAddress := None |}.

(** The connection with these headers, marked initialized. *)
Definition marked_initialized (s1 : State) : State :=
  on_this (λ c, set_base (WSConnection.set_initialized true (base c)) c)
    (on_this (set_headers (Some (initial_headers (this s1)))) s1).

(** [initialize] on a connection not yet initialized, once
    [super.initialize()] has returned. *)
Lemma initialize_run (logging : Logging) (s s1 : State) :
  WSConnection.initialized (base (this s)) = false →
  super_initialize s = (Return tt, s1) →
  initialize jsonEndpointConfig super_initialize logging s =
    (awaited (emit logging (opened_record (this s1)) (sink s1)).1,
     logged logging (opened_record (this s1)) (marked_initialized s1)).
Proof.
  intros Hinit Hsuper. unfold initialize. rewrite bind_gets, Hinit. cbn [negb].
  unfold bind at 1. rewrite Hsuper. rewrite bind_gets, !bind_modify.
  unfold bind, call, await, logged, awaited, ret. cbn.
  by destruct (emit logging _ _) as [[|r|] k].
Qed.

(** After [initialize] on a connection not yet initialized the headers are
    set from the connection as [super.initialize()] left it, whatever the
    logging collaborator does: the version is the subprotocol without a
    leading ["ocpp"], the URL is the secure base URL when one is configured
    and the plain one otherwise, the current address is still unset, and
    the connection is marked initialized; the socket, the liveness flag and
    the stations are as they were.  The call returns when the promise of
    its record resolves. *)
Theorem initialize_builds_headers (logging : Logging) (s s1 : State) :
  WSConnection.initialized (base (this s)) = false →
  super_initialize s = (Return tt, s1) →
  let run := initialize jsonEndpointConfig super_initialize logging s in
  let protocol := WebSocket.protocol (getWSConnection (this s1)) in
  ∃ h,
    headers (this run.2) = Some h ∧
    WSConnection.initialized (base (this run.2)) = true ∧
    OCPPHeader.chargeBoxIdentity h = getChargingStationID (this s1) ∧
    OCPPHeader.tenantID h = getTenantID (this s1) ∧
    OCPPHeader.token h = getToken (this s1) ∧
    OCPPHeader.From_Address h = getClientIP (this s1) ∧
    OCPPHeader.currentIPAddress h = None ∧
    (∀ v, protocol = "ocpp" +:+ v → OCPPHeader.ocppVersion h = v) ∧
    (JS.startsWith "ocpp" protocol = false → OCPPHeader.ocppVersion h = protocol) ∧
    (∀ u, baseSecureUrl jsonEndpointConfig = Some u → u ≠ "" →
          OCPPHeader.chargingStationURL h = Some u) ∧
    (baseSecureUrl jsonEndpointConfig = None ∨ baseSecureUrl jsonEndpointConfig = Some "" →
     OCPPHeader.chargingStationURL h = baseUrl jsonEndpointConfig) ∧
    (resolves logging → run.1 = Return tt) ∧
    isConnectionAlive (this run.2) = isConnectionAlive (this s1) ∧
    getWSConnection (this run.2) = getWSConnection (this s1) ∧
    stations (world run.2) = stations (world s1).
Proof.
  intros Hinit Hsuper run protocol. subst run.
  rewrite (initialize_run logging s s1 Hinit Hsuper).
  exists (initial_headers (this s1)). split_and!; try reflexivity.
  - intros v Hv. cbn. fold protocol. rewrite Hv.
    unfold JS.startsWith. rewrite string_prefix_app. by apply replace_leading.
  - intros Hno. cbn. fold protocol. by rewrite Hno.
  - intros u Hu Hne. cbn. rewrite Hu. cbn. unfold JS.truthy.
    by rewrite bool_decide_eq_false_2.
  - intros [Hnone|Hempty]; cbn; [by rewrite Hnone|by rewrite Hempty].
  - intros Hlog. cbn. by rewrite Hlog.
Qed.

(** A failure of the awaited record does not undo the initialization: when
    its promise rejects or never settles, [initialize] does not return, yet
    the connection is left marked initialized with its headers set, and a
    later call returns at once: it does not call [super.initialize()]
    again and writes no record.  A failure of [super.initialize()] itself
    is passed on with the state as that call left it. *)
Theorem initialize_failure_modes (logging : Logging) (s s1 : State) :
  WSConnection.initialized (base (this s)) = false →
  (∀ e, super_initialize s = (Throw e, s1) →
        initialize jsonEndpointConfig super_initialize logging s = (Throw e, s1)) ∧
  (super_initialize s = (Return tt, s1) →
   (emit logging (opened_record (this s1)) (sink s1)).1 ≠ Resolved →
   let run := initialize jsonEndpointConfig super_initialize logging s in
   run.1 ≠ Return tt ∧
   WSConnection.initialized (base (this run.2)) = true ∧
   is_Some (headers (this run.2)) ∧
   ∀ logging', initialize jsonEndpointConfig super_initialize logging' run.2
               = (Return tt, run.2)).
Proof.
  intros Hinit. split.
  - intros e Hsuper. unfold initialize. rewrite bind_gets, Hinit. cbn [negb].
    unfold bind at 1. by rewrite Hsuper.
  - intros Hsuper Hfail run. subst run. rewrite (initialize_run logging s s1 Hinit Hsuper).
    split_and!; [|reflexivity|by eexists|].
    + cbn. by destruct (emit logging _ _).1.
    + intros logging'. unfold initialize. by rewrite bind_gets.
Qed.
End Lifecycle.

(** A request whose handler responds, on a connection with headers: the
    call returns, the one frame written is the result frame with the
    message id of the request and the result of the handler, and the
    logging collaborator was handed the record of the received action and
    then that of the response. *)
Theorem handled_request_is_answered (logging : Logging) (s : State)
    (messageId commandName commandPayload result : string) (method : Handler)
    (h0 : OCPPHeader.t) (st : Stations) :
  resolves logging →
  method_of (chargingStationService (this s)) ("handle" +:+ commandName) = Some method →
  headers (this s) = Some h0 →
  method (Some (headers_for commandName (this s) h0)) commandPayload (stations (world s))
    = (Responded result, st) →
  ∃ s',
    handleRequest logging messageId commandName commandPayload s = (Return tt, s') ∧
    WebSocket.sent (getWSConnection (this s')) =
      WebSocket.sent (getWSConnection (this s)) ++ [WebSocket.Result messageId result] ∧
    stations (world s') = st ∧
    sink s' =
      (emit logging (responded s commandName result)
         (emit logging (received s commandName commandPayload) (sink s)).2).2.
Proof.
  intros Hlog Hhit Hh Hran. unfold handleRequest.
  rewrite bind_gets. rewrite await_call_resolves by done.
  rewrite Hhit, Hh. fold (identity_bearing commandName).
  unfold headers_for in Hran.
  destruct (identity_bearing commandName).
  - rewrite bind_modify, bind_gets, bind_invoke. cbn. rewrite Hran. cbn.
    rewrite await_call_resolves by done. eexists. by split_and!.
  - rewrite bind_ret, bind_gets, bind_invoke. cbn. rewrite Hh, Hran. cbn.
    rewrite await_call_resolves by done. eexists. by split_and!.
Qed.

(** A request whose handler throws: [handleRequest] throws the same error,
    writes no frame and hands over no record of a response; what the
    handler did to the stations stays. *)
Theorem handler_failure_is_passed_on (logging : Logging) (s : State)
    (messageId commandName commandPayload : string) (method : Handler)
    (h0 : OCPPHeader.t) (e : Exn) (st : Stations) :
  resolves logging →
  method_of (chargingStationService (this s)) ("handle" +:+ commandName) = Some method →
  headers (this s) = Some h0 →
  method (Some (headers_for commandName (this s) h0)) commandPayload (stations (world s))
    = (Failed e, st) →
  ∃ s',
    handleRequest logging messageId commandName commandPayload s = (Throw e, s') ∧
    WebSocket.sent (getWSConnection (this s')) = WebSocket.sent (getWSConnection (this s)) ∧
    stations (world s') = st ∧
    sink s' = (emit logging (received s commandName commandPayload) (sink s)).2.
Proof.
  intros Hlog Hhit Hh Hran. unfold handleRequest.
  rewrite bind_gets. rewrite await_call_resolves by done.
  rewrite Hhit, Hh. fold (identity_bearing commandName).
  unfold headers_for in Hran.
  destruct (identity_bearing commandName).
  - rewrite bind_modify, bind_gets, bind_invoke. cbn. rewrite Hran. cbn.
    eexists. by split_and!.
  - rewrite bind_ret, bind_gets, bind_invoke. cbn. rewrite Hh, Hran. cbn.
    eexists. by split_and!.
Qed.

(** A request that arrives before [initialize] has set the headers: for
    BootNotification and Heartbeat the assignment of the current address
    throws a TypeError, the handler is not called and nothing is written;
    for any other action the handler is called with undefined headers. *)
Theorem request_before_initialize (logging : Logging) (s : State)
    (messageId commandName commandPayload : string) (method : Handler) :
  resolves logging →
  method_of (chargingStationService (this s)) ("handle" +:+ commandName) = Some method →
  headers (this s) = None →
  let run := handleRequest logging messageId commandName commandPayload s in
  if identity_bearing commandName
  then run = (Throw (TypeError
                       "Cannot set properties of undefined (setting 'currentIPAddress')"),
              logged logging (received s commandName commandPayload) s)
  else stations (world run.2) = (method None commandPayload (stations (world s))).2 ∧
       run.1 = match (method None commandPayload (stations (world s))).1 with
               | Responded _ => Return tt
               | Failed e => Throw e
               end.
Proof.
  intros Hlog Hhit Hh run. subst run. unfold handleRequest.
  rewrite bind_gets. rewrite await_call_resolves by done.
  rewrite Hhit, Hh. fold (identity_bearing commandName).
  destruct (identity_bearing commandName).
  - by rewrite bind_throw.
  - rewrite bind_ret, bind_gets, bind_invoke. cbn. rewrite Hh.
    destruct (method None commandPayload _) as [[result|e] st]; cbn; [|done].
    by rewrite await_call_resolves.
Qed.

(** The station a connection speaks for. *)
Definition own_station (s : State) : string * string :=
  (getTenantID (this s), getChargingStationID (this s)).

(** What [updateChargingStationLastSeen] leaves in the storage when it
    returns: the connection's own station, when it is stored as an
    issuer's, gets the current time as its last-seen timestamp. *)
Definition last_seen_refreshed (s : State) (st : Stations) : Prop :=
  (∀ k, k ≠ own_station s → st !! k = stations (world s) !! k) ∧
  st !! own_station s =
    match stations (world s) !! own_station s with
    | Some cs =>
        Some (if issuer cs then {| issuer := true; lastSeen := now (world s) |} else cs)
    | None => None
    end.

Definition stored_as_issuer (s : State) : bool :=
  match stations (world s) !! own_station s with
  | Some cs => issuer cs
  | None => false
  end.

(** The two calls that [updateChargingStationLastSeen] makes. *)
Definition lookup_call (s : State) : StorageCall :=
  GetChargingStation (getTenantID (this s)) (getChargingStationID (this s)) true.

Definition save_call (s : State) : StorageCall :=
  SaveChargingStationLastSeen (getTenantID (this s)) (getChargingStationID (this s))
    (now (world s)).

Section Liveness.
Context (storage : Storage).

(** How a ping or pong in state [s] ends, as [o], and what it leaves as the
    stations, as [st]. *)
Definition refresh (s : State) (o : Outcome unit) (st : Stations) : Prop :=
  let lookup := answer storage (lookup_call s) (stations (world s)) in
  let save := answer storage (save_call s) (stations (world s)) in
  (o = Return tt ↔ lookup = StorageOk ∧ (stored_as_issuer s = true → save = StorageOk)) ∧
  (o = Return tt → last_seen_refreshed s st) ∧
  (∀ e, lookup = StorageError e → o = Throw e) ∧
  (∀ e, lookup = StorageOk → stored_as_issuer s = true → save = StorageError e →
        o = Throw e) ∧
  (∀ k, k ≠ own_station s → st !! k = stations (world s) !! k) ∧
  (∀ k, st !! k = None ↔ stations (world s) !! k = None).

Ltac refresh_leaf :=
  first
    [ done
    | by intros ? [= <-]
    | by intros ? _ _ [= <-]
    | split; [done|]; by intros [? _]
    | split; [done|]; intros [_ Hsaved]; by specialize (Hsaved eq_refl)
    | intros _; split; [done|]; congruence ].

Lemma updateChargingStationLastSeen_any (s : State) :
  ∃ o st,
    updateChargingStationLastSeen storage s = (o, on_world (set_stations st) s) ∧
    refresh s o st.
Proof.
  assert (s = on_world (set_stations (stations (world s))) s) as Hsame
    by (by destruct s as [c []]).
  unfold updateChargingStationLastSeen, getChargingStation, saveChargingStationLastSeen.
  rewrite bind_gets, bind_assoc, bind_storage_call.
  unfold refresh, stored_as_issuer, last_seen_refreshed. fold (lookup_call s) (own_station s).
  destruct (answer storage (lookup_call s) _) as [|e|] eqn:Hlookup.
  - rewrite bind_gets.
    destruct (stations (world s) !! own_station s) as [cs|] eqn:Hcs;
      [destruct (issuer cs) eqn:Hissuer|].
    + rewrite bool_decide_eq_true_2 by done. rewrite bind_gets, bind_storage_call.
      fold (save_call s). unfold modify.
      destruct (answer storage (save_call s) _) as [|e|] eqn:Hsave.
      * eexists _, _. split; [reflexivity|]. fold (own_station s).
        refine (conj _ (conj _ (conj _ (conj _ (conj _ _))))).
        -- done.
        -- intros _. split; [intros k Hk; by rewrite lookup_alter_ne|].
           rewrite lookup_alter_eq, Hcs. cbn. by rewrite Hissuer.
        -- done.
        -- done.
        -- intros k Hk. by rewrite lookup_alter_ne.
        -- intros k. destruct (decide (k = own_station s)) as [->|Hk].
           ++ rewrite lookup_alter_eq, Hcs. cbn. by split.
           ++ by rewrite lookup_alter_ne.
      * exists (Throw e), (stations (world s)). split; [by rewrite <- Hsame|].
        refine (conj _ (conj _ (conj _ (conj _ (conj _ _))))); refresh_leaf.
      * exists Blocked, (stations (world s)). split; [by rewrite <- Hsame|].
        refine (conj _ (conj _ (conj _ (conj _ (conj _ _))))); refresh_leaf.
    + rewrite bool_decide_eq_false_2 by done.
      exists (Return tt), (stations (world s)). split; [by rewrite <- Hsame|].
      refine (conj _ (conj _ (conj _ (conj _ (conj _ _))))); refresh_leaf.
    + exists (Return tt), (stations (world s)). split; [by rewrite <- Hsame|].
      refine (conj _ (conj _ (conj _ (conj _ (conj _ _))))); refresh_leaf.
  - exists (Throw e), (stations (world s)). split; [by rewrite <- Hsame|].
    refine (conj _ (conj _ (conj _ (conj _ (conj _ _))))); refresh_leaf.
  - exists Blocked, (stations (world s)). split; [by rewrite <- Hsame|].
    refine (conj _ (conj _ (conj _ (conj _ (conj _ _))))); refresh_leaf.
Qed.


End Liveness.

(** *** These properties at the station of the examples *)

Lemma initialize_builds_headers_witness :
  ∃ h,
    headers (this (initialize endpoint (ret tt) failing fresh).2) = Some h ∧
    OCPPHeader.ocppVersion h = "1.6" ∧
    OCPPHeader.chargingStationURL h = Some "wss://ev.example".
Proof.
  destruct (initialize_builds_headers endpoint (ret tt) failing fresh fresh)
    as (h & Hh & _ & _ & _ & _ & _ & _ & Hversion & _ & Hurl & _).
  - reflexivity.
  - reflexivity.
  - exists h. split; [exact Hh|]. split.
    + apply Hversion. reflexivity.
    + apply Hurl; [reflexivity|discriminate].
Defined.

Lemma initialize_failure_modes_witness :
  (initialize endpoint (ret tt) failing fresh).1 ≠ Return tt ∧
  initialize endpoint (ret tt) quiet (initialize endpoint (ret tt) failing fresh).2
    = (Return tt, (initialize endpoint (ret tt) failing fresh).2).
Proof.
  destruct (initialize_failure_modes endpoint (ret tt) failing fresh fresh)
    as [_ Hlog].
  - reflexivity.
  - destruct Hlog as (Hno & _ & _ & Hagain).
    + reflexivity.
    + vm_compute. discriminate.
    + split; [exact Hno|]. apply Hagain.
Defined.

Lemma handled_request_is_answered_witness :
  ∃ s',
    handleRequest quiet "7" "Heartbeat" "{}" live = (Return tt, s') ∧
    WebSocket.sent (getWSConnection (this s')) = [WebSocket.Result "7" "{currentTime}"].
Proof.
  destruct (headers (this live)) as [h0|] eqn:Hh; [|vm_compute in Hh; discriminate Hh].
  destruct (handled_request_is_answered quiet live "7" "Heartbeat" "{}" "{currentTime}"
              handleHeartbeat h0 (stations (world live)))
    as (s' & Hrun & Hsent & _).
  - intros a k. reflexivity.
  - vm_compute. reflexivity.
  - exact Hh.
  - reflexivity.
  - exists s'. split; [exact Hrun|exact Hsent].
Defined.

(** A service one of whose handlers throws. *)
Definition handleAuthorize : Handler :=
  λ _ _ st, (Failed (HandlerFailure GENERIC_ERROR "unknown tag"), st).

Definition strict : State :=
  on_this (λ c,
    {| base := base c; isConnectionAlive := isConnectionAlive c;
       chargingStationClient := chargingStationClient c;
       chargingStationService := <["handleAuthorize" := JSFunction handleAuthorize]> service;
       headers := headers c |}) live.

Lemma handler_failure_is_passed_on_witness :
  ∃ s',
    handleRequest quiet "8" "Authorize" "{}" strict
      = (Throw (HandlerFailure GENERIC_ERROR "unknown tag"), s') ∧
    WebSocket.sent (getWSConnection (this s')) = [].
Proof.
  destruct (headers (this strict)) as [h0|] eqn:Hh; [|vm_compute in Hh; discriminate Hh].
  destruct (handler_failure_is_passed_on quiet strict "8" "Authorize" "{}"
              handleAuthorize h0 (HandlerFailure GENERIC_ERROR "unknown tag")
              (stations (world strict)))
    as (s' & Hrun & Hsent & _).
  - intros a k. reflexivity.
  - vm_compute. reflexivity.
  - exact Hh.
  - reflexivity.
  - exists s'. split; [exact Hrun|exact Hsent].
Defined.

Lemma request_before_initialize_witness :
  handleRequest quiet "1" "BootNotification" "{}" fresh =
  (Throw (TypeError "Cannot set properties of undefined (setting 'currentIPAddress')"),
   logged quiet (received fresh "BootNotification" "{}") fresh).
Proof.
  apply (request_before_initialize quiet fresh "1" "BootNotification" "{}"
           handleBootNotification).
  - intros a k. reflexivity.
  - vm_compute. reflexivity.
  - reflexivity.
Defined.


End JsonWSConnection.

(** ** [ChargingStationSecurity]

    The class that follows [JsonWSConnection] in the same source file.  Its
    filters take a request of type [any]; here a request is a JSON value.
    The sanitiser of the [mongo-sanitize] package and the helpers of
    [Utils] and [UtilsSecurity] are parameters.  The filters that hand the
    object they build to [UtilsSecurity.filterSkipAndLimit], [filterSort]
    or [filterProject] for completion are left out. *)

From stdpp Require Import pretty.

Local Open Scope Z_scope.
Local Open Scope string_scope.
Local Open Scope list_scope.

Module ChargingStationSecurity.

(** The values a parsed request is made of.  Numbers are integers and
    strings are sequences of one-byte characters: no filter computes with a
    number, and a string is only ever measured or iterated. *)
#[local] Unset Elimination Schemes.
Inductive JSValue :=
| JUndefined
| JNull
| JBool (b : bool)
| JNumber (n : Z)
| JString (s : string)
| JArray (elements : list JSValue)
| JObject (properties : list (string * JSValue)).
#[local] Set Elimination Schemes.

(** A synchronous call: it throws or returns. *)
Definition Sync (A : Type) : Type := Exn + A.

Definition sync_bind {A B} (m : Sync A) (k : A → Sync B) : Sync B :=
  match m with
  | inl e => inl e
  | inr a => k a
  end.

Declare Scope sync_scope.
Delimit Scope sync_scope with sync.
Notation "x <- m ;; k" := (sync_bind m (λ x, k))
  (at level 100, m at next level, right associativity) : sync_scope.
Local Open Scope sync_scope.

(** [array.map(f)] with an [f] that may throw. *)
Fixpoint traverse {A B} (f : A → Sync B) (l : list A) : Sync (list B) :=
  match l with
  | [] => inr []
  | a :: l' =>
      b <- f a;;
      bs <- traverse f l';;
      inr (b :: bs)
  end.

(** Truthiness. *)
Definition truthy (v : JSValue) : bool :=
  match v with
  | JUndefined | JNull => false
  | JBool b => b
  | JNumber n => negb (bool_decide (n = 0%Z))
  | JString s => negb (bool_decide (s = ""))
  | JArray _ | JObject _ => true
  end.

(** The value of the property [key] among [properties]. *)
Fixpoint property (key : string) (properties : list (string * JSValue)) : JSValue :=
  match properties with
  | [] => JUndefined
  | (k, v) :: rest => if bool_decide (k = key) then v else property key rest
  end.

(** [target[key] = v]: an existing property is overwritten in place, a new
    one comes last. *)
Fixpoint assign (key : string) (v : JSValue) (target : list (string * JSValue))
    : list (string * JSValue) :=
  match target with
  | [] => [(key, v)]
  | (k, w) :: rest =>
      if bool_decide (k = key) then (k, v) :: rest else (k, w) :: assign key v rest
  end.

(** [v.key] for the keys these filters read. *)
Definition get (v : JSValue) (key : string) : Sync JSValue :=
  match v with
  | JUndefined =>
      inl (TypeError ("Cannot read properties of undefined (reading '" +:+ key +:+ "')"))
  | JNull =>
      inl (TypeError ("Cannot read properties of null (reading '" +:+ key +:+ "')"))
  | JObject properties => inr (property key properties)
  | JArray elements =>
      inr (if bool_decide (key = "length") then JNumber (Z.of_nat (length elements))
           else JUndefined)
  | JString s =>
      inr (if bool_decide (key = "length") then JNumber (Z.of_nat (String.length s))
           else JUndefined)
  | JBool _ | JNumber _ => inr JUndefined
  end.

(** [v[i]] *)
Definition at_index (v : JSValue) (i : nat) : Sync JSValue :=
  match v with
  | JUndefined =>
      inl (TypeError ("Cannot read properties of undefined (reading '" +:+ pretty i +:+ "')"))
  | JNull =>
      inl (TypeError ("Cannot read properties of null (reading '" +:+ pretty i +:+ "')"))
  | JArray elements => inr (default JUndefined (elements !! i))
  | JString s =>
      inr (match String.get i s with
           | Some c => JString (String c "")
           | None => JUndefined
           end)
  | JObject properties => inr (property (pretty i) properties)
  | JBool _ | JNumber _ => inr JUndefined
  end.

(** [v.map(f)] *)
Definition map_of (v : JSValue) (f : JSValue → Sync JSValue) : Sync JSValue :=
  match v with
  | JArray elements =>
      mapped <- traverse f elements;;
      inr (JArray mapped)
  | JUndefined => inl (TypeError "Cannot read properties of undefined (reading 'map')")
  | JNull => inl (TypeError "Cannot read properties of null (reading 'map')")
  | _ => inl (TypeError "map is not a function")
  end.

(** What [for (const x of v)] runs over. *)
Definition iterate (v : JSValue) : Sync (list JSValue) :=
  match v with
  | JArray elements => inr elements
  | JString s => inr ((λ c, JString (String c "")) <$> String.list_ascii_of_string s)
  | _ => inl (TypeError "value is not iterable")
  end.

(** [a === b] against a string constant. *)
Definition is_string (v : JSValue) (s : string) : bool :=
  match v with
  | JString s' => bool_decide (s' = s)
  | _ => false
  end.

(** [a === b] against a number constant. *)
Definition is_number (v : JSValue) (n : Z) : bool :=
  match v with
  | JNumber n' => bool_decide (n' = n)
  | _ => false
  end.

Definition keys (properties : list (string * JSValue)) : list string := properties.*1.

(** [key] is an own property of [v]. *)
Definition own_property (v : JSValue) (key : string) : bool :=
  match v with
  | JObject properties => bool_decide (key ∈ keys properties)
  | _ => false
  end.

Section Filters.
(** [sanitize] of [mongo-sanitize], taken as a function of its argument *)
Context (sanitize : JSValue → JSValue).
(** [UtilsSecurity.filterBoolean], [Utils.convertToInt] *)
Context (filterBoolean convertToInt : JSValue → JSValue).
(** [Utils.objectHasProperty], [Utils.isEmptyArray] *)
Context (objectHasProperty : JSValue → string → bool).
Context (isEmptyArray : JSValue → bool).
(** [Command.REMOTE_STOP_TRANSACTION] *)
Context (REMOTE_STOP_TRANSACTION : string).

(** [sanitize(request.key)] and [UtilsSecurity.filterBoolean(request.key)] *)
Definition sanitized (request : JSValue) (key : string) : Sync JSValue :=
  v <- get request key;;
  inr (sanitize v).

Definition boolean (request : JSValue) (key : string) : Sync JSValue :=
  v <- get request key;;
  inr (filterBoolean v).

(** [if (Utils.objectHasProperty(from, key)) { target[key] = convert(from[key]); }] *)
Definition copy (convert : JSValue → Sync JSValue) (from : JSValue) (key : string)
    (target : list (string * JSValue)) : Sync (list (string * JSValue)) :=
  if objectHasProperty from key then
    v <- get from key;;
    w <- convert v;;
    inr (assign key w target)
  else inr target.

Definition by_sanitize (v : JSValue) : Sync JSValue := inr (sanitize v).
Definition by_filterBoolean (v : JSValue) : Sync JSValue := inr (filterBoolean v).

Definition filterChargingStationLimitPowerRequest (request : JSValue) : Sync JSValue :=
  chargingStationID <- sanitized request "chargingStationID";;
  chargePointID <- sanitized request "chargePointID";;
  ampLimitValue <- sanitized request "ampLimitValue";;
  forceUpdateChargingPlan <- boolean request "forceUpdateChargingPlan";;
  inr (JObject [("chargingStationID", chargingStationID);
                ("chargePointID", chargePointID);
                ("ampLimitValue", ampLimitValue);
                ("forceUpdateChargingPlan", forceUpdateChargingPlan)]).

Definition filterChargingStationOcppParametersRequest (request : JSValue) : Sync JSValue :=
  ChargingStationID <- sanitized request "ChargingStationID";;
  inr (JObject [("ChargingStationID", ChargingStationID)]).

Definition filterChargingStationConnectorRequest (request : JSValue) : Sync JSValue :=
  ChargingStationID <- sanitized request "ChargingStationID";;
  ConnectorID <- sanitized request "ConnectorID";;
  inr (JObject [("ChargingStationID", ChargingStationID);
                ("ConnectorID", convertToInt ConnectorID)]).

Definition filterTriggerSmartCharging (request : JSValue) : Sync JSValue :=
  SiteAreaID <- sanitized request "SiteAreaID";;
  inr (JObject [("SiteAreaID", SiteAreaID)]).

Definition filterRequestChargingStationOcppParametersRequest (request : JSValue)
    : Sync JSValue :=
  chargingStationID <- sanitized request "chargingStationID";;
  forceUpdateOCPPParamsFromTemplate <- boolean request "forceUpdateOCPPParamsFromTemplate";;
  inr (JObject [("chargingStationID", chargingStationID);
                ("forceUpdateOCPPParamsFromTemplate", forceUpdateOCPPParamsFromTemplate)]).

(** [request.key ? convert(sanitize(request.key)) : null] *)
Definition or_null (convert : JSValue → JSValue) (request : JSValue) (key : string)
    : Sync JSValue :=
  v <- get request key;;
  if truthy v then
    w <- sanitized request key;;
    inr (convert w)
  else inr JNull.

Definition filterDownloadQrCodesPdfRequest (request : JSValue) : Sync JSValue :=
  ChargingStationID <- or_null (λ v, v) request "ChargingStationID";;
  ConnectorID <- or_null convertToInt request "ConnectorID";;
  SiteAreaID <- or_null (λ v, v) request "SiteAreaID";;
  SiteID <- or_null (λ v, v) request "SiteID";;
  inr (JObject [("ChargingStationID", ChargingStationID);
                ("ConnectorID", ConnectorID);
                ("SiteAreaID", SiteAreaID);
                ("SiteID", SiteID)]).

Definition filterChargingStationRequestByID (request : JSValue) : Sync JSValue :=
  sanitized request "ID".

Definition filterChargingProfileRequestByID (request : JSValue) : Sync JSValue :=
  sanitized request "ID".

Definition filterChargingStationSetMaxIntensitySocketRequest (request : JSValue)
    : Sync JSValue :=
  chargingStationID <- sanitized request "chargingStationID";;
  args <- get request "args";;
  maxIntensity <- (if truthy args then
                     args <- get request "args";;
                     sanitized args "maxIntensity"
                   else inr JNull);;
  inr (JObject [("chargingStationID", chargingStationID); ("maxIntensity", maxIntensity)]).

(** The object the first statement of [filterIsAuthorizedRequest] builds. *)
Definition authorization (request : JSValue) : Sync (list (string * JSValue)) :=
  Action <- sanitized request "Action";;
  Arg1 <- sanitized request "Arg1";;
  Arg2 <- sanitized request "Arg2";;
  Arg3 <- sanitized request "Arg3";;
  inr [("Action", Action); ("Arg1", Arg1); ("Arg2", Arg2); ("Arg3", Arg3)].

Definition filterIsAuthorizedRequest (request : JSValue) : Sync JSValue :=
  filteredRequest <- authorization request;;
  let filteredRequest :=
    if is_string (property "Action" filteredRequest) REMOTE_STOP_TRANSACTION
    then assign "Action" (JString REMOTE_STOP_TRANSACTION) filteredRequest
    else filteredRequest in
  inr (JObject filteredRequest).

Definition filterChargingStationGetFirmwareRequest (request : JSValue) : Sync JSValue :=
  FileName <- sanitized request "FileName";;
  inr (JObject [("FileName", FileName)]).

(** The body of the loop over the schedule periods. *)
Definition filterChargingSchedulePeriod (chargingSchedulePeriod : JSValue) : Sync JSValue :=
  chargingSchedulePeriodNew <- copy by_sanitize chargingSchedulePeriod "startPeriod" [];;
  chargingSchedulePeriodNew <-
    copy by_sanitize chargingSchedulePeriod "limit" chargingSchedulePeriodNew;;
  chargingSchedulePeriodNew <-
    copy by_sanitize chargingSchedulePeriod "numberPhases" chargingSchedulePeriodNew;;
  inr (JObject chargingSchedulePeriodNew).

(** The part of [filterChargingProfileRequest] that fills [chargingSchedule]
    from [request.chargingSchedule]. *)
Definition filterChargingSchedule (requestSchedule : JSValue)
    : Sync (list (string * JSValue)) :=
  chargingSchedule <- copy by_sanitize requestSchedule "duration" [];;
  chargingSchedule <- copy by_sanitize requestSchedule "startSchedule" chargingSchedule;;
  chargingSchedule <- copy by_sanitize requestSchedule "chargingRateUnit" chargingSchedule;;
  chargingSchedule <- copy by_sanitize requestSchedule "minChargeRate" chargingSchedule;;
  if objectHasProperty requestSchedule "chargingSchedulePeriod" then
    periods <- get requestSchedule "chargingSchedulePeriod";;
    elements <- iterate periods;;
    news <- traverse filterChargingSchedulePeriod elements;;
    inr (assign "chargingSchedulePeriod" (JArray news) chargingSchedule)
  else inr chargingSchedule.

Definition filterChargingProfileRequest (request : JSValue) : Sync JSValue :=
  filteredRequest <- copy by_sanitize request "chargingProfileId" [];;
  filteredRequest <- copy by_sanitize request "transactionId" filteredRequest;;
  filteredRequest <- copy by_sanitize request "stackLevel" filteredRequest;;
  filteredRequest <- copy by_sanitize request "chargingProfilePurpose" filteredRequest;;
  filteredRequest <- copy by_sanitize request "chargingProfileKind" filteredRequest;;
  filteredRequest <- copy by_sanitize request "recurrencyKind" filteredRequest;;
  filteredRequest <- copy by_sanitize request "validFrom" filteredRequest;;
  filteredRequest <- copy by_sanitize request "validTo" filteredRequest;;
  filteredRequest <-
    (if objectHasProperty request "chargingSchedule" then
       requestSchedule <- get request "chargingSchedule";;
       chargingSchedule <- filterChargingSchedule requestSchedule;;
       inr (assign "chargingSchedule" (JObject chargingSchedule) filteredRequest)
     else inr filteredRequest);;
  inr (JObject filteredRequest).

Definition filterChargingProfileUpdateRequest (request : JSValue) : Sync JSValue :=
  filteredRequest <- copy by_sanitize request "id" [];;
  filteredRequest <- copy by_sanitize request "chargingStationID" filteredRequest;;
  filteredRequest <- copy by_sanitize request "connectorID" filteredRequest;;
  filteredRequest <- copy by_sanitize request "chargePointID" filteredRequest;;
  filteredRequest <- copy filterChargingProfileRequest request "profile" filteredRequest;;
  inr (JObject filteredRequest).

(** The part of [filterChargingStationActionRequest] that fills
    [filteredRequest.args] from [request.args]. *)
Definition filterArgs (requestArgs : JSValue) : Sync (list (string * JSValue)) :=
  args <- copy by_sanitize requestArgs "type" [];;
  args <- copy by_sanitize requestArgs "key" args;;
  args <- copy by_sanitize requestArgs "value" args;;
  args <- copy by_filterBoolean requestArgs "custom" args;;
  args <- copy by_sanitize requestArgs "connectorId" args;;
  args <- copy by_sanitize requestArgs "duration" args;;
  args <- copy by_sanitize requestArgs "chargingRateUnit" args;;
  args <- copy by_sanitize requestArgs "chargingProfilePurpose" args;;
  args <- copy by_sanitize requestArgs "stackLevel" args;;
  args <- copy by_sanitize requestArgs "tagID" args;;
  args <- copy by_sanitize requestArgs "location" args;;
  args <- copy by_sanitize requestArgs "retries" args;;
  args <- copy by_sanitize requestArgs "retryInterval" args;;
  args <- copy by_sanitize requestArgs "startTime" args;;
  args <- copy by_sanitize requestArgs "stopTime" args;;
  args <- copy by_sanitize requestArgs "retrieveDate" args;;
  args <- copy by_sanitize requestArgs "transactionId" args;;
  copy filterChargingProfileRequest requestArgs "csChargingProfiles" args.

Definition filterChargingStationActionRequest (request : JSValue) : Sync JSValue :=
  chargingStationID <- sanitized request "chargingStationID";;
  let filteredRequest := assign "chargingStationID" chargingStationID [] in
  filteredRequest <- copy by_sanitize request "carID" filteredRequest;;
  filteredRequest <-
    (if objectHasProperty request "args" then
       requestArgs <- get request "args";;
       args <- filterArgs requestArgs;;
       inr (assign "args" (JObject args) filteredRequest)
     else inr filteredRequest);;
  inr (JObject filteredRequest).

(** The callbacks that [filterChargingStationParamsUpdateRequest] maps over
    the connectors and the charge points. *)
Definition filterConnector (connector : JSValue) : Sync JSValue :=
  if truthy connector then
    connectorId <- sanitized connector "connectorId";;
    power <- sanitized connector "power";;
    type <- sanitized connector "type";;
    voltage <- sanitized connector "voltage";;
    amperage <- sanitized connector "amperage";;
    currentType <- sanitized connector "currentType";;
    numberOfConnectedPhase <- sanitized connector "numberOfConnectedPhase";;
    phaseAssignmentToGrid <- sanitized connector "phaseAssignmentToGrid";;
    inr (JObject [("connectorId", connectorId); ("power", power); ("type", type);
                  ("voltage", voltage); ("amperage", amperage);
                  ("currentType", currentType);
                  ("numberOfConnectedPhase", numberOfConnectedPhase);
                  ("phaseAssignmentToGrid", phaseAssignmentToGrid)])
  else inr JNull.

Definition filterChargePoint (chargePoint : JSValue) : Sync JSValue :=
  if truthy chargePoint then
    chargePointID <- sanitized chargePoint "chargePointID";;
    currentType <- sanitized chargePoint "currentType";;
    voltage <- sanitized chargePoint "voltage";;
    amperage <- sanitized chargePoint "amperage";;
    numberOfConnectedPhase <- sanitized chargePoint "numberOfConnectedPhase";;
    cannotChargeInParallel <- sanitized chargePoint "cannotChargeInParallel";;
    sharePowerToAllConnectors <- sanitized chargePoint "sharePowerToAllConnectors";;
    excludeFromPowerLimitation <- sanitized chargePoint "excludeFromPowerLimitation";;
    ocppParamForPowerLimitation <- sanitized chargePoint "ocppParamForPowerLimitation";;
    power <- sanitized chargePoint "power";;
    efficiency <- sanitized chargePoint "efficiency";;
    connectorIDs <- get chargePoint "connectorIDs";;
    connectorIDs <- map_of connectorIDs by_sanitize;;
    inr (JObject [("chargePointID", chargePointID); ("currentType", currentType);
                  ("voltage", voltage); ("amperage", amperage);
                  ("numberOfConnectedPhase", numberOfConnectedPhase);
                  ("cannotChargeInParallel", cannotChargeInParallel);
                  ("sharePowerToAllConnectors", sharePowerToAllConnectors);
                  ("excludeFromPowerLimitation", excludeFromPowerLimitation);
                  ("ocppParamForPowerLimitation", ocppParamForPowerLimitation);
                  ("power", power); ("efficiency", efficiency);
                  ("connectorIDs", connectorIDs)])
  else inr JNull.

(** [if (Utils.objectHasProperty(request, key) &&
         !Utils.isEmptyArray(request[key])) { target[key] = request[key].map(f); }] *)
Definition copy_mapped (f : JSValue → Sync JSValue) (request : JSValue) (key : string)
    (target : list (string * JSValue)) : Sync (list (string * JSValue)) :=
  if objectHasProperty request key then
    array <- get request key;;
    if negb (isEmptyArray array) then
      array <- get request key;;
      mapped <- map_of array f;;
      inr (assign key mapped target)
    else inr target
  else inr target.

(** [if (Utils.objectHasProperty(request, 'coordinates') &&
         !Utils.isEmptyArray(request.coordinates) &&
         request.coordinates.length === 2) { target.coordinates = [...]; }] *)
Definition copy_coordinates (request : JSValue) (target : list (string * JSValue))
    : Sync (list (string * JSValue)) :=
  if objectHasProperty request "coordinates" then
    coordinates <- get request "coordinates";;
    if negb (isEmptyArray coordinates) then
      coordinates <- get request "coordinates";;
      length <- get coordinates "length";;
      if is_number length 2 then
        coordinates <- get request "coordinates";;
        first <- at_index coordinates 0;;
        coordinates <- get request "coordinates";;
        second <- at_index coordinates 1;;
        inr (assign "coordinates" (JArray [sanitize first; sanitize second]) target)
      else inr target
    else inr target
  else inr target.

Definition filterChargingStationParamsUpdateRequest (request : JSValue) : Sync JSValue :=
  id <- sanitized request "id";;
  let filteredRequest := assign "id" id [] in
  filteredRequest <- copy by_sanitize request "chargingStationURL" filteredRequest;;
  filteredRequest <- copy by_sanitize request "maximumPower" filteredRequest;;
  filteredRequest <- copy by_filterBoolean request "excludeFromSmartCharging" filteredRequest;;
  filteredRequest <- copy by_filterBoolean request "forceInactive" filteredRequest;;
  filteredRequest <- copy by_filterBoolean request "manualConfiguration" filteredRequest;;
  filteredRequest <- copy by_filterBoolean request "public" filteredRequest;;
  filteredRequest <- copy by_sanitize request "siteAreaID" filteredRequest;;
  filteredRequest <- copy_coordinates request filteredRequest;;
  filteredRequest <- copy_mapped filterConnector request "connectors" filteredRequest;;
  filteredRequest <- copy_mapped filterChargePoint request "chargePoints" filteredRequest;;
  inr (JObject filteredRequest).

(** *** What the filters throw *)

Definition nullish (v : JSValue) : Prop := v = JUndefined ∨ v = JNull.

Definition throws {A} (m : Sync A) : Prop := ∃ message, m = inl (TypeError message).

(** The filters whose body is one object literal or one expression. *)
Definition literal_filters : list (JSValue → Sync JSValue) :=
  [filterChargingStationLimitPowerRequest;
   filterChargingStationOcppParametersRequest;
   filterChargingStationConnectorRequest;
   filterTriggerSmartCharging;
   filterRequestChargingStationOcppParametersRequest;
   filterDownloadQrCodesPdfRequest;
   filterChargingStationRequestByID;
   filterChargingProfileRequestByID;
   filterChargingStationSetMaxIntensitySocketRequest;
   filterIsAuthorizedRequest;
   filterChargingStationGetFirmwareRequest].

Lemma sync_bind_inr {A B} (m : Sync A) (k : A → Sync B) (b : B) :
  sync_bind m k = inr b → ∃ a, m = inr a ∧ k a = inr b.
Proof. destruct m as [e|a]; [done|]. intros H. by exists a. Qed.

Lemma get_truthy (v : JSValue) (key : string) :
  truthy v = true → ∃ w, get v key = inr w.
Proof. destruct v; try done; intros _; by eexists. Qed.

Lemma get_nullish (v : JSValue) (key : string) :
  nullish v → throws (get v key).
Proof. intros [-> | ->]; by eexists. Qed.

Lemma get_returns (v : JSValue) (key : string) :
  ¬ nullish v → ∃ w, get v key = inr w.
Proof.
  intros Hv. destruct v; try (by eexists); exfalso; apply Hv; first [by left | by right].
Qed.

Lemma sanitized_returns (v : JSValue) (key : string) :
  ¬ nullish v → ∃ w, sanitized v key = inr w.
Proof.
  intros Hv. destruct (get_returns v key Hv) as [w Hw].
  unfold sanitized. rewrite Hw. by eexists.
Qed.

Lemma boolean_returns (v : JSValue) (key : string) :
  ¬ nullish v → ∃ w, boolean v key = inr w.
Proof.
  intros Hv. destruct (get_returns v key Hv) as [w Hw].
  unfold boolean. rewrite Hw. by eexists.
Qed.

Lemma or_null_returns (convert : JSValue → JSValue) (v : JSValue) (key : string) :
  ¬ nullish v → ∃ w, or_null convert v key = inr w.
Proof.
  intros Hv. destruct (get_returns v key Hv) as [w Hw].
  unfold or_null, sanitized. rewrite Hw. cbn.
  destruct (truthy w); by eexists.
Qed.

Lemma truthy_not_nullish (v : JSValue) : truthy v = true → ¬ nullish v.
Proof. by intros Hv [-> | ->]. Qed.

Ltac returning Hv :=
  repeat match goal with
    | |- context [sanitized ?v ?k] =>
        destruct (sanitized_returns v k Hv) as [? ->]; cbn [sync_bind]
    | |- context [boolean ?v ?k] =>
        destruct (boolean_returns v k Hv) as [? ->]; cbn [sync_bind]
    | |- context [or_null ?c ?v ?k] =>
        destruct (or_null_returns c v k Hv) as [? ->]; cbn [sync_bind]
    end.

Ltac without_request :=
  intros [-> | ->]; by eexists.

(** Each of the filters that build their result in one expression
    throws a [TypeError] when the request is [null] or [undefined], and
    returns for every other request, whatever the request holds. *)
Theorem literal_filters_need_a_request :
  Forall (λ filter : JSValue → Sync JSValue,
            ∀ request,
              (nullish request → throws (filter request)) ∧
              (¬ nullish request → ∃ filtered, filter request = inr filtered))
         literal_filters.
Proof.
  unfold literal_filters.
  repeat apply List.Forall_cons; try apply List.Forall_nil; intros request;
    (split; [without_request | intros Hv]).
  - unfold filterChargingStationLimitPowerRequest. returning Hv. by eexists.
  - unfold filterChargingStationOcppParametersRequest. returning Hv. by eexists.
  - unfold filterChargingStationConnectorRequest. returning Hv. by eexists.
  - unfold filterTriggerSmartCharging. returning Hv. by eexists.
  - unfold filterRequestChargingStationOcppParametersRequest. returning Hv. by eexists.
  - unfold filterDownloadQrCodesPdfRequest. returning Hv. by eexists.
  - unfold filterChargingStationRequestByID. returning Hv. by eexists.
  - unfold filterChargingProfileRequestByID. returning Hv. by eexists.
  - unfold filterChargingStationSetMaxIntensitySocketRequest. returning Hv.
    destruct (get_returns request "args" Hv) as [args Hargs].
    rewrite Hargs. cbn [sync_bind].
    destruct (truthy args) eqn:Htruthy; [|by eexists].
    destruct (sanitized_returns args "maxIntensity" (truthy_not_nullish _ Htruthy))
      as [? ->].
    by eexists.
  - unfold filterIsAuthorizedRequest, authorization. returning Hv. by eexists.
  - unfold filterChargingStationGetFirmwareRequest. returning Hv. by eexists.
Qed.

Lemma assign_same (key : string) (v : JSValue) (target : list (string * JSValue)) :
  key ∈ keys target → property key target = v → assign key v target = target.
Proof.
  induction target as [|[k w] rest IH]; [by intros ?%elem_of_nil|].
  cbn. case_bool_decide as Hk.
  - intros _ ->. by subst.
  - intros Hin Hv. f_equal. apply IH; [|done].
    apply elem_of_cons in Hin as [?|?]; [by subst|done].
Qed.

(** The comparison of the action with the remote-stop command in
    [filterIsAuthorizedRequest] changes nothing: the result is the object
    of the four sanitised properties, whatever the action is. *)
Theorem filterIsAuthorizedRequest_is_the_literal (request : JSValue) :
  filterIsAuthorizedRequest request =
  (filteredRequest <- authorization request;; inr (JObject filteredRequest)).
Proof.
  unfold filterIsAuthorizedRequest.
  destruct (authorization request) as [e|filteredRequest] eqn:Hauth; [done|].
  cbn [sync_bind]. do 2 f_equal.
  destruct (is_string _ _) eqn:Haction; [|done].
  apply assign_same.
  - unfold authorization in Hauth.
    repeat (apply sync_bind_inr in Hauth as (? & _ & Hauth)).
    injection Hauth as <-. cbn. apply elem_of_cons. by left.
  - destruct (property "Action" filteredRequest); try done.
    cbn in Haction. by apply bool_decide_eq_true_1 in Haction as ->.
Qed.

(** *** What the filters keep *)

(** [entry] is the property [entry.1] of [from], converted by the converter
    of its key. *)
Definition copied (convert : string → JSValue → Sync JSValue) (from : JSValue)
    (entry : string * JSValue) : Prop :=
  ∃ w, get from entry.1 = inr w ∧ convert entry.1 w = inr entry.2.

(** [props] holds the properties of [allowed] that [from] has, in the order
    of [allowed], each one converted. *)
Definition picked (convert : string → JSValue → Sync JSValue) (from : JSValue)
    (allowed : list string) (props : list (string * JSValue)) : Prop :=
  keys props = List.filter (objectHasProperty from) allowed ∧
  Forall (copied convert from) props.

Definition period_keys : list string := ["startPeriod"; "limit"; "numberPhases"].

Definition schedule_keys : list string :=
  ["duration"; "startSchedule"; "chargingRateUnit"; "minChargeRate";
   "chargingSchedulePeriod"].

Definition profile_keys : list string :=
  ["chargingProfileId"; "transactionId"; "stackLevel"; "chargingProfilePurpose";
   "chargingProfileKind"; "recurrencyKind"; "validFrom"; "validTo"; "chargingSchedule"].

(** What becomes of [request.chargingSchedule.chargingSchedulePeriod] and of
    [request.chargingSchedule]. *)
Definition periods_of (periods : JSValue) : Sync JSValue :=
  elements <- iterate periods;;
  news <- traverse filterChargingSchedulePeriod elements;;
  inr (JArray news).

Definition schedule_of (requestSchedule : JSValue) : Sync JSValue :=
  chargingSchedule <- filterChargingSchedule requestSchedule;;
  inr (JObject chargingSchedule).

Definition period_convert (key : string) : JSValue → Sync JSValue := by_sanitize.

Definition schedule_convert (key : string) : JSValue → Sync JSValue :=
  if bool_decide (key = "chargingSchedulePeriod") then periods_of else by_sanitize.

Definition profile_convert (key : string) : JSValue → Sync JSValue :=
  if bool_decide (key = "chargingSchedule") then schedule_of else by_sanitize.

Lemma keys_app (l1 l2 : list (string * JSValue)) : keys (l1 ++ l2) = keys l1 ++ keys l2.
Proof. unfold keys. apply fmap_app. Qed.

Lemma assign_fresh (key : string) (v : JSValue) (target : list (string * JSValue)) :
  key ∉ keys target → assign key v target = target ++ [(key, v)].
Proof.
  induction target as [|[k w] rest IH]; [done|].
  cbn. intros Hfresh. apply not_elem_of_cons in Hfresh as [Hne Hfresh].
  rewrite bool_decide_eq_false_2 by done. f_equal. by apply IH.
Qed.

Lemma filter_allowed (has : string → bool) (allowed : list string) (key : string) :
  key ∈ List.filter has allowed → key ∈ allowed ∧ has key = true.
Proof. rewrite !list_elem_of_In. apply List.filter_In. Qed.

Lemma copy_picked (convert : string → JSValue → Sync JSValue) (from : JSValue)
    (pre : list (string * JSValue)) (allowed : list string) (key : string)
    (c : JSValue → Sync JSValue) (target target' : list (string * JSValue)) :
  key ∉ keys pre → key ∉ allowed → convert key = c →
  picked convert from allowed target →
  copy c from key (pre ++ target) = inr target' →
  ∃ rest, target' = pre ++ rest ∧ picked convert from (allowed ++ [key]) rest.
Proof.
  intros Hpre Hallowed <- [Hkeys Hcopied]. unfold copy.
  destruct (objectHasProperty from key) eqn:Hhas.
  - intros (w & Hw & (v & Hv & [= <-])%sync_bind_inr)%sync_bind_inr.
    exists (target ++ [(key, v)]). split.
    + rewrite assign_fresh, app_assoc; [done|].
      rewrite keys_app, Hkeys. intros [?|[? _]%filter_allowed]%elem_of_app; done.
    + split.
      * rewrite keys_app, List.filter_app, Hkeys. cbn. by rewrite Hhas.
      * apply Forall_app. split; [done|]. apply Forall_singleton. by exists w.
  - intros [= <-]. exists target. split; [done|]. split; [|done].
    rewrite List.filter_app, Hkeys. cbn. by rewrite Hhas, app_nil_r.
Qed.

Lemma picked_nil (convert : string → JSValue → Sync JSValue) (from : JSValue) :
  picked convert from [] [].
Proof. by split. Qed.

Lemma copy_nested {A} (inner : JSValue → Sync A) (wrap : A → JSValue) (from : JSValue)
    (key : string) (target : list (string * JSValue)) :
  (if objectHasProperty from key then
     v <- get from key;;
     a <- inner v;;
     inr (assign key (wrap a) target)
   else inr target) =
  copy (λ v, a <- inner v;; inr (wrap a)) from key target.
Proof.
  unfold copy. destruct (objectHasProperty from key); [|done].
  destruct (get from key) as [|v]; [done|]. cbn. by destruct (inner v).
Qed.

Lemma copy_periods (requestSchedule : JSValue) (chargingSchedule : list (string * JSValue)) :
  (if objectHasProperty requestSchedule "chargingSchedulePeriod" then
     periods <- get requestSchedule "chargingSchedulePeriod";;
     elements <- iterate periods;;
     news <- traverse filterChargingSchedulePeriod elements;;
     inr (assign "chargingSchedulePeriod" (JArray news) chargingSchedule)
   else inr chargingSchedule) =
  copy periods_of requestSchedule "chargingSchedulePeriod" chargingSchedule.
Proof.
  unfold copy, periods_of. destruct (objectHasProperty _ _); [|done].
  destruct (get _ _) as [|periods]; [done|]. cbn.
  destruct (iterate periods) as [|elements]; [done|]. cbn.
  by destruct (traverse _ elements).
Qed.

Ltac fresh_key := by apply (bool_decide_unpack _); vm_compute.

Ltac pick pre :=
  match goal with
  | Hp : picked ?convert ?from ?allowed ?target,
    H : sync_bind (copy ?c ?from ?key _) _ = inr _ |- _ =>
      let t := fresh "t" in
      let Hc := fresh "Hc" in
      apply sync_bind_inr in H as (t & Hc & H);
      destruct (copy_picked convert from pre allowed key c target t) as (? & -> & ?);
      [fresh_key | fresh_key | reflexivity | exact Hp | exact Hc | clear Hp Hc];
      cbv beta in H
  end.

Ltac pick_last pre :=
  match goal with
  | Hp : picked ?convert ?from ?allowed ?target,
    H : copy ?c ?from ?key _ = inr ?t |- _ =>
      destruct (copy_picked convert from pre allowed key c target t) as (? & -> & ?);
      [fresh_key | fresh_key | reflexivity | exact Hp | exact H | clear Hp H]
  end.

Lemma filterChargingSchedulePeriod_picked (chargingSchedulePeriod filtered : JSValue) :
  filterChargingSchedulePeriod chargingSchedulePeriod = inr filtered →
  ∃ props, filtered = JObject props ∧
           picked period_convert chargingSchedulePeriod period_keys props.
Proof.
  unfold filterChargingSchedulePeriod. intros H.
  pose proof (picked_nil period_convert chargingSchedulePeriod).
  do 3 pick (@nil (string * JSValue)).
  injection H as <-. by eexists.
Qed.

Lemma filterChargingSchedule_picked (requestSchedule : JSValue)
    (chargingSchedule : list (string * JSValue)) :
  filterChargingSchedule requestSchedule = inr chargingSchedule →
  picked schedule_convert requestSchedule schedule_keys chargingSchedule.
Proof.
  unfold filterChargingSchedule. intros H.
  pose proof (picked_nil schedule_convert requestSchedule).
  do 4 pick (@nil (string * JSValue)).
  rewrite copy_periods in H.
  pick_last (@nil (string * JSValue)). done.
Qed.

Lemma filterChargingProfileRequest_picked (request filtered : JSValue) :
  filterChargingProfileRequest request = inr filtered →
  ∃ props, filtered = JObject props ∧ picked profile_convert request profile_keys props.
Proof.
  unfold filterChargingProfileRequest. intros H.
  pose proof (picked_nil profile_convert request).
  do 8 pick (@nil (string * JSValue)).
  rewrite (copy_nested filterChargingSchedule JObject) in H.
  pick (@nil (string * JSValue)).
  injection H as <-. by eexists.
Qed.

Lemma property_elem (key : string) (v : JSValue) (props : list (string * JSValue)) :
  NoDup (keys props) → (key, v) ∈ props → property key props = v.
Proof.
  induction props as [|[k w] rest IH]; [by intros _ ?%elem_of_nil|].
  cbn. intros [Hk Hrest]%NoDup_cons [[= -> ->]|Hin]%elem_of_cons.
  - by rewrite bool_decide_eq_true_2.
  - rewrite bool_decide_eq_false_2; [by apply IH|].
    intros ->. apply Hk. unfold keys. apply list_elem_of_fmap. by exists (key, v).
Qed.

Lemma NoDup_filter_allowed (has : string → bool) (allowed : list string) :
  NoDup allowed → NoDup (List.filter has allowed).
Proof. rewrite !NoDup_ListNoDup. apply List.NoDup_filter. Qed.

Lemma picked_elem (convert : string → JSValue → Sync JSValue) (from : JSValue)
    (allowed : list string) (props : list (string * JSValue)) (key : string) (v : JSValue) :
  picked convert from allowed props → (key, v) ∈ props →
  ∃ w, get from key = inr w ∧ convert key w = inr v.
Proof.
  intros [_ Hcopied] Hin.
  by apply (proj1 (Forall_forall _ _) Hcopied) in Hin.
Qed.

Lemma picked_property (convert : string → JSValue → Sync JSValue) (from : JSValue)
    (allowed : list string) (props : list (string * JSValue)) (key : string) :
  picked convert from allowed props → NoDup allowed →
  key ∈ allowed → objectHasProperty from key = true →
  ∃ w, get from key = inr w ∧ convert key w = inr (property key props).
Proof.
  intros Hpicked Hnodup Hallowed Hhas.
  assert (key ∈ keys props) as Hkey.
  { destruct Hpicked as [-> _]. rewrite list_elem_of_In. apply List.filter_In.
    by rewrite <- list_elem_of_In. }
  unfold keys in Hkey. apply list_elem_of_fmap in Hkey as ([k v] & -> & Hin).
  cbn. destruct (picked_elem _ _ _ _ _ _ Hpicked Hin) as (w & Hw & Hv).
  exists w. split; [done|]. rewrite (property_elem k v); [done| |done].
  destruct Hpicked as [-> _]. by apply NoDup_filter_allowed.
Qed.

Lemma traverse_Forall2 {A B} (f : A → Sync B) (l : list A) (l' : list B) :
  traverse f l = inr l' → Forall2 (λ a b, f a = inr b) l l'.
Proof.
  revert l'. induction l as [|a l IH]; intros l'; cbn.
  - intros [= <-]. constructor.
  - intros (b & Hb & (bs & Hbs & [= <-])%sync_bind_inr)%sync_bind_inr.
    constructor; [done|]. by apply IH.
Qed.

Lemma profile_keys_NoDup : NoDup profile_keys.
Proof. apply (bool_decide_unpack _). by vm_compute. Qed.

Lemma schedule_keys_NoDup : NoDup schedule_keys.
Proof. apply (bool_decide_unpack _). by vm_compute. Qed.

(** When [filterChargingProfileRequest] returns, its result has the
    properties of the profile that the request has, in the order in which
    the filter tests them, and no other; each one but the schedule is the
    sanitised property of the request. *)
Theorem filterChargingProfileRequest_keeps_the_profile (request filtered : JSValue) :
  filterChargingProfileRequest request = inr filtered →
  ∃ props,
    filtered = JObject props ∧
    keys props = List.filter (objectHasProperty request) profile_keys ∧
    ∀ key value,
      (key, value) ∈ props → key ≠ "chargingSchedule" →
      ∃ w, get request key = inr w ∧ value = sanitize w.
Proof.
  intros (props & -> & Hpicked)%filterChargingProfileRequest_picked.
  exists props. split_and!; [done|apply Hpicked|].
  intros key value Hin Hkey.
  destruct (picked_elem _ _ _ _ _ _ Hpicked Hin) as (w & Hw & Hvalue).
  exists w. split; [done|].
  unfold profile_convert in Hvalue. rewrite bool_decide_eq_false_2 in Hvalue by done.
  by injection Hvalue.
Qed.

(** The schedule of the result is built from the schedule of the
    request in the same way: the properties of the schedule that the
    request's schedule has, each one but the periods sanitised. *)
Theorem filterChargingProfileRequest_keeps_the_schedule (request filtered : JSValue) :
  filterChargingProfileRequest request = inr filtered →
  objectHasProperty request "chargingSchedule" = true →
  ∃ requestSchedule chargingSchedule,
    get request "chargingSchedule" = inr requestSchedule ∧
    get filtered "chargingSchedule" = inr (JObject chargingSchedule) ∧
    keys chargingSchedule =
      List.filter (objectHasProperty requestSchedule) schedule_keys ∧
    ∀ key value,
      (key, value) ∈ chargingSchedule → key ≠ "chargingSchedulePeriod" →
      ∃ w, get requestSchedule key = inr w ∧ value = sanitize w.
Proof.
  intros (props & -> & Hpicked)%filterChargingProfileRequest_picked Hhas.
  destruct (picked_property _ _ _ _ "chargingSchedule" Hpicked profile_keys_NoDup)
    as (requestSchedule & Hget & Hschedule); [fresh_key|done|].
  change (profile_convert "chargingSchedule") with schedule_of in Hschedule.
  unfold schedule_of in Hschedule.
  apply sync_bind_inr in Hschedule as (chargingSchedule & Hfilter & [= Hproperty]).
  apply filterChargingSchedule_picked in Hfilter as Hinner.
  exists requestSchedule, chargingSchedule.
  split_and!; [done|by cbn; rewrite <- Hproperty|apply Hinner|].
  intros key value Hin Hkey.
  destruct (picked_elem _ _ _ _ _ _ Hinner Hin) as (w & Hw & Hvalue).
  exists w. split; [done|].
  unfold schedule_convert in Hvalue. rewrite bool_decide_eq_false_2 in Hvalue by done.
  by injection Hvalue.
Qed.

(** The periods of the result are the periods of the request one for
    one, in order: [filterChargingProfileRequest] returns only when the
    periods of the request can be iterated, and each period of the result
    has the properties among [startPeriod], [limit] and [numberPhases]
    that the period of the request at the same position has, sanitised. *)
Theorem filterChargingProfileRequest_keeps_the_periods
    (request filtered requestSchedule : JSValue) :
  filterChargingProfileRequest request = inr filtered →
  objectHasProperty request "chargingSchedule" = true →
  get request "chargingSchedule" = inr requestSchedule →
  objectHasProperty requestSchedule "chargingSchedulePeriod" = true →
  ∃ periods elements chargingSchedule news,
    get requestSchedule "chargingSchedulePeriod" = inr periods ∧
    iterate periods = inr elements ∧
    get filtered "chargingSchedule" = inr (JObject chargingSchedule) ∧
    property "chargingSchedulePeriod" chargingSchedule = JArray news ∧
    Forall2 (λ period new,
               ∃ props,
                 new = JObject props ∧
                 keys props = List.filter (objectHasProperty period) period_keys ∧
                 ∀ key value,
                   (key, value) ∈ props →
                   ∃ w, get period key = inr w ∧ value = sanitize w)
            elements news.
Proof.
  intros (props & -> & Hpicked)%filterChargingProfileRequest_picked Hhas Hget Hperiods.
  destruct (picked_property _ _ _ _ "chargingSchedule" Hpicked profile_keys_NoDup)
    as (requestSchedule' & Hget' & Hschedule); [fresh_key|done|].
  rewrite Hget in Hget'. injection Hget' as <-.
  change (profile_convert "chargingSchedule") with schedule_of in Hschedule.
  unfold schedule_of in Hschedule.
  apply sync_bind_inr in Hschedule as (chargingSchedule & Hfilter & [= Hproperty]).
  apply filterChargingSchedule_picked in Hfilter as Hinner.
  destruct (picked_property _ _ _ _ "chargingSchedulePeriod" Hinner schedule_keys_NoDup)
    as (periods & Hperiod & Hnews); [fresh_key|done|].
  change (schedule_convert "chargingSchedulePeriod") with periods_of in Hnews.
  unfold periods_of in Hnews.
  apply sync_bind_inr in Hnews as (elements & Helements & Hnews).
  apply sync_bind_inr in Hnews as (news & Htraverse & [= Hnews]).
  exists periods, elements, chargingSchedule, news.
  split_and!; [done|done|by cbn; rewrite <- Hproperty|done|].
  apply traverse_Forall2 in Htraverse.
  eapply Forall2_impl; [exact Htraverse|].
  intros period new (fields & -> & Hfields)%filterChargingSchedulePeriod_picked.
  exists fields. split_and!; [done|apply Hfields|].
  intros key value Hin.
  destruct (picked_elem _ _ _ _ _ _ Hfields Hin) as (w & Hw & Hvalue).
  exists w. split; [done|]. by injection Hvalue.
Qed.

Definition update_keys : list string :=
  ["id"; "chargingStationID"; "connectorID"; "chargePointID"; "profile"].

Definition update_convert (key : string) : JSValue → Sync JSValue :=
  if bool_decide (key = "profile") then filterChargingProfileRequest else by_sanitize.

Lemma filterChargingProfileUpdateRequest_picked (request filtered : JSValue) :
  filterChargingProfileUpdateRequest request = inr filtered →
  ∃ props, filtered = JObject props ∧ picked update_convert request update_keys props.
Proof.
  unfold filterChargingProfileUpdateRequest. intros H.
  pose proof (picked_nil update_convert request).
  do 5 pick (@nil (string * JSValue)).
  injection H as <-. by eexists.
Qed.

(** When [filterChargingProfileUpdateRequest] returns, its result has
    the properties among [id], [chargingStationID], [connectorID],
    [chargePointID] and [profile] that the request has, in that order; the
    first four are sanitised, and [profile] is what
    [filterChargingProfileRequest] returns for the profile of the request. *)
Theorem filterChargingProfileUpdateRequest_keeps_the_update (request filtered : JSValue) :
  filterChargingProfileUpdateRequest request = inr filtered →
  ∃ props,
    filtered = JObject props ∧
    keys props = List.filter (objectHasProperty request) update_keys ∧
    (∀ key value,
       (key, value) ∈ props → key ≠ "profile" →
       ∃ w, get request key = inr w ∧ value = sanitize w) ∧
    (∀ profile,
       ("profile", profile) ∈ props →
       ∃ w, get request "profile" = inr w ∧
            filterChargingProfileRequest w = inr profile).
Proof.
  intros (props & -> & Hpicked)%filterChargingProfileUpdateRequest_picked.
  exists props. split_and!; [done|apply Hpicked| |].
  - intros key value Hin Hkey.
    destruct (picked_elem _ _ _ _ _ _ Hpicked Hin) as (w & Hw & Hvalue).
    exists w. split; [done|].
    unfold update_convert in Hvalue. rewrite bool_decide_eq_false_2 in Hvalue by done.
    by injection Hvalue.
  - intros profile Hin.
    by destruct (picked_elem _ _ _ _ _ _ Hpicked Hin) as (w & Hw & Hvalue); exists w.
Qed.

Lemma get_inr_not_nullish (v : JSValue) (key : string) (w : JSValue) :
  get v key = inr w → ¬ nullish v.
Proof. by intros Hget [-> | ->]. Qed.

Lemma copy_by_sanitize_returns (from : JSValue) (key : string)
    (target : list (string * JSValue)) :
  ¬ nullish from → ∃ target', copy by_sanitize from key target = inr target'.
Proof.
  intros Hv. unfold copy. destruct (objectHasProperty from key); [|by eexists].
  destruct (get_returns from key Hv) as [w ->]. by eexists.
Qed.

Lemma copy_by_filterBoolean_returns (from : JSValue) (key : string)
    (target : list (string * JSValue)) :
  ¬ nullish from → ∃ target', copy by_filterBoolean from key target = inr target'.
Proof.
  intros Hv. unfold copy. destruct (objectHasProperty from key); [|by eexists].
  destruct (get_returns from key Hv) as [w ->]. by eexists.
Qed.

Ltac copying Hv :=
  repeat match goal with
    | |- context [copy by_sanitize ?from ?key ?target] =>
        destruct (copy_by_sanitize_returns from key target Hv) as [? ->];
        cbn [sync_bind]
    | |- context [copy by_filterBoolean ?from ?key ?target] =>
        destruct (copy_by_filterBoolean_returns from key target Hv) as [? ->];
        cbn [sync_bind]
    end.

(** A profile that [filterChargingProfileRequest] rejects makes
    [filterChargingProfileUpdateRequest] throw the same exception: the
    properties filtered before it are dropped with the result. *)
Theorem filterChargingProfileUpdateRequest_fails_with_its_profile
    (request profile : JSValue) (e : Exn) :
  objectHasProperty request "profile" = true →
  get request "profile" = inr profile →
  filterChargingProfileRequest profile = inl e →
  filterChargingProfileUpdateRequest request = inl e.
Proof.
  intros Hhas Hget Hfail.
  pose proof (get_inr_not_nullish _ _ _ Hget) as Hv.
  unfold filterChargingProfileUpdateRequest. copying Hv.
  unfold copy. by rewrite Hhas, Hget; cbn; rewrite Hfail.
Qed.

Definition command_keys : list string := ["carID"; "args"].

Definition args_keys : list string :=
  ["type"; "key"; "value"; "custom"; "connectorId"; "duration"; "chargingRateUnit";
   "chargingProfilePurpose"; "stackLevel"; "tagID"; "location"; "retries";
   "retryInterval"; "startTime"; "stopTime"; "retrieveDate"; "transactionId";
   "csChargingProfiles"].

Definition args_convert (key : string) : JSValue → Sync JSValue :=
  if bool_decide (key = "custom") then by_filterBoolean
  else if bool_decide (key = "csChargingProfiles") then filterChargingProfileRequest
  else by_sanitize.

Definition args_of (requestArgs : JSValue) : Sync JSValue :=
  args <- filterArgs requestArgs;;
  inr (JObject args).

Definition command_convert (key : string) : JSValue → Sync JSValue :=
  if bool_decide (key = "args") then args_of else by_sanitize.

Lemma filterArgs_picked (requestArgs : JSValue) (args : list (string * JSValue)) :
  filterArgs requestArgs = inr args →
  picked args_convert requestArgs args_keys args.
Proof.
  unfold filterArgs. intros H.
  pose proof (picked_nil args_convert requestArgs).
  do 17 pick (@nil (string * JSValue)).
  pick_last (@nil (string * JSValue)). done.
Qed.

(** When [filterChargingStationActionRequest] returns, its result
    starts with the sanitised [chargingStationID], present or not in the
    request, followed by [carID] and [args] where the request has them.
    The arguments are the known arguments that the request gives, in the
    order in which the filter tests them: [custom] as a boolean,
    [csChargingProfiles] through [filterChargingProfileRequest], the others
    sanitised. *)
Theorem filterChargingStationActionRequest_keeps_the_command
    (request filtered : JSValue) :
  filterChargingStationActionRequest request = inr filtered →
  ∃ chargingStationID rest,
    filtered = JObject (("chargingStationID", chargingStationID) :: rest) ∧
    sanitized request "chargingStationID" = inr chargingStationID ∧
    keys rest = List.filter (objectHasProperty request) command_keys ∧
    (∀ carID,
       ("carID", carID) ∈ rest →
       ∃ w, get request "carID" = inr w ∧ carID = sanitize w) ∧
    (∀ args,
       ("args", args) ∈ rest →
       ∃ requestArgs props,
         get request "args" = inr requestArgs ∧
         args = JObject props ∧
         keys props = List.filter (objectHasProperty requestArgs) args_keys ∧
         ∀ key value,
           (key, value) ∈ props →
           ∃ w, get requestArgs key = inr w ∧ args_convert key w = inr value).
Proof.
  unfold filterChargingStationActionRequest. intros H.
  apply sync_bind_inr in H as (chargingStationID & Hid & H). cbv beta zeta in H.
  pose proof (picked_nil command_convert request).
  pick [("chargingStationID", chargingStationID)].
  rewrite (copy_nested filterArgs JObject) in H.
  pick [("chargingStationID", chargingStationID)].
  injection H as <-.
  match goal with Hp : picked _ _ _ ?rest |- _ =>
    rename Hp into Hpicked; exists chargingStationID, rest end.
  split_and!; [done|done|apply Hpicked| |].
  - intros carID Hin.
    destruct (picked_elem _ _ _ _ _ _ Hpicked Hin) as (w & Hw & Hvalue).
    exists w. split; [done|]. by injection Hvalue.
  - intros args Hin.
    destruct (picked_elem _ _ _ _ _ _ Hpicked Hin) as (requestArgs & Hw & Hvalue).
    change (command_convert "args") with args_of in Hvalue. unfold args_of in Hvalue.
    apply sync_bind_inr in Hvalue as (props & Hprops & [= <-]).
    apply filterArgs_picked in Hprops as Hinner.
    exists requestArgs, props. split_and!; [done|done|apply Hinner|].
    intros key value Hkey. exact (picked_elem _ _ _ _ _ _ Hinner Hkey).
Qed.

(** [v.key] where [v] is known to be neither [null] nor [undefined]. *)
Definition read (v : JSValue) (key : string) : JSValue :=
  match get v key with
  | inr w => w
  | inl _ => JUndefined
  end.

Definition params_keys : list string :=
  ["chargingStationURL"; "maximumPower"; "excludeFromSmartCharging"; "forceInactive";
   "manualConfiguration"; "public"; "siteAreaID"; "coordinates"; "connectors";
   "chargePoints"].

(** What [filterChargingStationParamsUpdateRequest] asks of a property
    besides its presence. *)
Definition guard (request : JSValue) (key : string) : bool :=
  if bool_decide (key = "coordinates") then
    negb (isEmptyArray (read request key)) &&
    is_number (read (read request key) "length") 2
  else if bool_decide (key = "connectors" ∨ key = "chargePoints") then
    negb (isEmptyArray (read request key))
  else true.

Definition present (request : JSValue) (key : string) : bool :=
  objectHasProperty request key && guard request key.

Definition pair_of (coordinates : JSValue) : Sync JSValue :=
  first <- at_index coordinates 0;;
  second <- at_index coordinates 1;;
  inr (JArray [sanitize first; sanitize second]).

Definition params_convert (key : string) : JSValue → Sync JSValue :=
  if bool_decide (key ∈ ["excludeFromSmartCharging"; "forceInactive";
                         "manualConfiguration"; "public"])
  then by_filterBoolean
  else if bool_decide (key = "coordinates") then pair_of
  else if bool_decide (key = "connectors") then λ v, map_of v filterConnector
  else if bool_decide (key = "chargePoints") then λ v, map_of v filterChargePoint
  else by_sanitize.

Definition connector_keys : list string :=
  ["connectorId"; "power"; "type"; "voltage"; "amperage"; "currentType";
   "numberOfConnectedPhase"; "phaseAssignmentToGrid"].

Definition charge_point_keys : list string :=
  ["chargePointID"; "currentType"; "voltage"; "amperage"; "numberOfConnectedPhase";
   "cannotChargeInParallel"; "sharePowerToAllConnectors"; "excludeFromPowerLimitation";
   "ocppParamForPowerLimitation"; "power"; "efficiency"; "connectorIDs"].

(** [picked] with the test of presence left open. *)
Definition picked_by (convert : string → JSValue → Sync JSValue) (has : string → bool)
    (from : JSValue) (allowed : list string) (props : list (string * JSValue)) : Prop :=
  keys props = List.filter has allowed ∧ Forall (copied convert from) props.

Lemma get_read (v : JSValue) (key : string) : ¬ nullish v → get v key = inr (read v key).
Proof. intros Hv. unfold read. by destruct (get_returns v key Hv) as [w ->]. Qed.

Lemma keep_picked_by (convert : string → JSValue → Sync JSValue) (has : string → bool)
    (from : JSValue) (pre : list (string * JSValue)) (allowed : list string)
    (key : string) (w v : JSValue) (target : list (string * JSValue)) :
  key ∉ keys pre → key ∉ allowed → has key = true →
  get from key = inr w → convert key w = inr v →
  picked_by convert has from allowed target →
  assign key v (pre ++ target) = pre ++ (target ++ [(key, v)]) ∧
  picked_by convert has from (allowed ++ [key]) (target ++ [(key, v)]).
Proof.
  intros Hpre Hallowed Hhas Hw Hv [Hkeys Hcopied]. split; [|split].
  - rewrite assign_fresh, app_assoc; [done|].
    rewrite keys_app, Hkeys. intros [?|[? _]%filter_allowed]%elem_of_app; done.
  - rewrite keys_app, List.filter_app, Hkeys. cbn. by rewrite Hhas.
  - apply Forall_app. split; [done|]. apply Forall_singleton. by exists w.
Qed.

Lemma skip_picked_by (convert : string → JSValue → Sync JSValue) (has : string → bool)
    (from : JSValue) (allowed : list string) (key : string)
    (target : list (string * JSValue)) :
  has key = false →
  picked_by convert has from allowed target →
  picked_by convert has from (allowed ++ [key]) target.
Proof.
  intros Hhas [Hkeys Hcopied]. split; [|done].
  rewrite List.filter_app, Hkeys. cbn. by rewrite Hhas, app_nil_r.
Qed.

Lemma copy_picked_by (convert : string → JSValue → Sync JSValue) (has : string → bool)
    (from : JSValue) (pre : list (string * JSValue)) (allowed : list string)
    (key : string) (c : JSValue → Sync JSValue) (target target' : list (string * JSValue)) :
  key ∉ keys pre → key ∉ allowed → convert key = c →
  has key = objectHasProperty from key →
  picked_by convert has from allowed target →
  copy c from key (pre ++ target) = inr target' →
  ∃ rest, target' = pre ++ rest ∧ picked_by convert has from (allowed ++ [key]) rest.
Proof.
  intros Hpre Hallowed <- Hhas Hpicked. unfold copy.
  destruct (objectHasProperty from key) eqn:Hproperty.
  - intros (w & Hw & (v & Hv & [= <-])%sync_bind_inr)%sync_bind_inr.
    destruct (keep_picked_by convert has from pre allowed key w v target)
      as [-> ?]; try done.
    by eexists.
  - intros [= <-]. exists target. split; [done|]. by apply skip_picked_by.
Qed.

Lemma copy_mapped_picked_by (convert : string → JSValue → Sync JSValue)
    (has : string → bool) (from : JSValue) (pre : list (string * JSValue))
    (allowed : list string) (key : string) (f : JSValue → Sync JSValue)
    (target target' : list (string * JSValue)) :
  key ∉ keys pre → key ∉ allowed → convert key = (λ v, map_of v f) →
  has key = objectHasProperty from key && negb (isEmptyArray (read from key)) →
  ¬ nullish from →
  picked_by convert has from allowed target →
  copy_mapped f from key (pre ++ target) = inr target' →
  ∃ rest, target' = pre ++ rest ∧ picked_by convert has from (allowed ++ [key]) rest.
Proof.
  intros Hpre Hallowed Hconvert Hhas Hv Hpicked. unfold copy_mapped.
  rewrite (get_read from key Hv). cbn [sync_bind].
  destruct (objectHasProperty from key) eqn:Hproperty;
    [destruct (isEmptyArray (read from key)) eqn:Hempty|]; cbn [negb] in *.
  - intros [= <-]. exists target. split; [done|]. by apply skip_picked_by.
  - intros (mapped & Hmapped & [= <-])%sync_bind_inr.
    destruct (keep_picked_by convert has from pre allowed key (read from key) mapped target)
      as [-> ?]; try done.
    + by apply get_read.
    + by rewrite Hconvert.
    + by eexists.
  - intros [= <-]. exists target. split; [done|]. by apply skip_picked_by.
Qed.

Lemma copy_coordinates_picked_by (convert : string → JSValue → Sync JSValue)
    (request : JSValue) (pre : list (string * JSValue)) (allowed : list string)
    (target target' : list (string * JSValue)) :
  "coordinates" ∉ keys pre → "coordinates" ∉ allowed →
  convert "coordinates" = pair_of →
  ¬ nullish request →
  picked_by convert (present request) request allowed target →
  copy_coordinates request (pre ++ target) = inr target' →
  ∃ rest, target' = pre ++ rest ∧
          picked_by convert (present request) request (allowed ++ ["coordinates"]) rest.
Proof.
  intros Hpre Hallowed Hconvert Hv Hpicked. unfold copy_coordinates.
  rewrite (get_read request "coordinates" Hv). cbn [sync_bind].
  assert (present request "coordinates" =
          objectHasProperty request "coordinates" &&
          (negb (isEmptyArray (read request "coordinates")) &&
           is_number (read (read request "coordinates") "length") 2)) as Hpresent
    by reflexivity.
  destruct (objectHasProperty request "coordinates") eqn:Hproperty;
    [destruct (isEmptyArray (read request "coordinates")) eqn:Hempty|];
    cbn [negb andb] in *.
  - intros [= <-]. exists target. split; [done|]. by apply skip_picked_by.
  - destruct (get (read request "coordinates") "length") as [|length] eqn:Hlength;
      [done|]. cbn [sync_bind].
    assert (read (read request "coordinates") "length" = length) as Hread
      by (unfold read at 1; by rewrite Hlength).
    rewrite Hread in Hpresent.
    destruct (is_number length 2) eqn:Htwo.
    + intros (first & Hfirst & (second & Hsecond & [= <-])%sync_bind_inr)%sync_bind_inr.
      destruct (keep_picked_by convert (present request) request pre allowed "coordinates"
                  (read request "coordinates")
                  (JArray [sanitize first; sanitize second]) target)
        as [-> ?]; try done.
      * by apply get_read.
      * rewrite Hconvert. unfold pair_of. by rewrite Hfirst; cbn; rewrite Hsecond.
      * by eexists.
    + intros [= <-]. exists target. split; [done|]. by apply skip_picked_by.
  - intros [= <-]. exists target. split; [done|]. by apply skip_picked_by.
Qed.

Lemma picked_by_nil (convert : string → JSValue → Sync JSValue) (has : string → bool)
    (from : JSValue) :
  picked_by convert has from [] [].
Proof. by split. Qed.

Lemma picked_by_elem (convert : string → JSValue → Sync JSValue) (has : string → bool)
    (from : JSValue) (allowed : list string) (props : list (string * JSValue))
    (key : string) (v : JSValue) :
  picked_by convert has from allowed props → (key, v) ∈ props →
  ∃ w, get from key = inr w ∧ convert key w = inr v.
Proof.
  intros [_ Hcopied] Hin.
  by apply (proj1 (Forall_forall _ _) Hcopied) in Hin.
Qed.

Lemma picked_by_property (convert : string → JSValue → Sync JSValue)
    (has : string → bool) (from : JSValue) (allowed : list string)
    (props : list (string * JSValue)) (key : string) :
  picked_by convert has from allowed props → NoDup allowed →
  key ∈ allowed → has key = true →
  ∃ w, get from key = inr w ∧ convert key w = inr (property key props).
Proof.
  intros Hpicked Hnodup Hallowed Hhas.
  assert (key ∈ keys props) as Hkey.
  { destruct Hpicked as [-> _]. rewrite list_elem_of_In. apply List.filter_In.
    by rewrite <- list_elem_of_In. }
  unfold keys in Hkey. apply list_elem_of_fmap in Hkey as ([k v] & -> & Hin).
  cbn. destruct (picked_by_elem _ _ _ _ _ _ _ Hpicked Hin) as (w & Hw & Hv).
  exists w. split; [done|]. rewrite (property_elem k v); [done| |done].
  destruct Hpicked as [-> _]. by apply NoDup_filter_allowed.
Qed.

Ltac pick_by pre :=
  match goal with
  | Hp : picked_by ?convert ?has ?from ?allowed ?target,
    H : sync_bind (copy ?c ?from ?key _) _ = inr _ |- _ =>
      let t := fresh "t" in
      let Hc := fresh "Hc" in
      apply sync_bind_inr in H as (t & Hc & H);
      destruct (copy_picked_by convert has from pre allowed key c target t)
        as (? & -> & ?);
      [fresh_key | fresh_key | reflexivity | exact (andb_true_r _)
      | exact Hp | exact Hc | clear Hp Hc];
      cbv beta in H
  end.

Lemma filterChargingStationParamsUpdateRequest_picked (request filtered : JSValue) :
  filterChargingStationParamsUpdateRequest request = inr filtered →
  ∃ id rest,
    filtered = JObject (("id", id) :: rest) ∧
    sanitized request "id" = inr id ∧
    picked_by params_convert (present request) request params_keys rest.
Proof.
  unfold filterChargingStationParamsUpdateRequest. intros H.
  apply sync_bind_inr in H as (id & Hid & H). cbv beta zeta in H.
  assert (¬ nullish request) as Hv.
  { intros [-> | ->]; discriminate Hid. }
  pose proof (picked_by_nil params_convert (present request) request).
  do 7 pick_by [("id", id)].
  apply sync_bind_inr in H as (t & Hc & H). cbv beta in H.
  match goal with Hp : picked_by _ _ _ ?allowed ?target |- _ =>
    destruct (copy_coordinates_picked_by params_convert request [("id", id)]
                allowed target t) as (? & -> & ?);
    [fresh_key | fresh_key | reflexivity | exact Hv | exact Hp | exact Hc
    | clear Hp Hc]
  end.
  apply sync_bind_inr in H as (t & Hc & H). cbv beta in H.
  match goal with Hp : picked_by _ _ _ ?allowed ?target |- _ =>
    destruct (copy_mapped_picked_by params_convert (present request) request
                [("id", id)] allowed "connectors" filterConnector target t)
      as (? & -> & ?);
    [fresh_key | fresh_key | reflexivity | reflexivity | exact Hv | exact Hp | exact Hc
    | clear Hp Hc]
  end.
  apply sync_bind_inr in H as (t & Hc & H). cbv beta in H.
  match goal with Hp : picked_by _ _ _ ?allowed ?target |- _ =>
    destruct (copy_mapped_picked_by params_convert (present request) request
                [("id", id)] allowed "chargePoints" filterChargePoint target t)
      as (? & -> & ?);
    [fresh_key | fresh_key | reflexivity | reflexivity | exact Hv | exact Hp | exact Hc
    | clear Hp Hc]
  end.
  injection H as <-. by eexists _, _.
Qed.

Lemma params_keys_NoDup : NoDup params_keys.
Proof. apply (bool_decide_unpack _). by vm_compute. Qed.

Lemma map_of_inr (v mapped : JSValue) (f : JSValue → Sync JSValue) :
  map_of v f = inr mapped →
  ∃ elements news,
    v = JArray elements ∧ mapped = JArray news ∧
    Forall2 (λ element new, f element = inr new) elements news.
Proof.
  destruct v; try done. cbn.
  intros (news & Hnews%traverse_Forall2 & [= <-])%sync_bind_inr.
  by eexists _, _.
Qed.

Lemma traverse_by_sanitize (elements : list JSValue) :
  traverse by_sanitize elements = inr (sanitize <$> elements).
Proof. induction elements as [|element elements IH]; [done|]. cbn. by rewrite IH. Qed.

Lemma sanitized_inr (v : JSValue) (key : string) (value : JSValue) :
  sanitized v key = inr value → ∃ w, get v key = inr w ∧ value = sanitize w.
Proof.
  unfold sanitized. intros (w & Hw & [= <-])%sync_bind_inr. by exists w.
Qed.

Ltac sanitizing H :=
  repeat match type of H with
    | sync_bind (sanitized _ _) _ = inr _ =>
        let Hs := fresh "Hs" in
        apply sync_bind_inr in H as (? & Hs%sanitized_inr & H); cbv beta in H
    end.

Ltac listed Hin :=
  repeat (apply elem_of_cons in Hin as [[= -> ->]|Hin]; [by eauto|]);
  by apply elem_of_nil in Hin.

Lemma filterConnector_inr (connector new : JSValue) :
  filterConnector connector = inr new →
  if truthy connector then
    ∃ props,
      new = JObject props ∧ keys props = connector_keys ∧
      ∀ key value, (key, value) ∈ props →
                   ∃ w, get connector key = inr w ∧ value = sanitize w
  else new = JNull.
Proof.
  unfold filterConnector. destruct (truthy connector); [|by intros [= <-]].
  intros H. sanitizing H. injection H as <-.
  eexists. split_and!; [done|done|].
  intros key value Hin. listed Hin.
Qed.

Lemma filterChargePoint_inr (chargePoint new : JSValue) :
  filterChargePoint chargePoint = inr new →
  if truthy chargePoint then
    ∃ connectorIDs props,
      get chargePoint "connectorIDs" = inr (JArray connectorIDs) ∧
      new = JObject props ∧ keys props = charge_point_keys ∧
      property "connectorIDs" props = JArray (sanitize <$> connectorIDs) ∧
      ∀ key value, (key, value) ∈ props → key ≠ "connectorIDs" →
                   ∃ w, get chargePoint key = inr w ∧ value = sanitize w
  else new = JNull.
Proof.
  unfold filterChargePoint. destruct (truthy chargePoint); [|by intros [= <-]].
  intros H. sanitizing H.
  apply sync_bind_inr in H as (requested & Hrequested & H).
  apply sync_bind_inr in H as (mapped & Hmapped & [= <-]).
  destruct requested; try done. cbn in Hmapped.
  rewrite traverse_by_sanitize in Hmapped. injection Hmapped as <-.
  eexists _, _. split_and!; [done|done|done|done|].
  intros key value Hin Hkey.
  listed Hin.
Qed.

(** When [filterChargingStationParamsUpdateRequest] returns, its
    result starts with the sanitised [id], present or not in the request.
    The properties after it are those of the list of parameters that the
    request has, in the order in which the filter tests them; the
    coordinates only if they are a non-empty array of length two, the
    connectors and the charge points only if they are not an empty array.
    The four flags are filtered as booleans, the coordinates are the pair
    of the two sanitised elements, the connectors and the charge points are
    mapped, the others are sanitised. *)
Theorem filterChargingStationParamsUpdateRequest_keeps_the_parameters
    (request filtered : JSValue) :
  filterChargingStationParamsUpdateRequest request = inr filtered →
  ∃ id rest,
    filtered = JObject (("id", id) :: rest) ∧
    sanitized request "id" = inr id ∧
    keys rest = List.filter (present request) params_keys ∧
    ∀ key value,
      (key, value) ∈ rest →
      ∃ w, get request key = inr w ∧ params_convert key w = inr value.
Proof.
  intros (id & rest & -> & Hid & Hpicked)%filterChargingStationParamsUpdateRequest_picked.
  exists id, rest. split_and!; [done|done|apply Hpicked|].
  intros key value Hin. exact (picked_by_elem _ _ _ _ _ _ _ Hpicked Hin).
Qed.

(** The connectors of the result are the connectors of the request
    one for one, in order: [filterChargingStationParamsUpdateRequest]
    returns only when the connectors that it keeps are an array; a
    connector that is not truthy becomes [null], any other becomes the
    object of its eight sanitised properties. *)
Theorem filterChargingStationParamsUpdateRequest_keeps_the_connectors
    (request filtered requested : JSValue) :
  filterChargingStationParamsUpdateRequest request = inr filtered →
  objectHasProperty request "connectors" = true →
  get request "connectors" = inr requested →
  isEmptyArray requested = false →
  ∃ connectors news,
    requested = JArray connectors ∧
    get filtered "connectors" = inr (JArray news) ∧
    Forall2 (λ connector new,
               if truthy connector then
                 ∃ props,
                   new = JObject props ∧ keys props = connector_keys ∧
                   ∀ key value, (key, value) ∈ props →
                                ∃ w, get connector key = inr w ∧ value = sanitize w
               else new = JNull)
            connectors news.
Proof.
  intros (id & rest & -> & Hid & Hpicked)%filterChargingStationParamsUpdateRequest_picked
    Hhas Hget Hempty.
  destruct (picked_by_property _ _ _ _ _ "connectors" Hpicked params_keys_NoDup)
    as (w & Hw & Hmapped); [fresh_key| |].
  { change (present request "connectors")
      with (objectHasProperty request "connectors" &&
            negb (isEmptyArray (read request "connectors"))).
    unfold read. by rewrite Hhas, Hget, Hempty. }
  rewrite Hget in Hw. injection Hw as <-.
  change (params_convert "connectors") with (λ v, map_of v filterConnector) in Hmapped.
  apply map_of_inr in Hmapped as (connectors & news & -> & Hnews & Hall).
  exists connectors, news. split_and!; [done|by cbn; rewrite <- Hnews|].
  eapply Forall2_impl; [exact Hall|].
  intros connector new. apply filterConnector_inr.
Qed.

(** The charge points of the result are the charge points of the
    request one for one, in order.  [filterChargingStationParamsUpdateRequest]
    returns only when every truthy charge point that it keeps has an array
    of [connectorIDs]; such a charge point becomes the object of its twelve
    properties, the [connectorIDs] sanitised one by one; a charge point that
    is not truthy becomes [null]. *)
Theorem filterChargingStationParamsUpdateRequest_keeps_the_charge_points
    (request filtered requested : JSValue) :
  filterChargingStationParamsUpdateRequest request = inr filtered →
  objectHasProperty request "chargePoints" = true →
  get request "chargePoints" = inr requested →
  isEmptyArray requested = false →
  ∃ chargePoints news,
    requested = JArray chargePoints ∧
    get filtered "chargePoints" = inr (JArray news) ∧
    Forall2 (λ chargePoint new,
               if truthy chargePoint then
                 ∃ connectorIDs props,
                   get chargePoint "connectorIDs" = inr (JArray connectorIDs) ∧
                   new = JObject props ∧ keys props = charge_point_keys ∧
                   property "connectorIDs" props = JArray (sanitize <$> connectorIDs) ∧
                   ∀ key value, (key, value) ∈ props → key ≠ "connectorIDs" →
                                ∃ w, get chargePoint key = inr w ∧ value = sanitize w
               else new = JNull)
            chargePoints news.
Proof.
  intros (id & rest & -> & Hid & Hpicked)%filterChargingStationParamsUpdateRequest_picked
    Hhas Hget Hempty.
  destruct (picked_by_property _ _ _ _ _ "chargePoints" Hpicked params_keys_NoDup)
    as (w & Hw & Hmapped); [fresh_key| |].
  { change (present request "chargePoints")
      with (objectHasProperty request "chargePoints" &&
            negb (isEmptyArray (read request "chargePoints"))).
    unfold read. by rewrite Hhas, Hget, Hempty. }
  rewrite Hget in Hw. injection Hw as <-.
  change (params_convert "chargePoints") with (λ v, map_of v filterChargePoint) in Hmapped.
  apply map_of_inr in Hmapped as (chargePoints & news & -> & Hnews & Hall).
  exists chargePoints, news. split_and!; [done|by cbn; rewrite <- Hnews|].
  eapply Forall2_impl; [exact Hall|].
  intros chargePoint new. apply filterChargePoint_inr.
Qed.

(** *** Filtering what has been filtered *)

Section Twice.
(** [Utils.objectHasProperty] tests for an own property, and sanitising a
    sanitised value changes nothing. *)
Hypothesis own : ∀ v key, objectHasProperty v key = own_property v key.
Hypothesis sanitize_idempotent : ∀ v, sanitize (sanitize v) = sanitize v.

(** Every property of [props] is left as it is by the converter of its key. *)
Definition fixed (convert : string → JSValue → Sync JSValue)
    (props : list (string * JSValue)) : Prop :=
  Forall (λ entry, convert entry.1 entry.2 = inr entry.2) props.

Lemma property_in (key : string) (props : list (string * JSValue)) :
  key ∈ keys props → (key, property key props) ∈ props.
Proof.
  induction props as [|[k w] rest IH]; [by intros ?%elem_of_nil|].
  cbn. intros Hin. case_bool_decide as Hk.
  - subst. apply elem_of_cons. by left.
  - apply elem_of_cons. right. apply IH.
    apply elem_of_cons in Hin as [?|?]; [by subst|done].
Qed.

Lemma filter_own (has : string → bool) (allowed : list string)
    (props : list (string * JSValue)) :
  keys props = List.filter has allowed →
  List.filter (objectHasProperty (JObject props)) allowed = keys props.
Proof.
  intros Hkeys. rewrite Hkeys. apply List.filter_ext_in. intros key Hkey.
  rewrite own. cbn. rewrite Hkeys.
  destruct (has key) eqn:Hhas.
  - apply bool_decide_eq_true_2. rewrite list_elem_of_In. by apply List.filter_In.
  - apply bool_decide_eq_false_2. rewrite list_elem_of_In.
    intros [_ ?]%List.filter_In. congruence.
Qed.

Lemma picked_fixed (convert : string → JSValue → Sync JSValue) (from : JSValue)
    (allowed : list string) (props : list (string * JSValue)) :
  NoDup allowed →
  picked convert from allowed props → fixed convert props →
  picked convert (JObject props) allowed props.
Proof.
  intros Hnodup [Hkeys _] Hfixed. split; [symmetry; by eapply filter_own|].
  apply Forall_forall. intros [key v] Hin.
  exists v. split.
  - cbn. f_equal. apply property_elem; [|done].
    rewrite Hkeys. by apply NoDup_filter_allowed.
  - by apply (proj1 (Forall_forall _ _) Hfixed) in Hin.
Qed.

Lemma copied_unique (convert : string → JSValue → Sync JSValue) (from : JSValue)
    (props props' : list (string * JSValue)) :
  keys props = keys props' →
  Forall (copied convert from) props → Forall (copied convert from) props' →
  props = props'.
Proof.
  revert props'. induction props as [|[k v] rest IH]; intros [|[k' v'] rest']; try done.
  cbn. intros [= <- Hkeys] [Hv Hrest]%Forall_cons [Hv' Hrest']%Forall_cons.
  destruct Hv as (w & Hw & Hv), Hv' as (w' & Hw' & Hv'). cbn in *.
  rewrite Hw in Hw'. injection Hw' as <-. rewrite Hv in Hv'. injection Hv' as <-.
  f_equal. by apply IH.
Qed.

Lemma picked_unique (convert : string → JSValue → Sync JSValue) (from : JSValue)
    (allowed : list string) (props props' : list (string * JSValue)) :
  picked convert from allowed props → picked convert from allowed props' →
  props = props'.
Proof.
  intros [Hkeys Hcopied] [Hkeys' Hcopied'].
  apply (copied_unique convert from); [congruence|done|done].
Qed.

Lemma copy_fixed_returns (convert : string → JSValue → Sync JSValue)
    (props : list (string * JSValue)) (key : string) (c : JSValue → Sync JSValue)
    (target : list (string * JSValue)) :
  fixed convert props → convert key = c →
  ∃ target', copy c (JObject props) key target = inr target'.
Proof.
  intros Hfixed <-. unfold copy. rewrite own. cbn [own_property get sync_bind].
  case_bool_decide as Hkey; [|by eexists].
  apply property_in in Hkey.
  apply (proj1 (Forall_forall _ _) Hfixed) in Hkey. cbn in Hkey.
  rewrite Hkey. by eexists.
Qed.

Lemma traverse_fixed {A} (f : A → Sync A) (l : list A) :
  Forall (λ a, f a = inr a) l → traverse f l = inr l.
Proof.
  induction 1 as [|a l Ha _ IH]; [done|]. cbn. by rewrite Ha; cbn; rewrite IH.
Qed.

Ltac refiltering convert Hfixed :=
  repeat match goal with
    | |- context [copy ?c (JObject ?props) ?key ?target] =>
        destruct (copy_fixed_returns convert props key c target Hfixed eq_refl)
          as [? ->];
        cbn [sync_bind]
    end.

Lemma period_keys_NoDup : NoDup period_keys.
Proof. apply (bool_decide_unpack _). by vm_compute. Qed.

Lemma filterChargingSchedulePeriod_twice (chargingSchedulePeriod filtered : JSValue) :
  filterChargingSchedulePeriod chargingSchedulePeriod = inr filtered →
  filterChargingSchedulePeriod filtered = inr filtered.
Proof.
  intros (props & -> & Hpicked)%filterChargingSchedulePeriod_picked.
  assert (fixed period_convert props) as Hfixed.
  { apply Forall_forall. intros [key v] Hin.
    destruct (picked_elem _ _ _ _ _ _ Hpicked Hin) as (w & _ & [= <-]).
    cbn. unfold period_convert, by_sanitize. by rewrite sanitize_idempotent. }
  assert (∃ again, filterChargingSchedulePeriod (JObject props) = inr again)
    as [again Hagain].
  { unfold filterChargingSchedulePeriod. refiltering period_convert Hfixed. by eexists. }
  rewrite Hagain.
  apply filterChargingSchedulePeriod_picked in Hagain as (props' & -> & Hpicked').
  do 2 f_equal.
  apply (picked_unique period_convert (JObject props) period_keys); [done|].
  by apply (picked_fixed _ chargingSchedulePeriod); [apply period_keys_NoDup| |].
Qed.

Lemma filterChargingSchedule_twice (requestSchedule : JSValue)
    (chargingSchedule : list (string * JSValue)) :
  filterChargingSchedule requestSchedule = inr chargingSchedule →
  filterChargingSchedule (JObject chargingSchedule) = inr chargingSchedule.
Proof.
  intros Hpicked%filterChargingSchedule_picked.
  assert (fixed schedule_convert chargingSchedule) as Hfixed.
  { apply Forall_forall. intros [key v] Hin.
    destruct (picked_elem _ _ _ _ _ _ Hpicked Hin) as (w & _ & Hv).
    cbn. unfold schedule_convert in *. case_bool_decide.
    - unfold periods_of in Hv.
      apply sync_bind_inr in Hv as (elements & _ & Hv).
      apply sync_bind_inr in Hv as (news & Hnews%traverse_Forall2 & [= <-]).
      unfold periods_of. cbn. rewrite traverse_fixed; [done|].
      apply Forall_forall. intros new Hnew.
      apply list_elem_of_lookup in Hnew as [i Hi].
      destruct (Forall2_lookup_r _ _ _ _ _ Hnews Hi) as (period & _ & Hperiod).
      by eapply filterChargingSchedulePeriod_twice.
    - injection Hv as <-. unfold by_sanitize. by rewrite sanitize_idempotent. }
  assert (∃ again, filterChargingSchedule (JObject chargingSchedule) = inr again)
    as [again Hagain].
  { unfold filterChargingSchedule. refiltering schedule_convert Hfixed.
    rewrite copy_periods. refiltering schedule_convert Hfixed. by eexists. }
  rewrite Hagain. f_equal.
  apply filterChargingSchedule_picked in Hagain.
  apply (picked_unique schedule_convert (JObject chargingSchedule) schedule_keys);
    [done|].
  by apply (picked_fixed _ requestSchedule); [apply schedule_keys_NoDup| |].
Qed.

Lemma filterChargingProfileRequest_twice_step (request filtered : JSValue) :
  filterChargingProfileRequest request = inr filtered →
  filterChargingProfileRequest filtered = inr filtered.
Proof.
  intros (props & -> & Hpicked)%filterChargingProfileRequest_picked.
  assert (fixed profile_convert props) as Hfixed.
  { apply Forall_forall. intros [key v] Hin.
    destruct (picked_elem _ _ _ _ _ _ Hpicked Hin) as (w & _ & Hv).
    cbn. unfold profile_convert in *. case_bool_decide.
    - unfold schedule_of in *.
      apply sync_bind_inr in Hv as (chargingSchedule & Hschedule & [= <-]).
      by rewrite (filterChargingSchedule_twice _ _ Hschedule).
    - injection Hv as <-. unfold by_sanitize. by rewrite sanitize_idempotent. }
  assert (∃ again, filterChargingProfileRequest (JObject props) = inr again)
    as [again Hagain].
  { unfold filterChargingProfileRequest. refiltering profile_convert Hfixed.
    rewrite (copy_nested filterChargingSchedule JObject).
    refiltering profile_convert Hfixed. by eexists. }
  rewrite Hagain.
  apply filterChargingProfileRequest_picked in Hagain as (props' & -> & Hpicked').
  do 2 f_equal.
  apply (picked_unique profile_convert (JObject props) profile_keys); [done|].
  by apply (picked_fixed _ request); [apply profile_keys_NoDup| |].
Qed.

(** Filtering a filtered profile changes nothing: where
    [Utils.objectHasProperty] tests for an own property and the sanitiser
    leaves a sanitised value as it is, [filterChargingProfileRequest]
    applied to its own result returns that result. *)
Theorem filterChargingProfileRequest_twice (request filtered : JSValue) :
  filterChargingProfileRequest request = inr filtered →
  filterChargingProfileRequest filtered = inr filtered.
Proof.
  apply filterChargingProfileRequest_twice_step.
Qed.

Lemma update_keys_NoDup : NoDup update_keys.
Proof. apply (bool_decide_unpack _). by vm_compute. Qed.

(** Under the same two conditions, filtering a filtered update
    changes nothing either: [filterChargingProfileUpdateRequest] applied to
    its own result returns that result, profile included. *)
Theorem filterChargingProfileUpdateRequest_twice (request filtered : JSValue) :
  filterChargingProfileUpdateRequest request = inr filtered →
  filterChargingProfileUpdateRequest filtered = inr filtered.
Proof.
  intros (props & -> & Hpicked)%filterChargingProfileUpdateRequest_picked.
  assert (fixed update_convert props) as Hfixed.
  { apply Forall_forall. intros [key v] Hin.
    destruct (picked_elem _ _ _ _ _ _ Hpicked Hin) as (w & _ & Hv).
    cbn. unfold update_convert in *. case_bool_decide.
    - by eapply filterChargingProfileRequest_twice_step.
    - injection Hv as <-. unfold by_sanitize. by rewrite sanitize_idempotent. }
  assert (∃ again, filterChargingProfileUpdateRequest (JObject props) = inr again)
    as [again Hagain].
  { unfold filterChargingProfileUpdateRequest. refiltering update_convert Hfixed.
    by eexists. }
  rewrite Hagain.
  apply filterChargingProfileUpdateRequest_picked in Hagain as (props' & -> & Hpicked').
  do 2 f_equal.
  apply (picked_unique update_convert (JObject props) update_keys); [done|].
  by apply (picked_fixed _ request); [apply update_keys_NoDup| |].
Qed.

End Twice.

End Filters.

(** *** Requests at the filters *)

(** A sanitiser in the manner of [mongo-sanitize]: it drops the properties
    whose key starts with a dollar sign, at any depth. *)
Fixpoint strip (v : JSValue) : JSValue :=
  match v with
  | JArray elements => JArray (List.map strip elements)
  | JObject properties =>
      JObject ((fix strip_properties (l : list (string * JSValue)) :=
                  match l with
                  | [] => []
                  | (k, w) :: rest =>
                      if String.prefix "$" k then strip_properties rest
                      else (k, strip w) :: strip_properties rest
                  end) properties)
  | _ => v
  end.

(** A boolean filter that accepts [true] and the string [true]. *)
Definition as_boolean (v : JSValue) : JSValue :=
  JBool (match v with
         | JBool b => b
         | JString s => bool_decide (s = "true")
         | _ => false
         end).

(** A test for empty arrays. *)
Definition empty_array (v : JSValue) : bool :=
  match v with
  | JArray (_ :: _) => false
  | _ => true
  end.

Definition value_of (m : Sync JSValue) : JSValue :=
  match m with
  | inr v => v
  | inl _ => JUndefined
  end.

Definition profile_request : JSValue :=
  JObject
    [("chargingProfileId", JNumber 7);
     ("owner", JString "someone");
     ("stackLevel", JObject [("$gt", JNumber 0)]);
     ("chargingSchedule",
      JObject
        [("chargingRateUnit", JString "A");
         ("$where", JString "1");
         ("duration", JNumber 3600);
         ("chargingSchedulePeriod",
          JArray
            [JObject [("limit", JNumber 16); ("startPeriod", JNumber 0);
                      ("comment", JString "night")];
             JObject [("limit", JNumber 32)]])])].

Definition update_request : JSValue :=
  JObject [("chargingStationID", JString "CS-1"); ("profile", profile_request);
           ("id", JString "p1")].

(** An update whose periods cannot be iterated. *)
Definition broken_profile : JSValue :=
  JObject [("chargingSchedule", JObject [("chargingSchedulePeriod", JNumber 3)])].

Definition broken_update : JSValue :=
  JObject [("id", JString "p1"); ("profile", broken_profile)].

Definition command_request : JSValue :=
  JObject [("args", JObject [("value", JString "60"); ("key", JString "HeartbeatInterval");
                             ("custom", JString "true"); ("password", JString "x")]);
           ("chargingStationID", JString "CS-1")].

Definition params_request : JSValue :=
  JObject
    [("id", JString "CS-1");
     ("public", JBool true);
     ("coordinates", JArray [JNumber 7; JNumber 43; JNumber 0]);
     ("maximumPower", JNumber 22080);
     ("connectors",
      JArray [JObject [("connectorId", JNumber 1); ("power", JNumber 11040);
                       ("status", JString "Available")];
              JNull]);
     ("chargePoints",
      JArray [JObject [("chargePointID", JNumber 1);
                       ("connectorIDs", JArray [JNumber 1; JNumber 2])]])].

Lemma filterChargingProfileRequest_keeps_the_profile_witness :
  ∃ props,
    filterChargingProfileRequest strip own_property profile_request = inr (JObject props) ∧
    keys props = ["chargingProfileId"; "stackLevel"; "chargingSchedule"].
Proof.
  destruct (filterChargingProfileRequest_keeps_the_profile strip own_property
              profile_request
              (value_of (filterChargingProfileRequest strip own_property profile_request)))
    as (props & Hfiltered & Hkeys & _).
  - vm_compute. reflexivity.
  - exists props. split.
    + rewrite <- Hfiltered. vm_compute. reflexivity.
    + rewrite Hkeys. vm_compute. reflexivity.
Defined.

Lemma filterChargingProfileRequest_keeps_the_schedule_witness :
  ∃ chargingSchedule,
    get (value_of (filterChargingProfileRequest strip own_property profile_request))
        "chargingSchedule" = inr (JObject chargingSchedule) ∧
    keys chargingSchedule = ["duration"; "chargingRateUnit"; "chargingSchedulePeriod"].
Proof.
  destruct (filterChargingProfileRequest_keeps_the_schedule strip own_property
              profile_request
              (value_of (filterChargingProfileRequest strip own_property profile_request)))
    as (requestSchedule & chargingSchedule & Hrequest & Hfiltered & Hkeys & _).
  - vm_compute. reflexivity.
  - vm_compute. reflexivity.
  - exists chargingSchedule. split; [exact Hfiltered|].
    rewrite Hkeys. vm_compute in Hrequest. injection Hrequest as <-.
    vm_compute. reflexivity.
Defined.

Lemma filterChargingProfileRequest_keeps_the_periods_witness :
  ∃ chargingSchedule news,
    get (value_of (filterChargingProfileRequest strip own_property profile_request))
        "chargingSchedule" = inr (JObject chargingSchedule) ∧
    property "chargingSchedulePeriod" chargingSchedule = JArray news ∧
    length news = 2%nat.
Proof.
  destruct (filterChargingProfileRequest_keeps_the_periods strip own_property
              profile_request
              (value_of (filterChargingProfileRequest strip own_property profile_request))
              (value_of (get profile_request "chargingSchedule")))
    as (periods & elements & chargingSchedule & news
        & Hperiods & Helements & Hfiltered & Hproperty & Hall).
  - vm_compute. reflexivity.
  - vm_compute. reflexivity.
  - vm_compute. reflexivity.
  - vm_compute. reflexivity.
  - exists chargingSchedule, news. split; [exact Hfiltered|]. split; [exact Hproperty|].
    rewrite <- (Forall2_length _ _ _ Hall).
    vm_compute in Hperiods. injection Hperiods as <-.
    vm_compute in Helements. injection Helements as <-.
    reflexivity.
Defined.

Lemma filterChargingProfileUpdateRequest_keeps_the_update_witness :
  ∃ props,
    filterChargingProfileUpdateRequest strip own_property update_request =
      inr (JObject props) ∧
    keys props = ["id"; "chargingStationID"; "profile"].
Proof.
  destruct (filterChargingProfileUpdateRequest_keeps_the_update strip own_property
              update_request
              (value_of (filterChargingProfileUpdateRequest strip own_property
                           update_request)))
    as (props & Hfiltered & Hkeys & _).
  - vm_compute. reflexivity.
  - exists props. split.
    + rewrite <- Hfiltered. vm_compute. reflexivity.
    + rewrite Hkeys. vm_compute. reflexivity.
Defined.

Lemma filterChargingProfileUpdateRequest_fails_with_its_profile_witness :
  filterChargingProfileUpdateRequest strip own_property broken_update =
  inl (TypeError "value is not iterable").
Proof.
  apply (filterChargingProfileUpdateRequest_fails_with_its_profile strip own_property
           broken_update broken_profile (TypeError "value is not iterable")).
  - vm_compute. reflexivity.
  - vm_compute. reflexivity.
  - vm_compute. reflexivity.
Defined.

Lemma filterChargingStationActionRequest_keeps_the_command_witness :
  ∃ rest,
    filterChargingStationActionRequest strip as_boolean own_property command_request =
      inr (JObject (("chargingStationID", JString "CS-1") :: rest)) ∧
    keys rest = ["args"].
Proof.
  destruct (filterChargingStationActionRequest_keeps_the_command strip as_boolean
              own_property command_request
              (value_of (filterChargingStationActionRequest strip as_boolean own_property
                           command_request)))
    as (id & rest & Hfiltered & Hid & Hkeys & _).
  - vm_compute. reflexivity.
  - exists rest. split.
    + vm_compute in Hid. injection Hid as <-.
      rewrite <- Hfiltered. vm_compute. reflexivity.
    + rewrite Hkeys. vm_compute. reflexivity.
Defined.

Lemma filterChargingStationParamsUpdateRequest_keeps_the_parameters_witness :
  ∃ rest,
    filterChargingStationParamsUpdateRequest strip as_boolean own_property empty_array
      params_request = inr (JObject (("id", JString "CS-1") :: rest)) ∧
    keys rest = ["maximumPower"; "public"; "connectors"; "chargePoints"].
Proof.
  destruct (filterChargingStationParamsUpdateRequest_keeps_the_parameters strip as_boolean
              own_property empty_array params_request
              (value_of (filterChargingStationParamsUpdateRequest strip as_boolean
                           own_property empty_array params_request)))
    as (id & rest & Hfiltered & Hid & Hkeys & _).
  - vm_compute. reflexivity.
  - exists rest. split.
    + vm_compute in Hid. injection Hid as <-.
      rewrite <- Hfiltered. vm_compute. reflexivity.
    + rewrite Hkeys. vm_compute. reflexivity.
Defined.

Lemma filterChargingStationParamsUpdateRequest_keeps_the_connectors_witness :
  ∃ first,
    get (value_of (filterChargingStationParamsUpdateRequest strip as_boolean own_property
                     empty_array params_request)) "connectors" =
    inr (JArray [first; JNull]).
Proof.
  destruct (filterChargingStationParamsUpdateRequest_keeps_the_connectors strip as_boolean
              own_property empty_array params_request
              (value_of (filterChargingStationParamsUpdateRequest strip as_boolean
                           own_property empty_array params_request))
              (value_of (get params_request "connectors")))
    as (connectors & news & Hrequested & Hfiltered & Hall).
  - vm_compute. reflexivity.
  - vm_compute. reflexivity.
  - vm_compute. reflexivity.
  - vm_compute. reflexivity.
  - vm_compute in Hrequested. injection Hrequested as <-.
    apply Forall2_cons_inv_l in Hall as (first & news' & _ & Hall & ->).
    apply Forall2_cons_inv_l in Hall as (second & news'' & Hnull & Hall & ->).
    apply Forall2_nil_inv_l in Hall as ->.
    cbn in Hnull. subst second.
    exists first. exact Hfiltered.
Defined.

Lemma filterChargingStationParamsUpdateRequest_keeps_the_charge_points_witness :
  ∃ props,
    get (value_of (filterChargingStationParamsUpdateRequest strip as_boolean own_property
                     empty_array params_request)) "chargePoints" =
      inr (JArray [JObject props]) ∧
    property "connectorIDs" props = JArray [JNumber 1; JNumber 2].
Proof.
  destruct (filterChargingStationParamsUpdateRequest_keeps_the_charge_points strip
              as_boolean own_property empty_array params_request
              (value_of (filterChargingStationParamsUpdateRequest strip as_boolean
                           own_property empty_array params_request))
              (value_of (get params_request "chargePoints")))
    as (chargePoints & news & Hrequested & Hfiltered & Hall).
  - vm_compute. reflexivity.
  - vm_compute. reflexivity.
  - vm_compute. reflexivity.
  - vm_compute. reflexivity.
  - vm_compute in Hrequested. injection Hrequested as <-.
    apply Forall2_cons_inv_l in Hall as (new & news' & Hnew & Hall & ->).
    apply Forall2_nil_inv_l in Hall as ->.
    cbn [truthy] in Hnew.
    destruct Hnew as (connectorIDs & props & Hids & -> & _ & Hproperty & _).
    vm_compute in Hids. injection Hids as <-.
    exists props. split; [exact Hfiltered|exact Hproperty].
Defined.

Lemma strip_idempotent (v : JSValue) : strip (strip v) = strip v.
Proof.
  revert v. fix IH 1. intros [| | | | |elements|properties]; try reflexivity.
  - cbn. f_equal. revert elements. fix IHelements 1.
    intros [|element elements]; [reflexivity|].
    cbn. f_equal; [apply IH|apply IHelements].
  - cbn. f_equal. revert properties. fix IHproperties 1.
    intros [|[k w] properties]; [reflexivity|].
    cbn. destruct (String.prefix "$" k) eqn:Hk; [apply IHproperties|].
    cbn. rewrite Hk. f_equal; [f_equal; apply IH|apply IHproperties].
Qed.

Lemma filterChargingProfileRequest_twice_witness :
  filterChargingProfileRequest strip own_property
    (value_of (filterChargingProfileRequest strip own_property profile_request)) =
  filterChargingProfileRequest strip own_property profile_request.
Proof.
  rewrite (filterChargingProfileRequest_twice strip own_property
             (λ v key, eq_refl) strip_idempotent profile_request
             (value_of (filterChargingProfileRequest strip own_property profile_request))).
  - vm_compute. reflexivity.
  - vm_compute. reflexivity.
Defined.

Lemma filterChargingProfileUpdateRequest_twice_witness :
  filterChargingProfileUpdateRequest strip own_property
    (value_of (filterChargingProfileUpdateRequest strip own_property update_request)) =
  filterChargingProfileUpdateRequest strip own_property update_request.
Proof.
  rewrite (filterChargingProfileUpdateRequest_twice strip own_property
             (λ v key, eq_refl) strip_idempotent update_request
             (value_of (filterChargingProfileUpdateRequest strip own_property
                          update_request))).
  - vm_compute. reflexivity.
  - vm_compute. reflexivity.
Defined.

End ChargingStationSecurity.
